(** * StepperMotor: a shallow embedding of the digital stepper-motor driver

    The development follows [Firmware/src/StepperMotor.h] and
    [Firmware/src/StepperMotor.cpp].  The class [StepperMotor] becomes a
    record, every method becomes a function from records to records, and the
    Arduino calls the methods make ([micros], [digitalRead], [digitalWrite],
    [pinMode], [delay], [delayMicroseconds]) become either explicit inputs or
    entries of an output log carried in the record. *)

From Stdlib Require Import Ascii String.
From Stdlib Require Import ZArith List Bool Lia.
Import ListNotations.
Local Open Scope Z_scope.

(** ** Machine integers

    [long] is a 32-bit two's complement integer and [unsigned long] a 32-bit
    natural on the boards the firmware names (Arduino and ESP32).  Values are
    kept in [Z]; every arithmetic operation of the source is followed by the
    reduction the hardware performs. *)

Module Long.

Definition MIN : Z := -2147483648.
Definition MAX : Z := 2147483647.
Definition modulus : Z := 4294967296.

Definition in_range (z : Z) : Prop := MIN <= z <= MAX.

(** Reduction into the signed range. *)
Definition wrap (z : Z) : Z := (z + 2147483648) mod modulus - 2147483648.

(** Reduction into the unsigned range. *)
Definition uwrap (z : Z) : Z := z mod modulus.

Definition add (a b : Z) : Z := wrap (a + b).
Definition sub (a b : Z) : Z := wrap (a - b).
Definition mul (a b : Z) : Z := wrap (a * b).
Definition neg (a : Z) : Z := wrap (- a).

(** C++ division truncates toward zero, as [Z.quot] does. *)
Definition div (a b : Z) : Z := wrap (a ÷ b).

(** Arduino's [abs] is the macro [((x)>0?(x):-(x))]. *)
Definition abs (x : Z) : Z := if x >? 0 then x else neg x.

(** Unsigned addition, as in [NextStepMicros += ...] and [micros() + 10L]. *)
Definition uadd (a b : Z) : Z := uwrap (a + b).

End Long.

(** ** Enumerations of [StepperMotor.h] *)

Inductive MotorState : Type :=
| MS_ENABLED
| MS_DISABLED
| MS_RUNNING
| MS_ESTOPPED.

Inductive RunReturn : Type :=
| OKAY
| RUN_COMPLETE
| RANGE_ERROR_LOWER
| RANGE_ERROR_UPPER
| LIMIT_SWITCH_LOWER
| LIMIT_SWITCH_UPPER.

Definition MotorState_eqb (a b : MotorState) : bool :=
  match a, b with
  | MS_ENABLED, MS_ENABLED | MS_DISABLED, MS_DISABLED
  | MS_RUNNING, MS_RUNNING | MS_ESTOPPED, MS_ESTOPPED => true
  | _, _ => false
  end.

(** ** The Arduino side

    Outputs are logged, newest first.  Inputs are read from an environment
    that stands for the board at the moment of a call. *)

Inductive Level : Type := LOW | HIGH.

Inductive Mode : Type := OUTPUT | INPUT_PULLUP.

Inductive PinEvent : Type :=
| pinMode (pin : Z) (mode : Mode)
| digitalWrite (pin : Z) (level : Level)
| delayMicroseconds (us : Z)
| delay (ms : Z).

Definition Level_eqb (a b : Level) : bool :=
  match a, b with
  | LOW, LOW | HIGH, HIGH => true
  | _, _ => false
  end.

Record Board : Type := {
  micros : Z;                 (* value returned by micros() *)
  digitalRead : Z -> Level    (* value returned by digitalRead(pin) *)
}.

Definition HOMING_SPEED : Z := 3000.
Definition PULSE_WIDTH : Z := 5.
Definition RampScale : Z := 5.

(** ** The class [StepperMotor]

    The fields are those of the class, in the order of the header; [Gpio] is
    the log of the calls made to the board. *)

Record StepperMotor : Type := {
  State : MotorState;
  EnablePin : Z;
  DirectionPin : Z;
  StepPin : Z;
  LLSwitchPin : Z;
  ULSwitchPin : Z;
  Homed : bool;
  MaxVelocity : Z;
  TargetOrSteps : Z;
  TotalSteps : Z;
  StepCount : Z;
  StepIncrement : Z;
  AbsolutePosition : Z;
  DeltaPosition : Z;
  TargetPosition : Z;
  LowerLimit : Z;
  UpperLimit : Z;
  RampSteps : Z;
  RampDownStep : Z;
  Velocity : Z;
  VelocityIncrement : Z;
  NextPosition : Z;
  NextStepMicros : Z;
  Gpio : list PinEvent
}.

(** Assignments to single fields. *)

Definition set_State (v : MotorState) (m : StepperMotor) : StepperMotor :=
  Build_StepperMotor v (EnablePin m) (DirectionPin m) (StepPin m)
    (LLSwitchPin m) (ULSwitchPin m) (Homed m) (MaxVelocity m)
    (TargetOrSteps m) (TotalSteps m) (StepCount m) (StepIncrement m)
    (AbsolutePosition m) (DeltaPosition m) (TargetPosition m) (LowerLimit m)
    (UpperLimit m) (RampSteps m) (RampDownStep m) (Velocity m)
    (VelocityIncrement m) (NextPosition m) (NextStepMicros m) (Gpio m).

Definition set_Homed (v : bool) (m : StepperMotor) : StepperMotor :=
  Build_StepperMotor (State m) (EnablePin m) (DirectionPin m) (StepPin m)
    (LLSwitchPin m) (ULSwitchPin m) v (MaxVelocity m) (TargetOrSteps m)
    (TotalSteps m) (StepCount m) (StepIncrement m) (AbsolutePosition m)
    (DeltaPosition m) (TargetPosition m) (LowerLimit m) (UpperLimit m)
    (RampSteps m) (RampDownStep m) (Velocity m) (VelocityIncrement m)
    (NextPosition m) (NextStepMicros m) (Gpio m).

Definition set_MaxVelocity (v : Z) (m : StepperMotor) : StepperMotor :=
  Build_StepperMotor (State m) (EnablePin m) (DirectionPin m) (StepPin m)
    (LLSwitchPin m) (ULSwitchPin m) (Homed m) v (TargetOrSteps m)
    (TotalSteps m) (StepCount m) (StepIncrement m) (AbsolutePosition m)
    (DeltaPosition m) (TargetPosition m) (LowerLimit m) (UpperLimit m)
    (RampSteps m) (RampDownStep m) (Velocity m) (VelocityIncrement m)
    (NextPosition m) (NextStepMicros m) (Gpio m).

Definition set_TotalSteps (v : Z) (m : StepperMotor) : StepperMotor :=
  Build_StepperMotor (State m) (EnablePin m) (DirectionPin m) (StepPin m)
    (LLSwitchPin m) (ULSwitchPin m) (Homed m) (MaxVelocity m)
    (TargetOrSteps m) v (StepCount m) (StepIncrement m) (AbsolutePosition m)
    (DeltaPosition m) (TargetPosition m) (LowerLimit m) (UpperLimit m)
    (RampSteps m) (RampDownStep m) (Velocity m) (VelocityIncrement m)
    (NextPosition m) (NextStepMicros m) (Gpio m).

Definition set_StepCount (v : Z) (m : StepperMotor) : StepperMotor :=
  Build_StepperMotor (State m) (EnablePin m) (DirectionPin m) (StepPin m)
    (LLSwitchPin m) (ULSwitchPin m) (Homed m) (MaxVelocity m)
    (TargetOrSteps m) (TotalSteps m) v (StepIncrement m) (AbsolutePosition m)
    (DeltaPosition m) (TargetPosition m) (LowerLimit m) (UpperLimit m)
    (RampSteps m) (RampDownStep m) (Velocity m) (VelocityIncrement m)
    (NextPosition m) (NextStepMicros m) (Gpio m).

Definition set_StepIncrement (v : Z) (m : StepperMotor) : StepperMotor :=
  Build_StepperMotor (State m) (EnablePin m) (DirectionPin m) (StepPin m)
    (LLSwitchPin m) (ULSwitchPin m) (Homed m) (MaxVelocity m)
    (TargetOrSteps m) (TotalSteps m) (StepCount m) v (AbsolutePosition m)
    (DeltaPosition m) (TargetPosition m) (LowerLimit m) (UpperLimit m)
    (RampSteps m) (RampDownStep m) (Velocity m) (VelocityIncrement m)
    (NextPosition m) (NextStepMicros m) (Gpio m).

Definition set_AbsolutePosition (v : Z) (m : StepperMotor) : StepperMotor :=
  Build_StepperMotor (State m) (EnablePin m) (DirectionPin m) (StepPin m)
    (LLSwitchPin m) (ULSwitchPin m) (Homed m) (MaxVelocity m)
    (TargetOrSteps m) (TotalSteps m) (StepCount m) (StepIncrement m) v
    (DeltaPosition m) (TargetPosition m) (LowerLimit m) (UpperLimit m)
    (RampSteps m) (RampDownStep m) (Velocity m) (VelocityIncrement m)
    (NextPosition m) (NextStepMicros m) (Gpio m).

Definition set_DeltaPosition (v : Z) (m : StepperMotor) : StepperMotor :=
  Build_StepperMotor (State m) (EnablePin m) (DirectionPin m) (StepPin m)
    (LLSwitchPin m) (ULSwitchPin m) (Homed m) (MaxVelocity m)
    (TargetOrSteps m) (TotalSteps m) (StepCount m) (StepIncrement m)
    (AbsolutePosition m) v (TargetPosition m) (LowerLimit m) (UpperLimit m)
    (RampSteps m) (RampDownStep m) (Velocity m) (VelocityIncrement m)
    (NextPosition m) (NextStepMicros m) (Gpio m).

Definition set_TargetPosition (v : Z) (m : StepperMotor) : StepperMotor :=
  Build_StepperMotor (State m) (EnablePin m) (DirectionPin m) (StepPin m)
    (LLSwitchPin m) (ULSwitchPin m) (Homed m) (MaxVelocity m)
    (TargetOrSteps m) (TotalSteps m) (StepCount m) (StepIncrement m)
    (AbsolutePosition m) (DeltaPosition m) v (LowerLimit m) (UpperLimit m)
    (RampSteps m) (RampDownStep m) (Velocity m) (VelocityIncrement m)
    (NextPosition m) (NextStepMicros m) (Gpio m).

Definition set_LowerLimit (v : Z) (m : StepperMotor) : StepperMotor :=
  Build_StepperMotor (State m) (EnablePin m) (DirectionPin m) (StepPin m)
    (LLSwitchPin m) (ULSwitchPin m) (Homed m) (MaxVelocity m)
    (TargetOrSteps m) (TotalSteps m) (StepCount m) (StepIncrement m)
    (AbsolutePosition m) (DeltaPosition m) (TargetPosition m) v (UpperLimit m)
    (RampSteps m) (RampDownStep m) (Velocity m) (VelocityIncrement m)
    (NextPosition m) (NextStepMicros m) (Gpio m).

Definition set_UpperLimit (v : Z) (m : StepperMotor) : StepperMotor :=
  Build_StepperMotor (State m) (EnablePin m) (DirectionPin m) (StepPin m)
    (LLSwitchPin m) (ULSwitchPin m) (Homed m) (MaxVelocity m)
    (TargetOrSteps m) (TotalSteps m) (StepCount m) (StepIncrement m)
    (AbsolutePosition m) (DeltaPosition m) (TargetPosition m) (LowerLimit m) v
    (RampSteps m) (RampDownStep m) (Velocity m) (VelocityIncrement m)
    (NextPosition m) (NextStepMicros m) (Gpio m).

Definition set_RampSteps (v : Z) (m : StepperMotor) : StepperMotor :=
  Build_StepperMotor (State m) (EnablePin m) (DirectionPin m) (StepPin m)
    (LLSwitchPin m) (ULSwitchPin m) (Homed m) (MaxVelocity m)
    (TargetOrSteps m) (TotalSteps m) (StepCount m) (StepIncrement m)
    (AbsolutePosition m) (DeltaPosition m) (TargetPosition m) (LowerLimit m)
    (UpperLimit m) v (RampDownStep m) (Velocity m) (VelocityIncrement m)
    (NextPosition m) (NextStepMicros m) (Gpio m).

Definition set_RampDownStep (v : Z) (m : StepperMotor) : StepperMotor :=
  Build_StepperMotor (State m) (EnablePin m) (DirectionPin m) (StepPin m)
    (LLSwitchPin m) (ULSwitchPin m) (Homed m) (MaxVelocity m)
    (TargetOrSteps m) (TotalSteps m) (StepCount m) (StepIncrement m)
    (AbsolutePosition m) (DeltaPosition m) (TargetPosition m) (LowerLimit m)
    (UpperLimit m) (RampSteps m) v (Velocity m) (VelocityIncrement m)
    (NextPosition m) (NextStepMicros m) (Gpio m).

Definition set_Velocity (v : Z) (m : StepperMotor) : StepperMotor :=
  Build_StepperMotor (State m) (EnablePin m) (DirectionPin m) (StepPin m)
    (LLSwitchPin m) (ULSwitchPin m) (Homed m) (MaxVelocity m)
    (TargetOrSteps m) (TotalSteps m) (StepCount m) (StepIncrement m)
    (AbsolutePosition m) (DeltaPosition m) (TargetPosition m) (LowerLimit m)
    (UpperLimit m) (RampSteps m) (RampDownStep m) v (VelocityIncrement m)
    (NextPosition m) (NextStepMicros m) (Gpio m).

Definition set_VelocityIncrement (v : Z) (m : StepperMotor) : StepperMotor :=
  Build_StepperMotor (State m) (EnablePin m) (DirectionPin m) (StepPin m)
    (LLSwitchPin m) (ULSwitchPin m) (Homed m) (MaxVelocity m)
    (TargetOrSteps m) (TotalSteps m) (StepCount m) (StepIncrement m)
    (AbsolutePosition m) (DeltaPosition m) (TargetPosition m) (LowerLimit m)
    (UpperLimit m) (RampSteps m) (RampDownStep m) (Velocity m) v
    (NextPosition m) (NextStepMicros m) (Gpio m).

Definition set_NextPosition (v : Z) (m : StepperMotor) : StepperMotor :=
  Build_StepperMotor (State m) (EnablePin m) (DirectionPin m) (StepPin m)
    (LLSwitchPin m) (ULSwitchPin m) (Homed m) (MaxVelocity m)
    (TargetOrSteps m) (TotalSteps m) (StepCount m) (StepIncrement m)
    (AbsolutePosition m) (DeltaPosition m) (TargetPosition m) (LowerLimit m)
    (UpperLimit m) (RampSteps m) (RampDownStep m) (Velocity m)
    (VelocityIncrement m) v (NextStepMicros m) (Gpio m).

Definition set_NextStepMicros (v : Z) (m : StepperMotor) : StepperMotor :=
  Build_StepperMotor (State m) (EnablePin m) (DirectionPin m) (StepPin m)
    (LLSwitchPin m) (ULSwitchPin m) (Homed m) (MaxVelocity m)
    (TargetOrSteps m) (TotalSteps m) (StepCount m) (StepIncrement m)
    (AbsolutePosition m) (DeltaPosition m) (TargetPosition m) (LowerLimit m)
    (UpperLimit m) (RampSteps m) (RampDownStep m) (Velocity m)
    (VelocityIncrement m) (NextPosition m) v (Gpio m).

Definition set_Gpio (v : list PinEvent) (m : StepperMotor) : StepperMotor :=
  Build_StepperMotor (State m) (EnablePin m) (DirectionPin m) (StepPin m)
    (LLSwitchPin m) (ULSwitchPin m) (Homed m) (MaxVelocity m)
    (TargetOrSteps m) (TotalSteps m) (StepCount m) (StepIncrement m)
    (AbsolutePosition m) (DeltaPosition m) (TargetPosition m) (LowerLimit m)
    (UpperLimit m) (RampSteps m) (RampDownStep m) (Velocity m)
    (VelocityIncrement m) (NextPosition m) (NextStepMicros m) v.

Definition emit (ev : PinEvent) (m : StepperMotor) : StepperMotor :=
  set_Gpio (ev :: Gpio m) m.

(** ** Methods *)

(** [StepperMotor::StepperMotor] *)
Definition Constructor
  (enablePin directionPin stepPin llSwitchPin ulSwitchPin : Z) : StepperMotor :=
  let io0 :=
    [pinMode stepPin OUTPUT; pinMode directionPin OUTPUT;
     pinMode enablePin OUTPUT] in
  let io1 :=
    if llSwitchPin >=? 0 then pinMode llSwitchPin INPUT_PULLUP :: io0
    else io0 in
  let io2 :=
    if ulSwitchPin >=? 0 then pinMode ulSwitchPin INPUT_PULLUP :: io1
    else io1 in
  let io3 :=
    digitalWrite stepPin LOW :: digitalWrite directionPin LOW
      :: digitalWrite enablePin HIGH :: io2 in
  {| State := MS_DISABLED;
     EnablePin := enablePin;
     DirectionPin := directionPin;
     StepPin := stepPin;
     LLSwitchPin := llSwitchPin;
     ULSwitchPin := ulSwitchPin;
     Homed := false;
     MaxVelocity := 0;
     TargetOrSteps := 0;
     TotalSteps := 0;
     StepCount := 0;
     StepIncrement := 1;
     AbsolutePosition := 0;
     DeltaPosition := 0;
     TargetPosition := 0;
     LowerLimit := -2000000000;
     UpperLimit := 2000000000;
     RampSteps := 0;
     RampDownStep := 0;
     Velocity := 0;
     VelocityIncrement := Long.mul RampScale 5;
     NextPosition := 0;
     NextStepMicros := Long.uwrap (-1);
     Gpio := io3 |}.

(** [StepperMotor::doStep] *)
Definition doStep (m : StepperMotor) : StepperMotor :=
  let m := emit (digitalWrite (StepPin m) HIGH) m in
  let m := emit (delayMicroseconds PULSE_WIDTH) m in
  emit (digitalWrite (StepPin m) LOW) m.

(** [StepperMotor::Run] *)
Definition Run (b : Board) (m : StepperMotor) : RunReturn * StepperMotor :=
  if Homed m && MotorState_eqb (State m) MS_RUNNING
     && (micros b >=? NextStepMicros m)
  then
    if AbsolutePosition m =? TargetPosition m then
      (RUN_COMPLETE, set_State MS_ENABLED m)
    else
      let m :=
        set_NextPosition (Long.add (AbsolutePosition m) (StepIncrement m)) m in
      if NextPosition m <? LowerLimit m then
        (RANGE_ERROR_LOWER, set_State MS_ENABLED m)
      else if NextPosition m >? UpperLimit m then
        (RANGE_ERROR_UPPER, set_State MS_ENABLED m)
      else
        let m := doStep m in
        let m := set_AbsolutePosition (NextPosition m) m in
        let m :=
          set_DeltaPosition (Long.add (DeltaPosition m) (StepIncrement m)) m in
        if (LLSwitchPin m >=? 0)
           && Level_eqb (digitalRead b (LLSwitchPin m)) LOW
        then (LIMIT_SWITCH_LOWER, set_State MS_ENABLED m)
        else if (ULSwitchPin m >=? 0)
                && Level_eqb (digitalRead b (ULSwitchPin m)) LOW
        then (LIMIT_SWITCH_UPPER, set_State MS_ENABLED m)
        else
          let m := set_StepCount (Long.abs (DeltaPosition m)) m in
          let m :=
            if StepCount m <=? RampSteps m then
              set_Velocity (Long.add (Velocity m) (VelocityIncrement m)) m
            else if StepCount m >? RampDownStep m then
              set_Velocity (Long.sub (Velocity m) (VelocityIncrement m)) m
            else m in
          let m :=
            if Velocity m >? 0 then
              set_NextStepMicros
                (Long.uadd (NextStepMicros m)
                   (Long.div 1000000 (Velocity m))) m
            else m in
          (OKAY, m)
  else (OKAY, m).

(** [StepperMotor::startRotation]; [now] is the value [micros()] returns. *)
Definition startRotation (now : Z) (m : StepperMotor) : StepperMotor :=
  let m :=
    if VelocityIncrement m =? 0 then
      let m := set_RampSteps 0 m in
      set_Velocity (MaxVelocity m) m
    else
      let m :=
        set_RampSteps (Long.div (MaxVelocity m) (VelocityIncrement m)) m in
      if RampSteps m =? 0 then set_Velocity (MaxVelocity m) m
      else set_Velocity 0 m in
  let m :=
    if TotalSteps m >? Long.mul 2 (RampSteps m) then
      set_RampDownStep (Long.sub (TotalSteps m) (RampSteps m)) m
    else
      let m := set_RampSteps (Long.div (TotalSteps m) 2) m in
      set_RampDownStep (RampSteps m) m in
  let m :=
    if TargetPosition m >=? AbsolutePosition m then
      let m := set_StepIncrement 1 m in
      emit (digitalWrite (DirectionPin m) LOW) m
    else if TargetPosition m <? AbsolutePosition m then
      let m := set_StepIncrement (-1) m in
      emit (digitalWrite (DirectionPin m) HIGH) m
    else m in
  let m := set_DeltaPosition 0 m in
  let m := set_NextStepMicros (Long.uadd now 10) m in
  set_State MS_RUNNING m.

(** [StepperMotor::SetHomePosition] *)
Definition SetHomePosition (m : StepperMotor) : StepperMotor :=
  if MotorState_eqb (State m) MS_ENABLED then
    let m := set_AbsolutePosition 0 m in
    let m := set_DeltaPosition 0 m in
    set_Homed true m
  else m.

(** [StepperMotor::Enable] *)
Definition Enable (m : StepperMotor) : StepperMotor :=
  let m := emit (digitalWrite (EnablePin m) LOW) m in
  let m := set_State MS_ENABLED m in
  SetHomePosition m.

(** [StepperMotor::Disable] *)
Definition Disable (m : StepperMotor) : StepperMotor :=
  let m := emit (digitalWrite (EnablePin m) HIGH) m in
  let m := set_State MS_DISABLED m in
  set_Homed false m.

(** The body of both [while] loops of [FindHome], run [k] times. *)
Fixpoint stepAndWait (k : nat) (ms : Z) (m : StepperMotor) : StepperMotor :=
  match k with
  | O => m
  | S k' => stepAndWait k' ms (emit (delay ms) (doStep m))
  end.

(** The [for] loop of [FindHome]. *)
Fixpoint stepTimes (k : nat) (m : StepperMotor) : StepperMotor :=
  match k with
  | O => m
  | S k' => stepTimes k' (doStep m)
  end.

(** [StepperMotor::FindHome].  The two [while] loops poll the lower limit
    switch and end only when it changes; [seek] is the number of times the
    switch reads HIGH before it first reads LOW, [backoff] the number of
    times it then reads LOW before it reads HIGH again.  A switch that never
    changes keeps the method from returning and has no value here. *)
Definition FindHome (seek backoff : nat) (m : StepperMotor) : StepperMotor :=
  if LLSwitchPin m >=? 0 then
    let m := Enable m in
    let m := emit (digitalWrite (DirectionPin m) HIGH) m in
    let m := stepAndWait seek 5 m in
    let m := emit (digitalWrite (DirectionPin m) LOW) m in
    let m := stepAndWait backoff 50 m in
    let m := stepTimes 10 m in
    SetHomePosition m
  else m.

(** [StepperMotor::SetLowerLimit] *)
Definition SetLowerLimit (lowerLimit : Z) (m : StepperMotor) : StepperMotor :=
  if (lowerLimit <=? 0) && (lowerLimit <=? UpperLimit m) then
    set_LowerLimit lowerLimit m
  else m.

(** [StepperMotor::SetUpperLimit] *)
Definition SetUpperLimit (upperLimit : Z) (m : StepperMotor) : StepperMotor :=
  if (upperLimit >=? 0) && (upperLimit >=? LowerLimit m) then
    set_UpperLimit upperLimit m
  else m.

(** [StepperMotor::SetRamp] *)
Definition SetRamp (ramp : Z) (m : StepperMotor) : StepperMotor :=
  if (ramp >=? 0) && (ramp <=? 9) then
    if ramp =? 0 then set_VelocityIncrement 0 m
    else set_VelocityIncrement (Long.mul RampScale (Long.sub 10 ramp)) m
  else m.

(** [StepperMotor::RotateAbsolute] *)
Definition RotateAbsolute (newPosition stepsPerSecond now : Z)
  (m : StepperMotor) : StepperMotor :=
  let m := set_TargetPosition newPosition m in
  let m := set_MaxVelocity stepsPerSecond m in
  let m :=
    set_TotalSteps
      (Long.abs (Long.sub (TargetPosition m) (AbsolutePosition m))) m in
  startRotation now m.

(** [StepperMotor::RotateRelative] *)
Definition RotateRelative (numSteps stepsPerSecond now : Z)
  (m : StepperMotor) : StepperMotor :=
  if negb (numSteps =? 0) then
    let m := set_TargetPosition (Long.add (AbsolutePosition m) numSteps) m in
    let m := set_MaxVelocity stepsPerSecond m in
    let m := set_TotalSteps (Long.abs numSteps) m in
    startRotation now m
  else m.

(** [StepperMotor::RotateToHome] *)
Definition RotateToHome (now : Z) (m : StepperMotor) : StepperMotor :=
  let m := set_MaxVelocity HOMING_SPEED m in
  let m := set_TargetPosition 0 m in
  let m := set_TotalSteps (Long.abs (AbsolutePosition m)) m in
  startRotation now m.

(** [StepperMotor::RotateToLowerLimit] *)
Definition RotateToLowerLimit (now : Z) (m : StepperMotor) : StepperMotor :=
  let m := set_MaxVelocity HOMING_SPEED m in
  let m := set_TargetPosition (LowerLimit m) m in
  let m :=
    set_TotalSteps
      (Long.abs (Long.sub (AbsolutePosition m) (LowerLimit m))) m in
  startRotation now m.

(** [StepperMotor::RotateToUpperLimit] *)
Definition RotateToUpperLimit (now : Z) (m : StepperMotor) : StepperMotor :=
  let m := set_MaxVelocity HOMING_SPEED m in
  let m := set_TargetPosition (UpperLimit m) m in
  let m :=
    set_TotalSteps
      (Long.abs (Long.sub (AbsolutePosition m) (UpperLimit m))) m in
  startRotation now m.

(** [StepperMotor::EStop] *)
Definition EStop (m : StepperMotor) : StepperMotor :=
  let m := emit (digitalWrite (StepPin m) LOW) m in
  let m := emit (digitalWrite (EnablePin m) HIGH) m in
  let m := set_State MS_ESTOPPED m in
  let m := set_Homed false m in
  set_TargetPosition (AbsolutePosition m) m.

(** The body of the loop of [BlinkLED], run [k] times. *)
Fixpoint blink (k : nat) (LEDpin : Z) (m : StepperMotor) : StepperMotor :=
  match k with
  | O => m
  | S k' =>
      let m := emit (digitalWrite LEDpin HIGH) m in
      let m := emit (delay 20) m in
      let m := emit (digitalWrite LEDpin LOW) m in
      let m := emit (delay 80) m in
      blink k' LEDpin m
  end.

(** [StepperMotor::BlinkLED] *)
Definition BlinkLED (LEDpin : Z) (m : StepperMotor) : StepperMotor :=
  blink 10 LEDpin (emit (pinMode LEDpin OUTPUT) m).

(** The getters. *)
Definition IsHomed (m : StepperMotor) : bool := Homed m.
Definition GetState (m : StepperMotor) : MotorState := State m.
Definition GetAbsolutePosition (m : StepperMotor) : Z := AbsolutePosition m.
Definition GetRelativePosition (m : StepperMotor) : Z := DeltaPosition m.
Definition GetLowerLimit (m : StepperMotor) : Z := LowerLimit m.
Definition GetUpperLimit (m : StepperMotor) : Z := UpperLimit m.

(** ** Callers

    A caller owns one motor and invokes its public methods one after the
    other, as [loop] of [main.cpp] does.  [Call] names one invocation with
    its arguments and with whatever the board answers during it.
    [ExecuteCommand] parses a command string into one of these calls;
    it, [GetRemainingTime] and [GetVersion] write none of the fields above
    and have no constructor here. *)

Inductive Call : Type :=
| CallRun (b : Board)
| CallEnable
| CallDisable
| CallFindHome (seek backoff : nat)
| CallSetHomePosition
| CallSetLowerLimit (lowerLimit : Z)
| CallSetUpperLimit (upperLimit : Z)
| CallSetRamp (ramp : Z)
| CallRotateAbsolute (newPosition stepsPerSecond now : Z)
| CallRotateRelative (numSteps stepsPerSecond now : Z)
| CallRotateToHome (now : Z)
| CallRotateToLowerLimit (now : Z)
| CallRotateToUpperLimit (now : Z)
| CallEStop
| CallBlinkLED (LEDpin : Z).

Definition perform (c : Call) (m : StepperMotor) : StepperMotor :=
  match c with
  | CallRun b => snd (Run b m)
  | CallEnable => Enable m
  | CallDisable => Disable m
  | CallFindHome seek backoff => FindHome seek backoff m
  | CallSetHomePosition => SetHomePosition m
  | CallSetLowerLimit v => SetLowerLimit v m
  | CallSetUpperLimit v => SetUpperLimit v m
  | CallSetRamp r => SetRamp r m
  | CallRotateAbsolute p v now => RotateAbsolute p v now m
  | CallRotateRelative n v now => RotateRelative n v now m
  | CallRotateToHome now => RotateToHome now m
  | CallRotateToLowerLimit now => RotateToLowerLimit now m
  | CallRotateToUpperLimit now => RotateToUpperLimit now m
  | CallEStop => EStop m
  | CallBlinkLED pin => BlinkLED pin m
  end.

(** The motor after a sequence of calls, oldest first. *)
Definition history (cs : list Call) (m : StepperMotor) : StepperMotor :=
  fold_left (fun acc c => perform c acc) cs m.

(** The rotate methods. *)
Definition is_rotate (c : Call) : bool :=
  match c with
  | CallRotateAbsolute _ _ _ | CallRotateRelative _ _ _
  | CallRotateToHome _ | CallRotateToLowerLimit _
  | CallRotateToUpperLimit _ => true
  | _ => false
  end.

(** The calls that run [Enable]: the method itself, and [FindHome] when a
    lower limit switch is configured. *)
Definition runs_Enable (m : StepperMotor) (c : Call) : bool :=
  match c with
  | CallEnable => true
  | CallFindHome _ _ => LLSwitchPin m >=? 0
  | _ => false
  end.

(** [Run] called once per board reading; results oldest first. *)
Fixpoint poll (bs : list Board) (m : StepperMotor)
  : list RunReturn * StepperMotor :=
  match bs with
  | [] => ([], m)
  | b :: bs' =>
      let (r, m1) := Run b m in
      let (rs, m2) := poll bs' m1 in
      (r :: rs, m2)
  end.

(** A board reading at which [Run] finds the step time reached and no limit
    switch asserted. *)
Definition clear (b : Board) (m : StepperMotor) : Prop :=
  NextStepMicros m <= micros b
  /\ (LLSwitchPin m < 0 \/ digitalRead b (LLSwitchPin m) = HIGH)
  /\ (ULSwitchPin m < 0 \/ digitalRead b (ULSwitchPin m) = HIGH).

(** Every reading of [bs] is [clear] for the motor it meets. *)
Fixpoint all_clear (bs : list Board) (m : StepperMotor) : Prop :=
  match bs with
  | [] => True
  | b :: bs' => clear b m /\ all_clear bs' (snd (Run b m))
  end.

(** What [SetHomePosition] may change is the position pair and [Homed];
    [same_but_home m m'] says that nothing else differs. *)
Definition same_but_home (m m' : StepperMotor) : Prop :=
  State m' = State m
  /\ EnablePin m' = EnablePin m
  /\ DirectionPin m' = DirectionPin m
  /\ StepPin m' = StepPin m
  /\ LLSwitchPin m' = LLSwitchPin m
  /\ ULSwitchPin m' = ULSwitchPin m
  /\ MaxVelocity m' = MaxVelocity m
  /\ TargetOrSteps m' = TargetOrSteps m
  /\ TotalSteps m' = TotalSteps m
  /\ StepCount m' = StepCount m
  /\ StepIncrement m' = StepIncrement m
  /\ TargetPosition m' = TargetPosition m
  /\ LowerLimit m' = LowerLimit m
  /\ UpperLimit m' = UpperLimit m
  /\ RampSteps m' = RampSteps m
  /\ RampDownStep m' = RampDownStep m
  /\ Velocity m' = Velocity m
  /\ VelocityIncrement m' = VelocityIncrement m
  /\ NextPosition m' = NextPosition m
  /\ NextStepMicros m' = NextStepMicros m
  /\ Gpio m' = Gpio m.

(** What the limit setters may change is the two limits;
    [same_but_limits m m'] says that nothing else differs. *)
Definition same_but_limits (m m' : StepperMotor) : Prop :=
  State m' = State m
  /\ EnablePin m' = EnablePin m
  /\ DirectionPin m' = DirectionPin m
  /\ StepPin m' = StepPin m
  /\ LLSwitchPin m' = LLSwitchPin m
  /\ ULSwitchPin m' = ULSwitchPin m
  /\ Homed m' = Homed m
  /\ MaxVelocity m' = MaxVelocity m
  /\ TargetOrSteps m' = TargetOrSteps m
  /\ TotalSteps m' = TotalSteps m
  /\ StepCount m' = StepCount m
  /\ StepIncrement m' = StepIncrement m
  /\ AbsolutePosition m' = AbsolutePosition m
  /\ DeltaPosition m' = DeltaPosition m
  /\ TargetPosition m' = TargetPosition m
  /\ RampSteps m' = RampSteps m
  /\ RampDownStep m' = RampDownStep m
  /\ Velocity m' = Velocity m
  /\ VelocityIncrement m' = VelocityIncrement m
  /\ NextPosition m' = NextPosition m
  /\ NextStepMicros m' = NextStepMicros m
  /\ Gpio m' = Gpio m.

(** The motor of [main.cpp]: pins 2, 3, 4 and no limit switches. *)
Definition MyStepper : StepperMotor := Constructor 2 3 4 (-1) (-1).

(** A board whose clock reads [t] and whose inputs all read HIGH. *)
Definition board_at (t : Z) : Board :=
  {| micros := t; digitalRead := fun _ => HIGH |}.

(** What one call of [doStep] adds to the log of motor [m]. *)
Definition pulse (m : StepperMotor) : list PinEvent :=
  [digitalWrite (StepPin m) LOW; delayMicroseconds PULSE_WIDTH;
   digitalWrite (StepPin m) HIGH].

(** The configuration no rotate method touches. *)
Definition same_setup (m m' : StepperMotor) : Prop :=
  Homed m' = Homed m
  /\ AbsolutePosition m' = AbsolutePosition m
  /\ LowerLimit m' = LowerLimit m
  /\ UpperLimit m' = UpperLimit m
  /\ VelocityIncrement m' = VelocityIncrement m
  /\ EnablePin m' = EnablePin m
  /\ DirectionPin m' = DirectionPin m
  /\ StepPin m' = StepPin m
  /\ LLSwitchPin m' = LLSwitchPin m
  /\ ULSwitchPin m' = ULSwitchPin m.

(** A rotate call that starts a rotation: all of them, except
    [RotateRelative] by zero steps. *)
Definition starts_rotation (c : Call) : bool :=
  match c with
  | CallRotateRelative n _ _ => negb (n =? 0)
  | _ => is_rotate c
  end.

(** The plan a rotate call records, as the amended C3 lists it: the target,
    the peak velocity, the number of steps, and the time of the call. *)
Definition commanded_target (c : Call) (m : StepperMotor) : Z :=
  match c with
  | CallRotateAbsolute newPosition _ _ => newPosition
  | CallRotateRelative numSteps _ _ =>
      Long.add (AbsolutePosition m) numSteps
  | CallRotateToHome _ => 0
  | CallRotateToLowerLimit _ => LowerLimit m
  | CallRotateToUpperLimit _ => UpperLimit m
  | _ => TargetPosition m
  end.

Definition commanded_velocity (c : Call) (m : StepperMotor) : Z :=
  match c with
  | CallRotateAbsolute _ stepsPerSecond _
  | CallRotateRelative _ stepsPerSecond _ => stepsPerSecond
  | CallRotateToHome _ | CallRotateToLowerLimit _
  | CallRotateToUpperLimit _ => HOMING_SPEED
  | _ => MaxVelocity m
  end.

Definition commanded_steps (c : Call) (m : StepperMotor) : Z :=
  match c with
  | CallRotateAbsolute newPosition _ _ =>
      Long.abs (Long.sub newPosition (AbsolutePosition m))
  | CallRotateRelative numSteps _ _ => Long.abs numSteps
  | CallRotateToHome _ => Long.abs (AbsolutePosition m)
  | CallRotateToLowerLimit _ =>
      Long.abs (Long.sub (AbsolutePosition m) (LowerLimit m))
  | CallRotateToUpperLimit _ =>
      Long.abs (Long.sub (AbsolutePosition m) (UpperLimit m))
  | _ => TotalSteps m
  end.

Definition call_time (c : Call) : Z :=
  match c with
  | CallRotateAbsolute _ _ now | CallRotateRelative _ _ now
  | CallRotateToHome now | CallRotateToLowerLimit now
  | CallRotateToUpperLimit now => now
  | _ => 0
  end.

(** The ramp of a rotation of [total] steps with peak [velocity] and
    increment [vi]: the length of the ramp, the step at which the ramp down
    starts, and the velocity at the start. *)
Definition planned_ramp (velocity vi total : Z) : Z * Z * Z :=
  let ramp := if vi =? 0 then 0 else Long.div velocity vi in
  let start := if (vi =? 0) || (ramp =? 0) then velocity else 0 in
  if total >? Long.mul 2 ramp then (ramp, Long.sub total ramp, start)
  else (Long.div total 2, Long.div total 2, start).

(** The level of the direction pin for a rotation from [position] to
    [target], and the step that goes with it. *)
Definition heading (target position : Z) : Level * Z :=
  if target >=? position then (LOW, 1) else (HIGH, -1).

(** [recorded c m m']: [m'] holds the plan of the rotate call [c] made in
    [m], is [MS_RUNNING] with [DeltaPosition] zero, has the direction pin
    written, and keeps the three scratch fields. *)
Definition recorded (c : Call) (m m' : StepperMotor) : Prop :=
  State m' = MS_RUNNING
  /\ DeltaPosition m' = 0
  /\ TargetPosition m' = commanded_target c m
  /\ MaxVelocity m' = commanded_velocity c m
  /\ TotalSteps m' = commanded_steps c m
  /\ (RampSteps m', RampDownStep m', Velocity m')
     = planned_ramp (commanded_velocity c m) (VelocityIncrement m)
         (commanded_steps c m)
  /\ StepIncrement m'
     = snd (heading (commanded_target c m) (AbsolutePosition m))
  /\ NextStepMicros m' = Long.uadd (call_time c) 10
  /\ Gpio m'
     = digitalWrite (DirectionPin m)
         (fst (heading (commanded_target c m) (AbsolutePosition m)))
       :: Gpio m
  /\ TargetOrSteps m' = TargetOrSteps m
  /\ StepCount m' = StepCount m
  /\ NextPosition m' = NextPosition m.

(** ** [Run] seen as a relation

    The body of [Run] has seven ways out.  [RunOutcome b m r m'] lists them
    with the conditions under which each is taken; [Run_outcome] below shows
    that this is what the function computes. *)

(** The guard of [Run]. *)
Definition due (b : Board) (m : StepperMotor) : Prop :=
  Homed m = true /\ State m = MS_RUNNING /\ NextStepMicros m <= micros b.

(** A limit switch is configured on [pin] and reads LOW. *)
Definition asserted (b : Board) (pin : Z) : Prop :=
  0 <= pin /\ digitalRead b pin = LOW.

(** The next position [Run] computes. *)
Definition ahead (m : StepperMotor) : Z :=
  Long.add (AbsolutePosition m) (StepIncrement m).

(** The three parts of the branch of [Run] that steps: the pulse with the two
    position updates, the ramp update, and the scheduling of the next
    step. *)
Definition advance (m : StepperMotor) : StepperMotor :=
  let m := set_NextPosition (ahead m) m in
  let m := doStep m in
  let m := set_AbsolutePosition (NextPosition m) m in
  set_DeltaPosition (Long.add (DeltaPosition m) (StepIncrement m)) m.

Definition adjustVelocity (m : StepperMotor) : StepperMotor :=
  let m := set_StepCount (Long.abs (DeltaPosition m)) m in
  if StepCount m <=? RampSteps m then
    set_Velocity (Long.add (Velocity m) (VelocityIncrement m)) m
  else if StepCount m >? RampDownStep m then
    set_Velocity (Long.sub (Velocity m) (VelocityIncrement m)) m
  else m.

Definition scheduleNext (m : StepperMotor) : StepperMotor :=
  if Velocity m >? 0 then
    set_NextStepMicros
      (Long.uadd (NextStepMicros m) (Long.div 1000000 (Velocity m))) m
  else m.

Inductive RunOutcome (b : Board) (m : StepperMotor)
  : RunReturn -> StepperMotor -> Prop :=
| RunIdle :
    ~ due b m ->
    RunOutcome b m OKAY m
| RunComplete :
    due b m ->
    AbsolutePosition m = TargetPosition m ->
    RunOutcome b m RUN_COMPLETE (set_State MS_ENABLED m)
| RunRangeLower :
    due b m ->
    AbsolutePosition m <> TargetPosition m ->
    ahead m < LowerLimit m ->
    RunOutcome b m RANGE_ERROR_LOWER
      (set_State MS_ENABLED (set_NextPosition (ahead m) m))
| RunRangeUpper :
    due b m ->
    AbsolutePosition m <> TargetPosition m ->
    LowerLimit m <= ahead m ->
    UpperLimit m < ahead m ->
    RunOutcome b m RANGE_ERROR_UPPER
      (set_State MS_ENABLED (set_NextPosition (ahead m) m))
| RunSwitchLower :
    due b m ->
    AbsolutePosition m <> TargetPosition m ->
    LowerLimit m <= ahead m <= UpperLimit m ->
    asserted b (LLSwitchPin m) ->
    RunOutcome b m LIMIT_SWITCH_LOWER (set_State MS_ENABLED (advance m))
| RunSwitchUpper :
    due b m ->
    AbsolutePosition m <> TargetPosition m ->
    LowerLimit m <= ahead m <= UpperLimit m ->
    ~ asserted b (LLSwitchPin m) ->
    asserted b (ULSwitchPin m) ->
    RunOutcome b m LIMIT_SWITCH_UPPER (set_State MS_ENABLED (advance m))
| RunStep :
    due b m ->
    AbsolutePosition m <> TargetPosition m ->
    LowerLimit m <= ahead m <= UpperLimit m ->
    ~ asserted b (LLSwitchPin m) ->
    ~ asserted b (ULSwitchPin m) ->
    RunOutcome b m OKAY (scheduleNext (adjustVelocity (advance m))).

(** ** A relative rotation from HOME

    [under_way n k m]: the motor is [k] steps into a rotation by [n] steps
    that started at HOME, and zero and [n] lie within the limits. *)
Definition under_way (n k : Z) (m : StepperMotor) : Prop :=
  Homed m = true
  /\ State m = MS_RUNNING
  /\ TargetPosition m = n
  /\ StepIncrement m = Z.sgn n
  /\ AbsolutePosition m = k * Z.sgn n
  /\ DeltaPosition m = k * Z.sgn n
  /\ LowerLimit m <= 0 <= UpperLimit m
  /\ LowerLimit m <= n <= UpperLimit m.

(** Board readings that let [Run] step at once, [k] of them: the clock
    stands at [NextStepMicros] and every input reads HIGH. *)
Fixpoint prompt (k : nat) (m : StepperMotor) : list Board :=
  match k with
  | O => []
  | S k' =>
      let b := board_at (NextStepMicros m) in
      b :: prompt k' (snd (Run b m))
  end.

(** ** The trapezoid profile

    [trapezoid vi R T k] is the velocity after [k] steps of a rotation of
    [T] steps whose ramps are [R] steps long and [vi] steep: [R] steps up,
    a plateau, [R] steps down. *)
Definition trapezoid (vi R T k : Z) : Z :=
  if k <=? R then vi * k
  else if k <=? T - R then vi * R
  else vi * (T - k).

(** [ramping vi R T k m]: the motor is [k] steps into such a rotation. *)
Definition ramping (vi R T k : Z) (m : StepperMotor) : Prop :=
  VelocityIncrement m = vi
  /\ RampSteps m = R
  /\ RampDownStep m = T - R
  /\ (StepIncrement m = 1 \/ StepIncrement m = -1)
  /\ 0 <= k <= T
  /\ DeltaPosition m = k * StepIncrement m
  /\ TargetPosition m - AbsolutePosition m = (T - k) * StepIncrement m
  /\ Long.in_range (AbsolutePosition m)
  /\ Long.in_range (TargetPosition m)
  /\ Velocity m = trapezoid vi R T k.

(** The invariant of a trapezoid rotation: the velocity stays between zero
    and the plateau, and while the motor runs it is on the profile. *)
Definition on_profile (vi R T : Z) (m : StepperMotor) : Prop :=
  0 <= Velocity m <= vi * R
  /\ (State m = MS_RUNNING -> exists k, ramping vi R T k m).

(** A plan for 100 steps at 510 steps per second on the motor of
    [main.cpp], as [RotateAbsolute 100 510] leaves it before it calls
    [startRotation]. *)
Definition plan510 : StepperMotor :=
  set_TotalSteps 100
    (set_MaxVelocity 510 (set_TargetPosition 100 (Enable MyStepper))).

(** ** Further notions used below *)

(** The number of step pulses in a log: [doStep] is the only code that
    calls [delayMicroseconds], once per pulse. *)
Fixpoint pulses (io : list PinEvent) : nat :=
  match io with
  | [] => O
  | delayMicroseconds _ :: io' => S (pulses io')
  | _ :: io' => pulses io'
  end.

(** What [Run] never writes: the homing flag, the target, the direction,
    the limits, the plan of the rotation and the pins. *)
Definition same_plan (m m' : StepperMotor) : Prop :=
  Homed m' = Homed m
  /\ TargetPosition m' = TargetPosition m
  /\ StepIncrement m' = StepIncrement m
  /\ LowerLimit m' = LowerLimit m
  /\ UpperLimit m' = UpperLimit m
  /\ MaxVelocity m' = MaxVelocity m
  /\ TargetOrSteps m' = TargetOrSteps m
  /\ TotalSteps m' = TotalSteps m
  /\ RampSteps m' = RampSteps m
  /\ RampDownStep m' = RampDownStep m
  /\ VelocityIncrement m' = VelocityIncrement m
  /\ EnablePin m' = EnablePin m
  /\ DirectionPin m' = DirectionPin m
  /\ StepPin m' = StepPin m
  /\ LLSwitchPin m' = LLSwitchPin m
  /\ ULSwitchPin m' = ULSwitchPin m.

(** The increment [SetRamp] stores for a ramp factor. *)
Definition increment_of (ramp : Z) : Z :=
  if ramp =? 0 then 0 else RampScale * (10 - ramp).

(** What holds of a motor however it was used since its construction. *)
Definition consistent (m : StepperMotor) : Prop :=
  (StepIncrement m = 1 \/ StepIncrement m = -1)
  /\ (exists ramp, 0 <= ramp <= 9 /\ VelocityIncrement m = increment_of ramp)
  /\ (State m = MS_ENABLED -> Homed m = true)
  /\ (Homed m = true -> State m = MS_ENABLED \/ State m = MS_RUNNING).

(** The five pin numbers of a motor. *)
Definition pins_of (m : StepperMotor) : Z * Z * Z * Z * Z :=
  (EnablePin m, DirectionPin m, StepPin m, LLSwitchPin m, ULSwitchPin m).

(** What [FindHome] writes on a motor with a lower limit switch, newest
    first: the enable pin, the direction towards the switch, [seek] steps
    5 ms apart, the direction away from it, [backoff] steps 50 ms apart,
    and ten steps more. *)
Definition homing_log (seek backoff : nat) (m : StepperMotor)
  : list PinEvent :=
  concat (repeat (pulse m) 10)
  ++ concat (repeat (delay 50 :: pulse m) backoff)
  ++ digitalWrite (DirectionPin m) LOW
  :: concat (repeat (delay 5 :: pulse m) seek)
  ++ [digitalWrite (DirectionPin m) HIGH; digitalWrite (EnablePin m) LOW].

(** The time [Run] adds to [NextStepMicros] after a step taken at velocity
    [v], in microseconds: nothing when the velocity is not positive. *)
Definition step_period (v : Z) : Z :=
  if v >? 0 then 1000000 ÷ v else 0.

(** [StepperMotor::GetRemainingTime].  [numSteps] and [remTime] are
    [unsigned long]: the product, the quotient and the sum are unsigned,
    and [MaxVelocity] is converted to [unsigned long] for the division.
    Division by zero has no value. *)
Definition GetRemainingTime (m : StepperMotor) : option Z :=
  if negb (MotorState_eqb (State m) MS_RUNNING) then Some 0
  else
    let numSteps :=
      Long.uwrap
        (Long.abs (Long.sub (AbsolutePosition m) (TargetPosition m))) in
    if Long.uwrap (MaxVelocity m) =? 0 then None
    else
      Some (Long.uadd
              (Long.uwrap (1000 * numSteps) ÷ Long.uwrap (MaxVelocity m))
              500).

(** ** Command strings

    A [const char *] is modelled by the characters before its terminating
    NUL, as a [string]; [strlen] is [String.length] and [strcmp (a, b) == 0]
    is [String.eqb a b]. *)

(** The code of a character. *)
Definition code (c : ascii) : Z := Z.of_N (N_of_ascii c).

(** [isspace] and [isdigit] of the C locale. *)
Definition isspace (c : ascii) : bool :=
  (code c =? 32) || ((9 <=? code c) && (code c <=? 13)).

Definition isdigit (c : ascii) : bool :=
  (48 <=? code c) && (code c <=? 57).

(** [s + n], for [n] at most the length of [s]. *)
Fixpoint offset (n : nat) (s : string) : string :=
  match n, s with
  | O, _ => s
  | S n', String _ s' => offset n' s'
  | S _, EmptyString => EmptyString
  end.

(** The string [strncpy (dst, s, n); dst[n] = 0] leaves in [dst]. *)
Fixpoint strncpy (n : nat) (s : string) : string :=
  match n, s with
  | S n', String c s' => String c (strncpy n' s')
  | _, _ => EmptyString
  end.

(** The white space [strtol] skips. *)
Fixpoint skip_space (s : string) : string :=
  match s with
  | String c s' => if isspace c then skip_space s' else s
  | EmptyString => s
  end.

(** The value of the longest prefix of decimal digits, after [acc]. *)
Fixpoint digits_value (acc : Z) (s : string) : Z :=
  match s with
  | String c s' =>
      if isdigit c then digits_value (10 * acc + (code c - 48)) s' else acc
  | EmptyString => acc
  end.

(** The number [strtol (s, NULL, 10)] and [atoi (s)] read: white space, an
    optional sign, decimal digits; zero when there is no digit. *)
Definition subject_value (s : string) : Z :=
  match skip_space s with
  | String c s' =>
      if Ascii.eqb c "-" then - digits_value 0 s'
      else if Ascii.eqb c "+" then digits_value 0 s'
      else digits_value 0 (String c s')
  | EmptyString => 0
  end.

(** [strtol (s, NULL, 10)]: a value out of range gives [LONG_MIN] or
    [LONG_MAX]. *)
Definition strtol (s : string) : Z :=
  let v := subject_value s in
  if v <? Long.MIN then Long.MIN
  else if v >? Long.MAX then Long.MAX
  else v.

(** [atoi (s)], which has no defined value for a number that does not fit
    an [int]; an [int] has at least 16 bits, and a number that fits in 16
    bits is what [atoi] returns on every board. *)
Definition atoi (s : string) : option Z :=
  let v := subject_value s in
  if (-32768 <=? v) && (v <=? 32767) then Some v else None.

(** The decimal digits of [n >= 0], least significant first; [fuel] bounds
    their number. *)
Fixpoint rdigits (fuel : nat) (n : Z) : list Z :=
  match fuel with
  | O => []
  | S fuel' =>
      if n <? 10 then [n] else n mod 10 :: rdigits fuel' (n / 10)
  end.

Definition digit_char (d : Z) : ascii := ascii_of_N (Z.to_N (48 + d)).

(** [n >= 0] in decimal; a number has no more digits than bits. *)
Definition utoa (n : Z) : string :=
  fold_left (fun s d => String (digit_char d) s)
    (rdigits (S (Z.to_nat (Z.log2 n))) n) EmptyString.

(** The string [ltoa (v, buffer, 10)] writes. *)
Definition ltoa (v : Z) : string :=
  if v <? 0 then String "-" (utoa (- v)) else utoa v.

(** The velocity field of a rotate command: four decimal digits. *)
Definition velocity_field (v : Z) : string :=
  String (digit_char (v / 1000 mod 10))
    (String (digit_char (v / 100 mod 10))
       (String (digit_char (v / 10 mod 10))
          (String (digit_char (v mod 10)) EmptyString))).

Definition is_decimal (d : Z) : Prop := 0 <= d <= 9.

(** The value of a list of decimal digits, least significant first. *)
Fixpoint value_of (ds : list Z) : Z :=
  match ds with
  | [] => 0
  | d :: ds' => d + 10 * value_of ds'
  end.

(** The member [version]. *)
Definition version : string := "Stepper Motor 2025-07-01".

Definition GetVersion (m : StepperMotor) : string := version.

Definition EC_RETURN_LENGTH : nat := 30.

(** What the board answers while a command is executed: the clock when a
    rotation is started, and the lower limit switch during [FindHome]. *)
Record Answers : Type := {
  clock : Z;
  seek_reads : nat;
  backoff_reads : nat
}.

(** [StepperMotor::ExecuteCommand]: the string returned and the motor
    afterwards.  There is no value where the code has none: [GetRemainingTime]
    dividing by zero, [atoi] out of range. *)
Definition ExecuteCommand (a : Answers) (packet : string) (m : StepperMotor)
  : option (string * StepperMotor) :=
  if (String.length packet <? 2)%nat then Some ("Bad command"%string, m)
  else
    let command := strncpy 2 packet in
    if String.eqb command "ES" then Some (""%string, EStop m)
    else if String.eqb command "EN" then Some (""%string, Enable m)
    else if String.eqb command "DI" then Some (""%string, Disable m)
    else if String.eqb command "FH" then
      Some (""%string, FindHome (seek_reads a) (backoff_reads a) m)
    else if String.eqb command "SH" then Some (""%string, SetHomePosition m)
    else if String.eqb command "SL" || String.eqb command "SU" then
      if (String.length packet <? 3)%nat then Some ("Missing limit value"%string, m)
      else
        let limit := strtol (offset 2 packet) in
        if String.eqb command "SL" then Some (""%string, SetLowerLimit limit m)
        else Some (""%string, SetUpperLimit limit m)
    else if String.eqb command "SR" then
      if negb (String.length packet =? 3)%nat then
        Some ("Missing ramp value 0-9"%string, m)
      else
        match atoi (offset 2 packet) with
        | Some ramp =>
            if (ramp >=? 0) && (ramp <=? 9) then Some (""%string, SetRamp ramp m)
            else Some (""%string, m)
        | None => None
        end
    else if String.eqb command "RH" then Some (""%string, RotateToHome (clock a) m)
    else if String.eqb command "RL" then
      Some (""%string, RotateToLowerLimit (clock a) m)
    else if String.eqb command "RU" then
      Some (""%string, RotateToUpperLimit (clock a) m)
    else if String.eqb command "RA" || String.eqb command "RR" then
      if (String.length packet <? 7)%nat then Some ("Bad command"%string, m)
      else
        let velString := strncpy 4 (offset 2 packet) in
        let velocity := strtol velString in
        let targetOrNumSteps := strtol (offset 6 packet) in
        if String.eqb command "RA" then
          Some (""%string, RotateAbsolute targetOrNumSteps velocity (clock a) m)
        else
          Some (""%string, RotateRelative targetOrNumSteps velocity (clock a) m)
    else if String.eqb command "GA" then
      Some (ltoa (GetAbsolutePosition m), m)
    else if String.eqb command "GR" then
      Some (ltoa (GetRelativePosition m), m)
    else if String.eqb command "GL" then Some (ltoa (GetLowerLimit m), m)
    else if String.eqb command "GU" then Some (ltoa (GetUpperLimit m), m)
    else if String.eqb command "GT" then
      match GetRemainingTime m with
      | Some t => Some (ltoa (Long.wrap t), m)
      | None => None
      end
    else if String.eqb command "GV" then Some (GetVersion m, m)
    else if String.eqb command "BL" then
      match atoi (offset 2 packet) with
      | Some pin => Some (""%string, BlinkLED pin m)
      | None => None
      end
    else Some ("Unknown command"%string, m).

(** ** The sketch [main.cpp]

    The globals of the sketch with the serial port: [Rx] holds the
    characters received and not yet read, [Tx] the calls of [Serial.print]
    and [Serial.println], newest first.  [commandString] is the array of
    [MAX_COMMAND_LENGTH] characters; a store outside it has no value. *)

Definition MAX_COMMAND_LENGTH : Z := 20.

Inductive SerialOut : Type :=
| Serial_print (s : string)
| Serial_println (s : string).

Record Sketch : Type := {
  commandString : list ascii;
  commandLength : Z;
  Stepper : StepperMotor;
  Rx : string;
  Tx : list SerialOut
}.

(** [array[i] = c] *)
Definition store (i : Z) (c : ascii) (array : list ascii)
  : option (list ascii) :=
  if (0 <=? i) && (i <? Z.of_nat (length array)) then
    Some (firstn (Z.to_nat i) array ++ c :: skipn (S (Z.to_nat i)) array)
  else None.

(** The C string an array holds: the characters before the first NUL. *)
Fixpoint c_str (array : list ascii) : string :=
  match array with
  | [] => EmptyString
  | c :: array' =>
      if Ascii.eqb c zero then EmptyString else String c (c_str array')
  end.

(** The [while] loop of [commandReady], over the characters available. *)
Fixpoint commandReady_loop (rx : string) (buffer : list ascii) (len : Z)
  (tx : list SerialOut)
  : option (bool * (string * list ascii * Z * list SerialOut)) :=
  match rx with
  | EmptyString => Some (false, (EmptyString, buffer, len, tx))
  | String nextChar rx' =>
      if negb (Ascii.eqb nextChar "013") then
        if Ascii.eqb nextChar "010" then
          match store len zero buffer with
          | Some buffer' => Some (true, (rx', buffer', len, tx))
          | None => None
          end
        else if len <? MAX_COMMAND_LENGTH - 1 then
          match store len nextChar buffer with
          | Some buffer' => commandReady_loop rx' buffer' (len + 1) tx
          | None => None
          end
        else
          commandReady_loop rx' buffer 0
            (Serial_println "ERROR: Command is too long." :: tx)
      else commandReady_loop rx' buffer len tx
  end.

(** [commandReady] *)
Definition commandReady (sk : Sketch) : option (bool * Sketch) :=
  match
    commandReady_loop (Rx sk) (commandString sk) (commandLength sk) (Tx sk)
  with
  | Some (ready, (rx, buffer, len, tx)) =>
      Some (ready,
            {| commandString := buffer; commandLength := len;
               Stepper := Stepper sk; Rx := rx; Tx := tx |})
  | None => None
  end.

(** [setup]; the serial port is taken to be open. *)
Definition setup : Sketch :=
  let m := Enable (Constructor 2 3 4 (-1) (-1)) in
  {| commandString := repeat zero (Z.to_nat MAX_COMMAND_LENGTH);
     commandLength := 0;
     Stepper := m;
     Rx := EmptyString;
     Tx := [Serial_println " : ready"; Serial_print (GetVersion m)] |}.

(** The [switch] of [loop]. *)
Definition report (r : RunReturn) (m : StepperMotor) (tx : list SerialOut)
  : list SerialOut :=
  let position := Serial_println (ltoa (GetAbsolutePosition m)) in
  match r with
  | OKAY => tx
  | RUN_COMPLETE =>
      position :: Serial_print "Run complete, position = " :: tx
  | RANGE_ERROR_LOWER =>
      position :: Serial_print "Lower Range Error, position = " :: tx
  | RANGE_ERROR_UPPER =>
      position :: Serial_print "Upper Range Error, position = " :: tx
  | LIMIT_SWITCH_LOWER =>
      position
      :: Serial_print "Lower Limit Switch Triggered, position = " :: tx
  | LIMIT_SWITCH_UPPER =>
      position
      :: Serial_print "Upper Limit Switch Triggered, position = " :: tx
  end.

(** [loop].  [b] is what the board answers to [Run], [a] what it answers
    while a command is executed, [incoming] the characters that have
    arrived since the serial port was last read. *)
Definition loop (b : Board) (a : Answers) (incoming : string) (sk : Sketch)
  : option Sketch :=
  let (r, m) := Run b (Stepper sk) in
  let sk :=
    {| commandString := commandString sk;
       commandLength := commandLength sk;
       Stepper := m;
       Rx := Rx sk ++ incoming;
       Tx := report r m (Tx sk) |} in
  match commandReady sk with
  | None => None
  | Some (false, sk) => Some sk
  | Some (true, sk) =>
      match ExecuteCommand a (c_str (commandString sk)) (Stepper sk) with
      | None => None
      | Some (response, m') =>
          Some {| commandString := commandString sk;
                  commandLength := 0;
                  Stepper := m';
                  Rx := Rx sk;
                  Tx := if (0 <? String.length response)%nat
                        then Serial_println response :: Tx sk
                        else Tx sk |}
      end
  end.

(** One pass of [loop] per element of [inputs], oldest first. *)
Fixpoint loops (inputs : list (Board * Answers * string)) (sk : Sketch)
  : option Sketch :=
  match inputs with
  | [] => Some sk
  | (b, a, incoming) :: inputs' =>
      match loop b a incoming sk with
      | Some sk' => loops inputs' sk'
      | None => None
      end
  end.

(** A string without its carriage returns. *)
Fixpoint without_CR (s : string) : string :=
  match s with
  | EmptyString => EmptyString
  | String c s' =>
      if Ascii.eqb c "013" then without_CR s' else String c (without_CR s')
  end.

(** No character of [s] is a line feed. *)
Fixpoint no_LF (s : string) : bool :=
  match s with
  | EmptyString => true
  | String c s' => negb (Ascii.eqb c "010") && no_LF s'
  end.

(** The string a C string holds: the characters before the first NUL. *)
Fixpoint before_NUL (s : string) : string :=
  match s with
  | EmptyString => EmptyString
  | String c s' =>
      if Ascii.eqb c zero then EmptyString else String c (before_NUL s')
  end.

(** The buffer of the sketch is in order. *)
Definition buffer_ok (sk : Sketch) : Prop :=
  length (commandString sk) = Z.to_nat MAX_COMMAND_LENGTH
  /\ 0 <= commandLength sk <= MAX_COMMAND_LENGTH - 1.

(** No character of [s] is a carriage return or a line feed. *)
Fixpoint plain (s : string) : bool :=
  match s with
  | EmptyString => true
  | String c s' =>
      negb (Ascii.eqb c "013") && negb (Ascii.eqb c "010") && plain s'
  end.

(** The message of [commandReady]. *)
Definition too_long : SerialOut :=
  Serial_println "ERROR: Command is too long.".

(** What the sketch keeps of its motor: the pins of [setup], [State] in
    step with [Homed], and limits with zero between them. *)
Definition sound (m : StepperMotor) : Prop :=
  consistent m
  /\ pins_of m = (2, 3, 4, -1, -1)
  /\ LowerLimit m <= 0 <= UpperLimit m.

(** The two messages of [loop] about limit switches. *)
Definition switch_message (o : SerialOut) : bool :=
  match o with
  | Serial_print s =>
      String.eqb s "Lower Limit Switch Triggered, position = "
      || String.eqb s "Upper Limit Switch Triggered, position = "
  | Serial_println _ => false
  end.

(** No character of [s] is a NUL, a carriage return or a line feed. *)
Fixpoint visible (s : string) : bool :=
  match s with
  | EmptyString => true
  | String c s' =>
      negb (Ascii.eqb c zero) && negb (Ascii.eqb c "013")
      && negb (Ascii.eqb c "010") && visible s'
  end.

(** Passes of [loop] during which nothing arrives on the serial port. *)
Definition idle_passes (a : Answers) (bs : list Board)
  : list (Board * Answers * string) :=
  map (fun b => (b, a, EmptyString)) bs.

(** What the [switch] of [loop] prints over such passes. *)
Fixpoint reports (bs : list Board) (m : StepperMotor) (tx : list SerialOut)
  : list SerialOut :=
  match bs with
  | [] => tx
  | b :: bs' =>
      let (r, m1) := Run b m in
      reports bs' m1 (report r m1 tx)
  end.

(** The number of times [pin] is driven HIGH in a log. *)
Fixpoint rises (pin : Z) (io : list PinEvent) : nat :=
  match io with
  | [] => O
  | digitalWrite p HIGH :: io' =>
      if p =? pin then S (rises pin io') else rises pin io'
  | _ :: io' => rises pin io'
  end.

(** The calls that blink [pin]. *)
Definition blinks (pin : Z) (c : Call) : bool :=
  match c with
  | CallBlinkLED LEDpin => LEDpin =? pin
  | _ => false
  end.

(** A call that leaves a motor that is not homed at rest: it does not run
    [Enable] and does not blink the step pin. *)
Definition harmless (m : StepperMotor) (c : Call) : bool :=
  negb (runs_Enable m c) && negb (blinks (StepPin m) c).

(** * Proofs *)

#[local] Arguments Z.add : simpl never.
#[local] Arguments Z.sub : simpl never.
#[local] Arguments Z.mul : simpl never.
#[local] Arguments Z.opp : simpl never.
#[local] Arguments Z.quot : simpl never.
#[local] Arguments Z.modulo : simpl never.
#[local] Arguments Long.add : simpl never.
#[local] Arguments Long.sub : simpl never.
#[local] Arguments Long.mul : simpl never.
#[local] Arguments Long.neg : simpl never.
#[local] Arguments Long.div : simpl never.
#[local] Arguments Long.abs : simpl never.
#[local] Arguments Long.uadd : simpl never.

(** On a record given field by field, assignments compute at once. *)
#[local] Arguments set_State v !m /.
#[local] Arguments set_Homed v !m /.
#[local] Arguments set_MaxVelocity v !m /.
#[local] Arguments set_TotalSteps v !m /.
#[local] Arguments set_StepCount v !m /.
#[local] Arguments set_StepIncrement v !m /.
#[local] Arguments set_AbsolutePosition v !m /.
#[local] Arguments set_DeltaPosition v !m /.
#[local] Arguments set_TargetPosition v !m /.
#[local] Arguments set_LowerLimit v !m /.
#[local] Arguments set_UpperLimit v !m /.
#[local] Arguments set_RampSteps v !m /.
#[local] Arguments set_RampDownStep v !m /.
#[local] Arguments set_Velocity v !m /.
#[local] Arguments set_VelocityIncrement v !m /.
#[local] Arguments set_NextPosition v !m /.
#[local] Arguments set_NextStepMicros v !m /.
#[local] Arguments set_Gpio v !m /.
#[local] Arguments emit ev !m /.

Ltac break_if :=
  match goal with
  | |- context [if ?c then _ else _] => destruct c eqn:?
  end.

Ltac to_Z :=
  repeat match goal with
  | H : (_ <? _) = true |- _ => apply Z.ltb_lt in H
  | H : (_ <? _) = false |- _ => apply Z.ltb_ge in H
  | H : (_ <=? _) = true |- _ => apply Z.leb_le in H
  | H : (_ <=? _) = false |- _ => apply Z.leb_gt in H
  | H : (_ >? _) = true |- _ => rewrite Z.gtb_ltb in H; apply Z.ltb_lt in H
  | H : (_ >? _) = false |- _ => rewrite Z.gtb_ltb in H; apply Z.ltb_ge in H
  | H : (_ >=? _) = true |- _ => rewrite Z.geb_leb in H; apply Z.leb_le in H
  | H : (_ >=? _) = false |- _ => rewrite Z.geb_leb in H; apply Z.leb_gt in H
  | H : (_ =? _) = true |- _ => apply Z.eqb_eq in H
  | H : (_ =? _) = false |- _ => apply Z.eqb_neq in H
  | H : (_ && _) = true |- _ => apply andb_true_iff in H; destruct H
  | H : negb _ = true |- _ => apply negb_true_iff in H
  | H : negb _ = false |- _ => apply negb_false_iff in H
  end.

(** ** Machine integers *)

Lemma wrap_in_range : forall z, Long.in_range z -> Long.wrap z = z.
Proof.
  intros z [Hlo Hhi]. unfold Long.wrap, Long.modulus, Long.MIN, Long.MAX in *.
  rewrite Z.mod_small; lia.
Qed.

Lemma wrap_range : forall z, Long.in_range (Long.wrap z).
Proof.
  intro z. unfold Long.in_range, Long.wrap, Long.modulus, Long.MIN, Long.MAX.
  pose proof (Z.mod_pos_bound (z + 2147483648) 4294967296 eq_refl). lia.
Qed.

Lemma add_exact : forall a b, Long.in_range (a + b) -> Long.add a b = a + b.
Proof. intros. apply wrap_in_range. assumption. Qed.

Lemma sub_exact : forall a b, Long.in_range (a - b) -> Long.sub a b = a - b.
Proof. intros. apply wrap_in_range. assumption. Qed.

Lemma mul_exact : forall a b, Long.in_range (a * b) -> Long.mul a b = a * b.
Proof. intros. apply wrap_in_range. assumption. Qed.

Lemma div_exact : forall a b, Long.in_range (a ÷ b) -> Long.div a b = a ÷ b.
Proof. intros. apply wrap_in_range. assumption. Qed.

Lemma abs_exact :
  forall x, - Long.MAX <= x <= Long.MAX -> Long.abs x = Z.abs x.
Proof.
  intros x Hx. unfold Long.abs, Long.neg, Long.MAX in *.
  destruct (x >? 0) eqn:E; to_Z; [lia|].
  rewrite wrap_in_range by (unfold Long.in_range, Long.MIN, Long.MAX; lia).
  lia.
Qed.

Lemma MotorState_eqb_eq :
  forall a b, MotorState_eqb a b = true <-> a = b.
Proof. intros [] []; simpl; split; congruence. Qed.

Lemma Level_eqb_eq : forall a b, Level_eqb a b = true <-> a = b.
Proof. intros [] []; simpl; split; congruence. Qed.

(** ** Frame facts: what the helpers leave alone *)

Ltac unfold_methods :=
  unfold perform, Run, RotateAbsolute, RotateRelative, RotateToHome,
    RotateToLowerLimit, RotateToUpperLimit, startRotation, Enable,
    SetHomePosition, Disable, SetLowerLimit, SetUpperLimit, SetRamp, EStop,
    BlinkLED, scheduleNext, adjustVelocity, doStep, emit in *.

Ltac by_cases :=
  unfold_methods; cbn in *; repeat (break_if; cbn in * ); to_Z.

Lemma stepAndWait_log :
  forall k ms m, exists io, stepAndWait k ms m = set_Gpio io m.
Proof.
  induction k as [|k IH]; intros ms m; cbn [stepAndWait].
  - exists (Gpio m). destruct m; reflexivity.
  - destruct (IH ms (emit (delay ms) (doStep m))) as [io Hio].
    exists io. rewrite Hio. destruct m; reflexivity.
Qed.

Lemma stepTimes_log : forall k m, exists io, stepTimes k m = set_Gpio io m.
Proof.
  induction k as [|k IH]; intro m; cbn [stepTimes].
  - exists (Gpio m). destruct m; reflexivity.
  - destruct (IH (doStep m)) as [io Hio]. exists io. rewrite Hio.
    destruct m; reflexivity.
Qed.

(** [FindHome] on a motor with a lower limit switch is [Enable] followed by
    output only: the second [SetHomePosition] finds the position already
    zero. *)
Lemma FindHome_with_switch :
  forall seek backoff m,
    0 <= LLSwitchPin m ->
    exists io, FindHome seek backoff m = set_Gpio io (Enable m).
Proof.
  intros seek backoff m Hpin. unfold FindHome.
  destruct (LLSwitchPin m >=? 0) eqn:E; to_Z; [|lia].
  destruct m. unfold Enable, SetHomePosition, emit. cbn.
  match goal with |- context [stepAndWait seek 5 ?x] =>
    destruct (stepAndWait_log seek 5 x) as [io1 H1] end.
  rewrite H1. cbn.
  match goal with |- context [stepAndWait backoff 50 ?x] =>
    destruct (stepAndWait_log backoff 50 x) as [io2 H2] end.
  rewrite H2. cbn. eexists. reflexivity.
Qed.

Lemma FindHome_without_switch :
  forall seek backoff m, LLSwitchPin m < 0 -> FindHome seek backoff m = m.
Proof.
  intros seek backoff m Hpin. unfold FindHome.
  destruct (LLSwitchPin m >=? 0) eqn:E; to_Z; [lia | reflexivity].
Qed.

(** What [startRotation] writes: the two ramp fields, the velocity, the
    direction with its pin, and the three fields that start the motion. *)
Lemma startRotation_shape :
  forall now m, exists rs rd vel inc io,
    startRotation now m
    = set_State MS_RUNNING
        (set_NextStepMicros (Long.uadd now 10)
           (set_DeltaPosition 0
              (set_Gpio io
                 (set_StepIncrement inc
                    (set_RampDownStep rd
                       (set_Velocity vel (set_RampSteps rs m)))))))
    /\ (inc = 1 /\ AbsolutePosition m <= TargetPosition m
        \/ inc = -1 /\ TargetPosition m < AbsolutePosition m).
Proof.
  intros now m. destruct m. unfold startRotation. cbn.
  repeat (break_if; cbn in * ); to_Z; try (exfalso; lia);
    do 5 eexists; (split; [reflexivity | lia]).
Qed.

Ltac open_rotation now m :=
  let rs := fresh "rs" in
  let rd := fresh "rd" in
  let vel := fresh "vel" in
  let inc := fresh "inc" in
  let io := fresh "io" in
  let Hshape := fresh "Hshape" in
  let Hinc := fresh "Hinc" in
  destruct (startRotation_shape now m)
    as (rs & rd & vel & inc & io & Hshape & Hinc);
  rewrite Hshape; clear Hshape.

Ltac open_rotate :=
  unfold RotateAbsolute, RotateRelative, RotateToHome, RotateToLowerLimit,
    RotateToUpperLimit;
  try break_if;
  try match goal with
      | |- context [startRotation ?now ?m] => open_rotation now m
      end.

(** No method writes the limits except the two setters, and the setters keep
    them on either side of zero. *)
Lemma perform_limits :
  forall c m,
    LowerLimit m <= 0 <= UpperLimit m ->
    LowerLimit (perform c m) <= 0 <= UpperLimit (perform c m).
Proof.
  intros c m H.
  destruct c;
    try solve [cbn [perform]; open_rotate; destruct m; cbn in *; lia];
    try solve [destruct m; by_cases; lia].
  (* FindHome is the one method with loops *)
  cbn [perform].
  destruct (Z_lt_ge_dec (LLSwitchPin m) 0) as [Hn|Hp].
  - rewrite FindHome_without_switch by assumption. exact H.
  - destruct (FindHome_with_switch seek backoff m) as [io Hio]; [lia|].
    rewrite Hio. destruct m; by_cases; lia.
Qed.

Lemma history_limits :
  forall cs m,
    LowerLimit m <= 0 <= UpperLimit m ->
    LowerLimit (history cs m) <= 0 <= UpperLimit (history cs m).
Proof.
  induction cs as [|c cs IH]; intros m H; [exact H|].
  cbn [history fold_left]. apply IH. apply perform_limits. exact H.
Qed.

(** [Run] does nothing on a motor that is not homed. *)
Lemma Run_not_homed : forall b m, Homed m = false -> Run b m = (OKAY, m).
Proof. intros b m H. unfold Run. rewrite H. reflexivity. Qed.

(** ** Soft limits (claims C1, C2, C8) *)

(** C1.  If the position lies within [LowerLimit, UpperLimit] before a call
    of [Run], it does so after the call, whatever [Run] returns; [Run] does
    not write the limits; and [Run] either leaves the log and the position
    as they were or emits one pulse and moves to a position that lies within
    the limits. *)
Theorem Run_keeps_position_within_limits :
  forall (b : Board) (m : StepperMotor),
    LowerLimit m <= AbsolutePosition m <= UpperLimit m ->
    let m' := snd (Run b m) in
    LowerLimit m' = LowerLimit m
    /\ UpperLimit m' = UpperLimit m
    /\ LowerLimit m' <= AbsolutePosition m' <= UpperLimit m'
    /\ (Gpio m' = Gpio m /\ AbsolutePosition m' = AbsolutePosition m
        \/ Gpio m' = pulse m ++ Gpio m
           /\ AbsolutePosition m'
              = Long.add (AbsolutePosition m) (StepIncrement m)
           /\ LowerLimit m
              <= Long.add (AbsolutePosition m) (StepIncrement m)
              <= UpperLimit m).
Proof.
  intros b m H. unfold pulse. destruct m. by_cases;
    repeat split; try lia; try reflexivity;
    solve [left; split; reflexivity
          | right; repeat split; try reflexivity; lia].
Qed.

Lemma Run_keeps_position_within_limits_witness :
  let m := RotateRelative 3 500 0 (Enable MyStepper) in
  let m' := snd (Run (board_at 10) m) in
  LowerLimit m <= AbsolutePosition m <= UpperLimit m
  /\ LowerLimit m' <= AbsolutePosition m' <= UpperLimit m'.
Proof.
  cbv zeta. split.
  - vm_compute. split; discriminate.
  - apply (Run_keeps_position_within_limits (board_at 10)
             (RotateRelative 3 500 0 (Enable MyStepper))).
    vm_compute. split; discriminate.
Defined.

(** C2.  On a homed, running motor whose step time is reached and which is
    not at its target: when the next position [AbsolutePosition +
    StepIncrement] (the [long] sum the code stores in [NextPosition]) is
    below [LowerLimit], [Run] returns [RANGE_ERROR_LOWER], sets [State] to
    [MS_ENABLED], emits nothing and leaves [AbsolutePosition] and
    [DeltaPosition] as they were; when it is above [UpperLimit], the same
    with [RANGE_ERROR_UPPER].  The limits are ordered, as they are in every
    state a caller can reach. *)
Theorem Run_range_errors :
  forall (b : Board) (m : StepperMotor),
    Homed m = true ->
    State m = MS_RUNNING ->
    NextStepMicros m <= micros b ->
    AbsolutePosition m <> TargetPosition m ->
    LowerLimit m <= UpperLimit m ->
    let next := Long.add (AbsolutePosition m) (StepIncrement m) in
    let r := fst (Run b m) in
    let m' := snd (Run b m) in
    (next < LowerLimit m ->
       r = RANGE_ERROR_LOWER /\ State m' = MS_ENABLED /\ Gpio m' = Gpio m
       /\ AbsolutePosition m' = AbsolutePosition m
       /\ DeltaPosition m' = DeltaPosition m)
    /\ (next > UpperLimit m ->
       r = RANGE_ERROR_UPPER /\ State m' = MS_ENABLED /\ Gpio m' = Gpio m
       /\ AbsolutePosition m' = AbsolutePosition m
       /\ DeltaPosition m' = DeltaPosition m).
Proof.
  intros b m Hh Hs Ht Hne Hlim. cbv zeta. unfold Run.
  destruct m. cbn in *. subst. cbn.
  destruct (micros b >=? _) eqn:E1; to_Z; [|lia].
  destruct (_ =? _) eqn:E2; to_Z; [contradiction|].
  split; intro Hout.
  - destruct (_ <? _) eqn:E3; to_Z; [|lia]. cbn. repeat split.
  - destruct (_ <? _) eqn:E3; to_Z; [lia|].
    destruct (_ >? _) eqn:E4; to_Z; [|lia]. cbn. repeat split.
Qed.

Lemma Run_range_errors_witness :
  let m :=
    RotateRelative (-3) 500 0 (SetLowerLimit 0 (Enable MyStepper)) in
  fst (Run (board_at 10) m) = RANGE_ERROR_LOWER
  /\ AbsolutePosition (snd (Run (board_at 10) m)) = AbsolutePosition m.
Proof.
  cbv zeta.
  assert (Hlow :
    Long.add
      (AbsolutePosition
         (RotateRelative (-3) 500 0 (SetLowerLimit 0 (Enable MyStepper))))
      (StepIncrement
         (RotateRelative (-3) 500 0 (SetLowerLimit 0 (Enable MyStepper))))
    < LowerLimit
        (RotateRelative (-3) 500 0 (SetLowerLimit 0 (Enable MyStepper))))
    by (vm_compute; reflexivity).
  destruct (Run_range_errors (board_at 10)
              (RotateRelative (-3) 500 0 (SetLowerLimit 0 (Enable MyStepper))))
    as [Hl _].
  - reflexivity.
  - reflexivity.
  - vm_compute. discriminate.
  - vm_compute. discriminate.
  - vm_compute. discriminate.
  - destruct (Hl Hlow) as (Hr & _ & _ & Ha & _). split; assumption.
Defined.

(** C8.  [SetLowerLimit v] stores [v] in [LowerLimit] exactly when
    [v <= 0] and [v <= UpperLimit]: under the guard [LowerLimit] is [v]
    afterwards and no other field differs, and otherwise the motor is
    unchanged.  [SetUpperLimit v] likewise stores [v] in [UpperLimit]
    exactly when [v >= 0] and [v >= LowerLimit].  And after any sequence of
    calls on a newly constructed motor, [LowerLimit <= 0 <= UpperLimit]. *)
Theorem limit_setters_guard :
  (forall (v : Z) (m : StepperMotor),
     (v <= 0 /\ v <= UpperLimit m ->
      LowerLimit (SetLowerLimit v m) = v
      /\ UpperLimit (SetLowerLimit v m) = UpperLimit m
      /\ same_but_limits m (SetLowerLimit v m))
     /\ (~ (v <= 0 /\ v <= UpperLimit m) ->
         SetLowerLimit v m = m
         /\ LowerLimit (SetLowerLimit v m) = LowerLimit m))
  /\ (forall (v : Z) (m : StepperMotor),
     (v >= 0 /\ v >= LowerLimit m ->
      UpperLimit (SetUpperLimit v m) = v
      /\ LowerLimit (SetUpperLimit v m) = LowerLimit m
      /\ same_but_limits m (SetUpperLimit v m))
     /\ (~ (v >= 0 /\ v >= LowerLimit m) ->
         SetUpperLimit v m = m
         /\ UpperLimit (SetUpperLimit v m) = UpperLimit m))
  /\ (forall (enablePin directionPin stepPin llSwitchPin ulSwitchPin : Z)
             (cs : list Call),
     let m :=
       history cs
         (Constructor enablePin directionPin stepPin llSwitchPin ulSwitchPin)
     in LowerLimit m <= 0 <= UpperLimit m).
Proof.
  split; [|split].
  - intros v m. unfold SetLowerLimit.
    destruct ((v <=? 0) && (v <=? UpperLimit m)) eqn:E.
    + split; [|intro Hn; to_Z; exfalso; apply Hn; split; assumption].
      intros _. destruct m; unfold same_but_limits; cbn. repeat split.
    + split; [|intros _; split; reflexivity].
      intros [H1 H2]. apply Z.leb_le in H1, H2.
      rewrite H1, H2 in E. discriminate.
  - intros v m. unfold SetUpperLimit.
    destruct ((v >=? 0) && (v >=? LowerLimit m)) eqn:E.
    + split; [|intro Hn; to_Z; exfalso; apply Hn; split; lia].
      intros _. destruct m; unfold same_but_limits; cbn. repeat split.
    + split; [|intros _; split; reflexivity].
      intros [H1 H2]. apply Z.ge_le in H1, H2. apply Z.leb_le in H1, H2.
      rewrite !Z.geb_leb, H1, H2 in E. discriminate.
  - intros. apply history_limits. cbn. lia.
Qed.

Lemma limit_setters_guard_witness :
  LowerLimit (SetLowerLimit (-500) MyStepper) = -500
  /\ UpperLimit (SetLowerLimit (-500) MyStepper) = 2000000000
  /\ SetLowerLimit 5 MyStepper = MyStepper
  /\ UpperLimit (SetUpperLimit 800 MyStepper) = 800
  /\ SetUpperLimit (-2000000001) MyStepper = MyStepper.
Proof.
  destruct limit_setters_guard as (Hlow & Hup & _).
  destruct (Hlow (-500) MyStepper) as [Hset _].
  destruct (Hlow 5 MyStepper) as [_ Hkeep].
  destruct (Hup 800 MyStepper) as [Hset' _].
  destruct (Hup (-2000000001) MyStepper) as [_ Hkeep'].
  destruct Hset as (H1 & H2 & _); [vm_compute; split; discriminate|].
  destruct Hset' as (H3 & _); [vm_compute; split; discriminate|].
  destruct Hkeep as [H4 _]; [intros [Hv _]; lia|].
  destruct Hkeep' as [H5 _]; [intros [Hv _]; lia|].
  split; [exact H1|]. split; [rewrite H2; reflexivity|].
  split; [exact H4|]. split; [exact H3 | exact H5].
Defined.

(** ** Homing and the state machine (claims C3, C7, C10) *)

(** C10.  [SetHomePosition] changes nothing unless [State] is [MS_ENABLED];
    when it is, the method sets [AbsolutePosition] and [DeltaPosition] to
    zero and [Homed] to true, and nothing else. *)
Theorem SetHomePosition_needs_enabled :
  forall m : StepperMotor,
    (State m <> MS_ENABLED -> SetHomePosition m = m)
    /\ (State m = MS_ENABLED ->
        AbsolutePosition (SetHomePosition m) = 0
        /\ DeltaPosition (SetHomePosition m) = 0
        /\ Homed (SetHomePosition m) = true
        /\ same_but_home m (SetHomePosition m)).
Proof.
  intro m. unfold SetHomePosition. split; intro H.
  - destruct (MotorState_eqb (State m) MS_ENABLED) eqn:E; [|reflexivity].
    apply MotorState_eqb_eq in E. contradiction.
  - rewrite H. unfold same_but_home. destruct m. cbn in *.
    repeat split.
Qed.

Lemma SetHomePosition_needs_enabled_witness :
  SetHomePosition MyStepper = MyStepper
  /\ AbsolutePosition
       (SetHomePosition (set_AbsolutePosition 7 (Enable MyStepper))) = 0.
Proof.
  split.
  - apply (proj1 (SetHomePosition_needs_enabled MyStepper)).
    vm_compute. discriminate.
  - apply (proj2 (SetHomePosition_needs_enabled
                    (set_AbsolutePosition 7 (Enable MyStepper)))).
    reflexivity.
Defined.

(** The rotate methods leave alone what [same_setup] lists. *)
Lemma rotate_same_setup :
  forall c m, is_rotate c = true -> same_setup m (perform c m).
Proof.
  intros c m Hc. unfold same_setup.
  destruct c; try discriminate Hc; cbn [perform]; open_rotate;
    destruct m; cbn; repeat split.
Qed.

Lemma rotate_starts :
  forall c m,
    is_rotate c = true ->
    if starts_rotation c
    then State (perform c m) = MS_RUNNING /\ DeltaPosition (perform c m) = 0
    else perform c m = m.
Proof.
  intros c m Hc.
  destruct c; try discriminate Hc; cbn [starts_rotation is_rotate perform];
    open_rotate; try reflexivity; destruct m; cbn; split; reflexivity.
Qed.

(** What [startRotation] leaves in every field it writes. *)
Lemma startRotation_plan :
  forall now m,
    State (startRotation now m) = MS_RUNNING
    /\ DeltaPosition (startRotation now m) = 0
    /\ TargetPosition (startRotation now m) = TargetPosition m
    /\ MaxVelocity (startRotation now m) = MaxVelocity m
    /\ TotalSteps (startRotation now m) = TotalSteps m
    /\ (RampSteps (startRotation now m), RampDownStep (startRotation now m),
        Velocity (startRotation now m))
       = planned_ramp (MaxVelocity m) (VelocityIncrement m) (TotalSteps m)
    /\ StepIncrement (startRotation now m)
       = snd (heading (TargetPosition m) (AbsolutePosition m))
    /\ NextStepMicros (startRotation now m) = Long.uadd now 10
    /\ Gpio (startRotation now m)
       = digitalWrite (DirectionPin m)
           (fst (heading (TargetPosition m) (AbsolutePosition m)))
         :: Gpio m
    /\ TargetOrSteps (startRotation now m) = TargetOrSteps m
    /\ StepCount (startRotation now m) = StepCount m
    /\ NextPosition (startRotation now m) = NextPosition m.
Proof.
  intros now m. destruct m.
  unfold startRotation, planned_ramp, heading. cbn.
  repeat (break_if; cbn in * ); to_Z;
    try discriminate; try lia; repeat split; try reflexivity;
    try congruence.
Qed.

Lemma rotate_records :
  forall c m,
    is_rotate c = true ->
    starts_rotation c = true ->
    recorded c m (perform c m).
Proof.
  intros c m Hc Hs. unfold recorded.
  destruct c; try discriminate Hc;
    cbn [perform commanded_target commanded_velocity commanded_steps
         call_time];
    unfold RotateAbsolute, RotateRelative, RotateToHome, RotateToLowerLimit,
      RotateToUpperLimit;
    cbn [starts_rotation] in Hs; rewrite ?Hs; cbv zeta;
    match goal with
    | |- context [startRotation ?now ?x] =>
        pose proof (startRotation_plan now x) as Hplan;
        revert Hplan; generalize (startRotation now x)
    end;
    intros m' Hplan; destruct m; cbn in Hplan |- *; exact Hplan.
Qed.

(** C3, as the code has it.  On a motor that is not homed, a rotate method
    is not a no-op: unless it is [RotateRelative] by zero steps, it records
    the new plan ([TargetPosition], [MaxVelocity], [TotalSteps], the ramp
    fields, [StepIncrement], [NextStepMicros]), writes the direction pin,
    sets [State] to [MS_RUNNING] and [DeltaPosition] to zero.  What it
    leaves alone is [Homed], [AbsolutePosition], the limits,
    [VelocityIncrement], the pins and the three scratch fields; and because
    [Homed] is still false, every [Run] that follows returns [OKAY] and
    changes nothing, so the motor does not move. *)
Theorem rotate_when_not_homed :
  forall (c : Call) (m : StepperMotor),
    Homed m = false ->
    is_rotate c = true ->
    let m' := perform c m in
    same_setup m m'
    /\ (if starts_rotation c
        then State m' = MS_RUNNING /\ DeltaPosition m' = 0 /\ recorded c m m'
        else m' = m)
    /\ forall b : Board, Run b m' = (OKAY, m').
Proof.
  intros c m Hh Hc. cbv zeta.
  pose proof (rotate_same_setup c m Hc) as Hsame.
  split; [exact Hsame|]. split.
  - pose proof (rotate_starts c m Hc) as Hstart.
    destruct (starts_rotation c) eqn:Es; [|exact Hstart].
    destruct Hstart as [H1 H2]. split; [exact H1|]. split; [exact H2|].
    apply rotate_records; assumption.
  - intro b. apply Run_not_homed.
    destruct Hsame as [Hhomed _]. congruence.
Qed.

Lemma rotate_when_not_homed_witness :
  let m' := RotateAbsolute (-100) 500 7 MyStepper in
  State m' = MS_RUNNING
  /\ TargetPosition m' = -100
  /\ MaxVelocity m' = 500
  /\ TotalSteps m' = 100
  /\ (RampSteps m', RampDownStep m', Velocity m') = (20, 80, 0)
  /\ StepIncrement m' = -1
  /\ NextStepMicros m' = 17
  /\ Gpio m' = digitalWrite 3 HIGH :: Gpio MyStepper
  /\ Run (board_at 20) m' = (OKAY, m').
Proof.
  cbv zeta.
  destruct (rotate_when_not_homed (CallRotateAbsolute (-100) 500 7) MyStepper)
    as (_ & Hstart & Hrun).
  - reflexivity.
  - reflexivity.
  - cbn [starts_rotation is_rotate perform] in Hstart, Hrun.
    destruct Hstart as (Hs & _ & _ & _ & Ht & Hv & Hn & Hr & Hi & Hclock & Hio
                        & _).
    split; [exact Hs|]. split; [exact Ht|]. split; [exact Hv|].
    split; [rewrite Hn; vm_compute; reflexivity|].
    split; [rewrite Hr; vm_compute; reflexivity|].
    split; [rewrite Hi; vm_compute; reflexivity|].
    split; [rewrite Hclock; vm_compute; reflexivity|].
    split; [rewrite Hio; vm_compute; reflexivity|].
    exact (Hrun (board_at 20)).
Defined.

(** C3, as the spec words it, fails: [RotateAbsolute] on the newly
    constructed motor, which is not homed, changes [State] and
    [TargetPosition]. *)
Lemma unhomed_RotateAbsolute_changes_the_state :
  Homed MyStepper = false
  /\ State MyStepper = MS_DISABLED
  /\ State (RotateAbsolute 100 500 0 MyStepper) = MS_RUNNING
  /\ TargetPosition MyStepper = 0
  /\ TargetPosition (RotateAbsolute 100 500 0 MyStepper) = 100
  /\ RotateAbsolute 100 500 0 MyStepper <> MyStepper.
Proof.
  repeat split; try reflexivity.
  intro H. apply (f_equal State) in H. vm_compute in H. discriminate.
Qed.

(** Calls that do not run [Enable] keep a motor that is not homed and not
    enabled in that condition, and keep the switch pin. *)
Lemma perform_stays_unhomed :
  forall c m,
    Homed m = false ->
    State m <> MS_ENABLED ->
    runs_Enable m c = false ->
    Homed (perform c m) = false
    /\ State (perform c m) <> MS_ENABLED
    /\ LLSwitchPin (perform c m) = LLSwitchPin m.
Proof.
  intros c m Hh Hs Hc.
  assert (Hne : MotorState_eqb (State m) MS_ENABLED = false).
  { destruct (MotorState_eqb (State m) MS_ENABLED) eqn:E; [|reflexivity].
    apply MotorState_eqb_eq in E. contradiction. }
  destruct c; cbn [runs_Enable] in Hc; try discriminate Hc; cbn [perform].
  - rewrite Run_not_homed by assumption. auto.
  - destruct m; by_cases; repeat split; auto; discriminate.
  - to_Z. rewrite FindHome_without_switch by lia. auto.
  - unfold SetHomePosition. rewrite Hne. auto.
  - destruct m; by_cases; repeat split; auto; discriminate.
  - destruct m; by_cases; repeat split; auto; discriminate.
  - destruct m; by_cases; repeat split; auto; discriminate.
  - open_rotate; destruct m; cbn in *; repeat split; auto; discriminate.
  - open_rotate; destruct m; cbn in *; repeat split; auto; discriminate.
  - open_rotate; destruct m; cbn in *; repeat split; auto; discriminate.
  - open_rotate; destruct m; cbn in *; repeat split; auto; discriminate.
  - open_rotate; destruct m; cbn in *; repeat split; auto; discriminate.
  - destruct m; by_cases; repeat split; auto; discriminate.
  - destruct m; by_cases; repeat split; auto; discriminate.
Qed.

Lemma runs_Enable_pin :
  forall m m0 c,
    LLSwitchPin m = LLSwitchPin m0 -> runs_Enable m c = runs_Enable m0 c.
Proof. intros m m0 c H. destruct c; cbn; try reflexivity. rewrite H. reflexivity. Qed.

Lemma history_stays_unhomed :
  forall cs m0 m,
    LLSwitchPin m = LLSwitchPin m0 ->
    Homed m = false ->
    State m <> MS_ENABLED ->
    forallb (fun c => negb (runs_Enable m0 c)) cs = true ->
    Homed (history cs m) = false.
Proof.
  induction cs as [|c cs IH]; intros m0 m Hpin Hh Hs Hcs; [exact Hh|].
  cbn [forallb] in Hcs. apply andb_true_iff in Hcs. destruct Hcs as [Hc Hcs].
  apply negb_true_iff in Hc.
  rewrite <- (runs_Enable_pin m m0 c Hpin) in Hc.
  destruct (perform_stays_unhomed c m Hh Hs Hc) as (Hh' & Hs' & Hpin').
  cbn [history fold_left]. apply (IH m0); try assumption. congruence.
Qed.

(** C7.  From any state, [EStop] sets [State] to [MS_ESTOPPED], clears
    [Homed] and sets [TargetPosition] to the current [AbsolutePosition];
    and after it, whatever calls follow that do not run [Enable], every
    [Run] returns [OKAY] and changes nothing. *)
Theorem EStop_halts_until_Enable :
  forall m : StepperMotor,
    State (EStop m) = MS_ESTOPPED
    /\ Homed (EStop m) = false
    /\ TargetPosition (EStop m) = AbsolutePosition m
    /\ AbsolutePosition (EStop m) = AbsolutePosition m
    /\ forall (cs : list Call) (b : Board),
         forallb (fun c => negb (runs_Enable m c)) cs = true ->
         Run b (history cs (EStop m)) = (OKAY, history cs (EStop m)).
Proof.
  intro m.
  repeat (split; [destruct m; reflexivity|]).
  intros cs b Hcs. apply Run_not_homed.
  apply (history_stays_unhomed cs m).
  - destruct m; reflexivity.
  - destruct m; reflexivity.
  - destruct m; cbn. discriminate.
  - exact Hcs.
Qed.

Lemma EStop_halts_until_Enable_witness :
  let m := RotateRelative 600 500 0 (Enable MyStepper) in
  let cs := [CallRun (board_at 10); CallRotateAbsolute 1000 500 20;
             CallSetHomePosition; CallRun (board_at 50)] in
  Run (board_at 90) (history cs (EStop m)) = (OKAY, history cs (EStop m)).
Proof.
  cbv zeta.
  apply (EStop_halts_until_Enable
           (RotateRelative 600 500 0 (Enable MyStepper))).
  reflexivity.
Defined.

(** ** The ramp plan (claim C5) *)

Lemma quot_bounds : forall a b, 0 <= a -> 0 < b -> 0 <= a ÷ b <= a.
Proof.
  intros a b Ha Hb. rewrite Z.quot_div_nonneg by lia. split.
  - apply Z.div_pos; lia.
  - apply Z.div_le_upper_bound; nia.
Qed.

Lemma in_range_between :
  forall z, Long.MIN <= z -> z <= Long.MAX -> Long.in_range z.
Proof. intros. split; assumption. Qed.

(** C5.  [startRotation] on a motor whose [MaxVelocity], [VelocityIncrement]
    and [TotalSteps] are not negative (and small enough for [2L * RampSteps]
    to be a [long]).  With a nonzero increment the ramp is
    [MaxVelocity / VelocityIncrement] steps long and the start velocity is 0
    if that is positive and [MaxVelocity] otherwise; then, if [TotalSteps]
    exceeds twice the ramp, [RampDownStep = TotalSteps - RampSteps], and
    otherwise [RampSteps = RampDownStep = TotalSteps / 2].  With a zero
    increment, [RampSteps = 0] and the start velocity is [MaxVelocity]. *)
Theorem startRotation_ramp_plan :
  forall (now : Z) (m : StepperMotor),
    0 <= MaxVelocity m <= Long.MAX ->
    0 <= VelocityIncrement m ->
    0 <= TotalSteps m <= Long.MAX ->
    2 * (MaxVelocity m ÷ VelocityIncrement m) <= Long.MAX ->
    let m' := startRotation now m in
    let ramp := MaxVelocity m ÷ VelocityIncrement m in
    (VelocityIncrement m <> 0 ->
       Velocity m' = (if ramp >? 0 then 0 else MaxVelocity m)
       /\ (TotalSteps m > 2 * ramp ->
           RampSteps m' = ramp /\ RampDownStep m' = TotalSteps m - ramp)
       /\ (TotalSteps m <= 2 * ramp ->
           RampSteps m' = TotalSteps m ÷ 2
           /\ RampDownStep m' = TotalSteps m ÷ 2))
    /\ (VelocityIncrement m = 0 ->
        RampSteps m' = 0 /\ Velocity m' = MaxVelocity m).
Proof.
  intros now m Hv Hi Ht Hmul. cbv zeta.
  destruct m as [st ep dp sp ll ul hm mv tos ts sc si ap dl tp lo up
                   rs rd vel vi np nsm io].
  cbn in *.
  assert (Hhalf : Long.div ts 2 = ts ÷ 2).
  { apply div_exact. pose proof (quot_bounds ts 2).
    apply in_range_between; unfold Long.MIN, Long.MAX in *; lia. }
  unfold startRotation. cbn.
  split; intro Hz.
  - pose proof (quot_bounds mv vi) as Hq.
    assert (Hramp : Long.div mv vi = mv ÷ vi).
    { apply div_exact.
      apply in_range_between; unfold Long.MIN, Long.MAX in *; lia. }
    assert (Htwice : Long.mul 2 (mv ÷ vi) = 2 * (mv ÷ vi)).
    { apply mul_exact.
      apply in_range_between; unfold Long.MIN, Long.MAX in *; lia. }
    assert (Hdown : Long.sub ts (mv ÷ vi) = ts - mv ÷ vi).
    { apply sub_exact.
      apply in_range_between; unfold Long.MIN, Long.MAX in *; lia. }
    destruct (vi =? 0) eqn:E0; to_Z; [contradiction|].
    cbn. rewrite Hramp.
    destruct (mv ÷ vi =? 0) eqn:E1; destruct (mv ÷ vi >? 0) eqn:E2;
      to_Z; try lia; cbn; rewrite ?Hramp, ?Htwice;
      (destruct (ts >? _) eqn:E3; to_Z; cbn;
       rewrite ?Hramp, ?Hdown, ?Hhalf;
       repeat (break_if; cbn);
       repeat split; intros; try reflexivity; lia).
  - subst vi. cbn.
    change (Long.mul 2 0) with 0.
    destruct (ts >? 0) eqn:E3; to_Z; cbn.
    + repeat (break_if; cbn); split; reflexivity.
    + rewrite Hhalf. replace ts with 0 by lia.
      repeat (break_if; cbn); split; reflexivity.
Qed.

Lemma startRotation_ramp_plan_witness :
  let m := set_TotalSteps 100 (set_MaxVelocity 500 (Enable MyStepper)) in
  RampSteps (startRotation 0 m) = 20
  /\ RampDownStep (startRotation 0 m) = 80
  /\ Velocity (startRotation 0 m) = 0.
Proof.
  cbv zeta.
  destruct (startRotation_ramp_plan 0
              (set_TotalSteps 100 (set_MaxVelocity 500 (Enable MyStepper))))
    as [Hplan _].
  - vm_compute. split; discriminate.
  - vm_compute. discriminate.
  - vm_compute. split; discriminate.
  - vm_compute. discriminate.
  - destruct Hplan as (Hvel & Htrap & _); [vm_compute; discriminate|].
    destruct Htrap as [Hr Hd]; [vm_compute; reflexivity|].
    split; [exact Hr | split; [exact Hd | exact Hvel]].
Defined.

(** ** [Run], case by case *)

Lemma due_dec :
  forall b m,
    Homed m && MotorState_eqb (State m) MS_RUNNING
      && (micros b >=? NextStepMicros m) = true <-> due b m.
Proof.
  intros b m. unfold due. rewrite !andb_true_iff, MotorState_eqb_eq.
  rewrite Z.geb_leb, Z.leb_le. tauto.
Qed.

Lemma asserted_dec :
  forall b pin,
    (pin >=? 0) && Level_eqb (digitalRead b pin) LOW = true
    <-> asserted b pin.
Proof.
  intros b pin. unfold asserted.
  rewrite andb_true_iff, Level_eqb_eq, Z.geb_leb, Z.leb_le. tauto.
Qed.

Lemma Run_outcome :
  forall b m, RunOutcome b m (fst (Run b m)) (snd (Run b m)).
Proof.
  intros b m. unfold Run.
  destruct (Homed m && MotorState_eqb (State m) MS_RUNNING
            && (micros b >=? NextStepMicros m)) eqn:Hdue; cbn [fst snd].
  2:{ apply RunIdle. intro Hd. apply due_dec in Hd. congruence. }
  apply due_dec in Hdue.
  destruct (AbsolutePosition m =? TargetPosition m) eqn:Hat; to_Z;
    cbn [fst snd].
  { apply RunComplete; assumption. }
  destruct m as [st ep dp sp ll ul hm mv tos ts sc si ap dl tp lo up
                   rs rd vel vi np nsm io].
  cbn in Hat |- *.
  destruct (Long.add ap si <? lo) eqn:Hlo; to_Z; cbn [fst snd].
  { apply RunRangeLower; assumption. }
  destruct (Long.add ap si >? up) eqn:Hhi; to_Z; cbn [fst snd].
  { apply RunRangeUpper; assumption. }
  destruct ((ll >=? 0) && Level_eqb (digitalRead b ll) LOW) eqn:Hll;
    cbn [fst snd].
  { apply RunSwitchLower; try assumption.
    - split; assumption.
    - apply asserted_dec. exact Hll. }
  assert (~ asserted b ll)
    by (intro Ha; apply asserted_dec in Ha; congruence).
  destruct ((ul >=? 0) && Level_eqb (digitalRead b ul) LOW) eqn:Hul;
    cbn [fst snd].
  { apply RunSwitchUpper; try assumption.
    - split; assumption.
    - apply asserted_dec. exact Hul. }
  assert (~ asserted b ul)
    by (intro Ha; apply asserted_dec in Ha; congruence).
  apply RunStep; try assumption. split; assumption.
Qed.

(** The ramp update and the scheduling write three fields only. *)
Lemma ramp_update_frame :
  forall m, exists sc v t,
    scheduleNext (adjustVelocity m)
    = set_NextStepMicros t (set_Velocity v (set_StepCount sc m)).
Proof.
  intro m.
  exists (Long.abs (DeltaPosition m)), (Velocity (adjustVelocity m)),
    (NextStepMicros (scheduleNext (adjustVelocity m))).
  unfold scheduleNext, adjustVelocity. destruct m.
  cbn. repeat (break_if; cbn); reflexivity.
Qed.

(** A reading that is [clear] leaves [Run] no way out but completion, a
    range error or a step. *)
Lemma clear_not_asserted :
  forall b m,
    clear b m ->
    ~ asserted b (LLSwitchPin m) /\ ~ asserted b (ULSwitchPin m).
Proof.
  intros b m (_ & Hl & Hu). unfold asserted.
  split; intros [Hp Hr]; [destruct Hl as [Hl|Hl] | destruct Hu as [Hu|Hu]];
    try lia; congruence.
Qed.

Ltac open_motors :=
  repeat match goal with
         | x : StepperMotor |- _ => destruct x
         end;
  cbn in *.

Ltac run_cases b m :=
  let r := fresh "r" in
  let m' := fresh "m'" in
  let E := fresh "HRun" in
  let Ho := fresh "Hout" in
  pose proof (Run_outcome b m) as Ho;
  destruct (Run b m) as [r m'] eqn:E;
  cbn [fst snd] in Ho |- *;
  inversion Ho; clear Ho E; subst r m'.

(** ** The round trip of a relative rotation (claim C9) *)

Lemma sgn_cases :
  forall n, n <> 0 -> Z.sgn n = 1 /\ 0 < n \/ Z.sgn n = -1 /\ n < 0.
Proof. intros n Hn. lia. Qed.

Lemma RotateRelative_from_home :
  forall m n v now,
    n <> 0 ->
    Long.in_range n ->
    LowerLimit m <= 0 <= UpperLimit m ->
    LowerLimit m <= n <= UpperLimit m ->
    under_way n 0 (RotateRelative n v now (SetHomePosition (Enable m))).
Proof.
  intros m n v now Hn Hr Hz Hlim.
  assert (Hadd : Long.add 0 n = n) by (apply add_exact; exact Hr).
  unfold under_way, RotateRelative.
  destruct (negb (n =? 0)) eqn:E; to_Z; [|contradiction].
  match goal with
  | |- context [startRotation ?t ?x] => open_rotation t x
  end.
  destruct m. unfold Enable, SetHomePosition in *. cbn in *.
  rewrite Hadd in *.
  destruct (sgn_cases n Hn) as [[Hs Hp]|[Hs Hp]]; rewrite Hs;
    repeat split; try reflexivity; lia.
Qed.

(** [Run] keeps [DeltaPosition] equal to [AbsolutePosition] and does not
    write [TargetPosition]; it reports completion only at the target. *)
Lemma Run_tracks_delta :
  forall b m n,
    TargetPosition m = n ->
    DeltaPosition m = AbsolutePosition m ->
    TargetPosition (snd (Run b m)) = n
    /\ DeltaPosition (snd (Run b m)) = AbsolutePosition (snd (Run b m))
    /\ (fst (Run b m) = RUN_COMPLETE ->
        AbsolutePosition (snd (Run b m)) = n).
Proof.
  intros b m n Ht Hd. run_cases b m;
    try (destruct (ramp_update_frame (advance m)) as (sc & v & t & Hf);
         rewrite Hf; clear Hf);
    unfold advance, ahead, doStep in *; open_motors;
    repeat split; try congruence; try discriminate.
Qed.

Lemma poll_tracks_delta :
  forall bs m n,
    TargetPosition m = n ->
    DeltaPosition m = AbsolutePosition m ->
    TargetPosition (snd (poll bs m)) = n
    /\ DeltaPosition (snd (poll bs m)) = AbsolutePosition (snd (poll bs m)).
Proof.
  induction bs as [|b bs IH]; intros m n Ht Hd; [split; assumption|].
  cbn [poll].
  destruct (Run_tracks_delta b m n Ht Hd) as (Ht' & Hd' & _).
  destruct (Run b m) as [r m1]. cbn [snd] in Ht', Hd'.
  specialize (IH m1 n Ht' Hd').
  destruct (poll bs m1) as [rs m2]. exact IH.
Qed.

(** One step of a rotation that is under way. *)
Lemma Run_under_way_step :
  forall b m n k,
    Long.in_range n ->
    under_way n k m ->
    0 <= k < Z.abs n ->
    clear b m ->
    fst (Run b m) = OKAY /\ under_way n (k + 1) (snd (Run b m)).
Proof.
  intros b m n k Hr Hu Hk Hc.
  destruct Hu as (Hh & Hs & Ht & Hi & Ha & Hd & Hz & Hl).
  destruct (clear_not_asserted b m Hc) as [Hnl Hnu].
  assert (Hdue : due b m) by (destruct Hc; repeat split; assumption).
  assert (Hn : n <> 0) by lia.
  assert (Hahead : ahead m = (k + 1) * Z.sgn n).
  { unfold ahead. rewrite Ha, Hi. rewrite add_exact.
    - ring.
    - unfold Long.in_range, Long.MIN, Long.MAX in *.
      destruct (sgn_cases n Hn) as [[Hs' Hp]|[Hs' Hp]]; rewrite Hs'; lia. }
  assert (Hdelta : Long.add (DeltaPosition m) (StepIncrement m)
                   = (k + 1) * Z.sgn n).
  { rewrite Hd, <- Ha. exact Hahead. }
  run_cases b m; try contradiction.
  - exfalso. destruct (sgn_cases n Hn) as [[Hs' Hp]|[Hs' Hp]];
      rewrite Hs' in *; lia.
  - exfalso. destruct (sgn_cases n Hn) as [[Hs' Hp]|[Hs' Hp]];
      rewrite Hs' in *; lia.
  - exfalso. destruct (sgn_cases n Hn) as [[Hs' Hp]|[Hs' Hp]];
      rewrite Hs' in *; lia.
  - split; [reflexivity|].
    destruct (ramp_update_frame (advance m)) as (sc & v & t & Hf).
    rewrite Hf. clear Hf.
    unfold under_way, advance, ahead, doStep in *. open_motors.
    rewrite Hahead, Hdelta. repeat split; try assumption; lia.
Qed.

(** The call that finds the motor at its target. *)
Lemma Run_under_way_end :
  forall b m n,
    under_way n (Z.abs n) m ->
    n <> 0 ->
    clear b m ->
    fst (Run b m) = RUN_COMPLETE
    /\ AbsolutePosition (snd (Run b m)) = n
    /\ DeltaPosition (snd (Run b m)) = n.
Proof.
  intros b m n Hu Hn Hc.
  destruct Hu as (Hh & Hs & Ht & Hi & Ha & Hd & Hz & Hl).
  assert (Hdue : due b m) by (destruct Hc; repeat split; assumption).
  assert (Hat : AbsolutePosition m = n) by (rewrite Ha; lia).
  run_cases b m; try contradiction; try congruence.
  open_motors. repeat split; try assumption. rewrite Hd; lia.
Qed.

Lemma poll_under_way :
  forall n d k bs m,
    Long.in_range n ->
    n <> 0 ->
    under_way n k m ->
    0 <= k ->
    Z.of_nat d = Z.abs n - k ->
    length bs = S d ->
    all_clear bs m ->
    fst (poll bs m) = repeat OKAY d ++ [RUN_COMPLETE]
    /\ AbsolutePosition (snd (poll bs m)) = n
    /\ DeltaPosition (snd (poll bs m)) = n.
Proof.
  intros n. induction d as [|d IH]; intros k bs m Hr Hn Hu Hk Hd Hlen Hc.
  - destruct bs as [|b [|b' bs]]; try discriminate Hlen.
    destruct Hc as [Hc _].
    replace k with (Z.abs n) in Hu by lia.
    destruct (Run_under_way_end b m n Hu Hn Hc) as (Hres & Ha & Hdl).
    cbn [poll]. destruct (Run b m) as [r m1].
    cbn [fst snd] in *. subst r. repeat split; assumption.
  - destruct bs as [|b bs]; try discriminate Hlen.
    destruct Hc as [Hc Hrest].
    destruct (Run_under_way_step b m n k Hr Hu ltac:(lia) Hc) as [Hres Hu'].
    cbn [poll]. destruct (Run b m) as [r m1].
    cbn [fst snd] in *. subst r.
    specialize (IH (k + 1) bs m1 Hr Hn Hu' ltac:(lia) ltac:(lia)
                  ltac:(cbn in Hlen; congruence) Hrest).
    destruct (poll bs m1) as [rs m2]. cbn [fst snd] in *.
    destruct IH as (Hrs & Ha & Hdl). subst rs.
    repeat split; assumption.
Qed.

(** The readings of [prompt] are all [clear]. *)
Lemma prompt_all_clear : forall k m, all_clear (prompt k m) m.
Proof.
  induction k as [|k IH]; intro m; cbn [prompt all_clear]; [exact I|].
  split; [|apply IH].
  unfold clear, board_at. cbn. repeat split; auto; lia.
Qed.

(** C9.  From any state whose limits have zero and [n] between them, for a
    nonzero [long] [n] and any velocity: after [Enable], [SetHomePosition]
    and [RotateRelative n v], whenever a call of [Run] returns
    [RUN_COMPLETE], [AbsolutePosition] and [DeltaPosition] both equal [n];
    and [Run] does return [RUN_COMPLETE], at call number [|n| + 1], when
    every call finds its step time reached and no limit switch asserted;
    the calls before return [OKAY]. *)
Theorem RotateRelative_round_trip :
  forall (m : StepperMotor) (n v now : Z),
    n <> 0 ->
    Long.in_range n ->
    LowerLimit m <= 0 <= UpperLimit m ->
    LowerLimit m <= n <= UpperLimit m ->
    let m0 := RotateRelative n v now (SetHomePosition (Enable m)) in
    (forall (bs : list Board) (b : Board),
       fst (Run b (snd (poll bs m0))) = RUN_COMPLETE ->
       AbsolutePosition (snd (Run b (snd (poll bs m0)))) = n
       /\ DeltaPosition (snd (Run b (snd (poll bs m0)))) = n)
    /\ (forall bs : list Board,
       all_clear bs m0 ->
       length bs = S (Z.abs_nat n) ->
       fst (poll bs m0) = repeat OKAY (Z.abs_nat n) ++ [RUN_COMPLETE]
       /\ AbsolutePosition (snd (poll bs m0)) = n
       /\ DeltaPosition (snd (poll bs m0)) = n)
    /\ all_clear (prompt (S (Z.abs_nat n)) m0) m0.
Proof.
  intros m n v now Hn Hr Hz Hl. cbv zeta.
  pose proof (RotateRelative_from_home m n v now Hn Hr Hz Hl) as Hu.
  split; [|split].
  - intros bs b Hres.
    destruct Hu as (_ & _ & Ht & _ & Ha & Hd & _).
    destruct (poll_tracks_delta bs _ n Ht ltac:(congruence)) as [Ht' Hd'].
    destruct (Run_tracks_delta b _ n Ht' Hd') as (_ & Hd2 & Hfin).
    split; [|rewrite Hd2]; apply Hfin; exact Hres.
  - intros bs Hc Hlen.
    apply (poll_under_way n (Z.abs_nat n) 0); auto; lia.
  - apply prompt_all_clear.
Qed.

Lemma RotateRelative_round_trip_witness :
  let m0 := RotateRelative (-3) 500 0 (SetHomePosition (Enable MyStepper)) in
  fst (poll (prompt 4 m0) m0) = [OKAY; OKAY; OKAY; RUN_COMPLETE]
  /\ AbsolutePosition (snd (poll (prompt 4 m0) m0)) = -3
  /\ DeltaPosition (snd (poll (prompt 4 m0) m0)) = -3.
Proof.
  cbv zeta.
  destruct (RotateRelative_round_trip MyStepper (-3) 500 0) as (_ & Hgo & Hc).
  - discriminate.
  - vm_compute. split; discriminate.
  - vm_compute. split; discriminate.
  - vm_compute. split; discriminate.
  - apply (Hgo (prompt 4
                  (RotateRelative (-3) 500 0
                     (SetHomePosition (Enable MyStepper))))).
    + exact Hc.
    + reflexivity.
Defined.

(** ** The velocity profile (claims C4, C6) *)

Section Trapezoid.

Variables vi R T : Z.
Hypothesis Hvi : 0 < vi.
Hypothesis HR : 0 < R.
Hypothesis HT : 2 * R < T <= Long.MAX.
Hypothesis Htop : vi * R <= Long.MAX.

Lemma trapezoid_bounds :
  forall k, 0 <= k <= T -> 0 <= trapezoid vi R T k <= vi * R.
Proof.
  intros k Hk. unfold trapezoid.
  repeat break_if; to_Z; nia.
Qed.

Lemma trapezoid_up :
  forall k, 0 <= k -> k + 1 <= R ->
  trapezoid vi R T (k + 1) = trapezoid vi R T k + vi.
Proof.
  intros k H0 Hk. unfold trapezoid.
  repeat break_if; to_Z; try lia; ring.
Qed.

Lemma trapezoid_flat :
  forall k, R < k + 1 <= T - R ->
  trapezoid vi R T (k + 1) = trapezoid vi R T k.
Proof.
  intros k Hk. unfold trapezoid.
  repeat break_if; to_Z; try lia.
  replace k with R by lia. reflexivity.
Qed.

Lemma trapezoid_down :
  forall k, T - R < k + 1 ->
  trapezoid vi R T (k + 1) = trapezoid vi R T k - vi.
Proof.
  intros k Hk. unfold trapezoid.
  repeat break_if; to_Z; try lia; try ring.
  replace k with (T - R) by lia. ring.
Qed.

Lemma trapezoid_plateau :
  forall k, R <= k <= T - R -> trapezoid vi R T k = vi * R.
Proof.
  intros k Hk. unfold trapezoid.
  repeat break_if; to_Z; try lia. replace k with R by lia. reflexivity.
Qed.

(** The velocity [Run] leaves behind after a step. *)
Lemma ramp_update_velocity :
  forall m,
    Velocity (scheduleNext (adjustVelocity m))
    = if Long.abs (DeltaPosition m) <=? RampSteps m
      then Long.add (Velocity m) (VelocityIncrement m)
      else if Long.abs (DeltaPosition m) >? RampDownStep m
           then Long.sub (Velocity m) (VelocityIncrement m)
           else Velocity m.
Proof.
  intro m. unfold scheduleNext, adjustVelocity. destruct m. cbn.
  repeat (break_if; cbn); reflexivity.
Qed.

(** One step along the profile. *)
Lemma step_on_profile :
  forall m k,
    ramping vi R T k m ->
    AbsolutePosition m <> TargetPosition m ->
    ramping vi R T (k + 1) (scheduleNext (adjustVelocity (advance m)))
    /\ ahead m = AbsolutePosition m + StepIncrement m.
Proof.
  intros m k (Hi & Hr & Hd & Hs & Hk & Hdl & Htg & Hra & Hrt & Hv) Hne.
  assert (Hlt : k < T) by (destruct Hs as [E|E]; rewrite E in *; lia).
  pose proof (trapezoid_bounds k Hk) as Hb.
  pose proof (trapezoid_bounds (k + 1) ltac:(lia)) as Hb'.
  assert (Hahead : ahead m = AbsolutePosition m + StepIncrement m).
  { unfold ahead. apply add_exact.
    unfold Long.in_range, Long.MIN, Long.MAX in *.
    destruct Hs as [E|E]; rewrite E in *; lia. }
  assert (Hdelta : Long.add (DeltaPosition m) (StepIncrement m)
                   = (k + 1) * StepIncrement m).
  { rewrite add_exact; [rewrite Hdl; ring|].
    unfold Long.in_range, Long.MIN, Long.MAX in *.
    destruct Hs as [E|E]; rewrite E in *; lia. }
  assert (Hcount : Long.abs ((k + 1) * StepIncrement m) = k + 1).
  { rewrite abs_exact; unfold Long.MAX in *;
      destruct Hs as [E|E]; rewrite E; lia. }
  split; [|exact Hahead].
  pose proof (ramp_update_velocity (advance m)) as Hvel.
  destruct (ramp_update_frame (advance m)) as (sc & v & t & Hf).
  rewrite Hf in Hvel |- *. clear Hf.
  unfold ramping, advance, ahead, doStep in *.
  destruct m as [st ep dp sp ll ul hm mv tos ts sc0 si ap dl tp lo up
                   rs rd vel vi0 np nsm io].
  cbn in *. subst vi0 rs rd vel.
  rewrite Hdelta in *. rewrite Hcount in Hvel. rewrite Hahead.
  repeat split; try assumption; try lia;
    try (unfold Long.in_range, Long.MIN, Long.MAX in *;
         destruct Hs as [E|E]; rewrite E in *; lia).
  rewrite Hvel. unfold Long.MAX, Long.in_range, Long.MIN in *.
  destruct (k + 1 <=? R) eqn:E1; to_Z.
  - rewrite add_exact, trapezoid_up; try lia.
    rewrite <- trapezoid_up by lia.
    unfold Long.in_range, Long.MIN, Long.MAX. lia.
  - destruct (k + 1 >? T - R) eqn:E2; to_Z.
    + rewrite sub_exact, trapezoid_down; try lia.
      rewrite <- trapezoid_down by lia.
      unfold Long.in_range, Long.MIN, Long.MAX. lia.
    + rewrite trapezoid_flat; lia.
Qed.

Lemma Run_on_profile :
  forall b m, on_profile vi R T m -> on_profile vi R T (snd (Run b m)).
Proof.
  intros b m [Hb Hrun]. run_cases b m.
  - split; assumption.
  - split; [destruct m; exact Hb | destruct m; cbn; discriminate].
  - split; [destruct m; exact Hb | destruct m; cbn; discriminate].
  - split; [destruct m; exact Hb | destruct m; cbn; discriminate].
  - split; [destruct m; exact Hb | destruct m; cbn; discriminate].
  - split; [destruct m; exact Hb | destruct m; cbn; discriminate].
  - match goal with Hd : due b m |- _ => destruct Hd as (_ & Hst & _) end.
    destruct (Hrun Hst) as [k Hk].
    destruct (step_on_profile m k Hk ltac:(assumption)) as [Hk' _].
    split.
    + destruct Hk' as (_ & _ & _ & _ & Hk1 & _ & _ & _ & _ & Hv).
      rewrite Hv. apply trapezoid_bounds. exact Hk1.
    + intros _. exists (k + 1). exact Hk'.
Qed.

Lemma poll_on_profile :
  forall bs m, on_profile vi R T m -> on_profile vi R T (snd (poll bs m)).
Proof.
  induction bs as [|b bs IH]; intros m Hm; [exact Hm|].
  cbn [poll]. pose proof (Run_on_profile b m Hm) as H1.
  destruct (Run b m) as [r m1]. cbn [snd] in H1.
  specialize (IH m1 H1). destruct (poll bs m1) as [rs m2]. exact IH.
Qed.

End Trapezoid.

Lemma quot_pos_dividend : forall a b, 0 < b -> 0 < a ÷ b -> 0 < a.
Proof.
  intros a b Hb Hq. destruct (Z_lt_le_dec 0 a) as [Ha|Ha]; [exact Ha|].
  pose proof (Z.mul_quot_ge a b Ha ltac:(lia)). nia.
Qed.

(** [startRotation] puts a trapezoid rotation on its profile at step 0. *)
Lemma startRotation_on_profile :
  forall now m,
    0 < VelocityIncrement m ->
    MaxVelocity m <= Long.MAX ->
    Long.in_range (AbsolutePosition m) ->
    Long.in_range (TargetPosition m) ->
    TotalSteps m = Z.abs (TargetPosition m - AbsolutePosition m) ->
    TotalSteps m <= Long.MAX ->
    0 < MaxVelocity m ÷ VelocityIncrement m ->
    2 * (MaxVelocity m ÷ VelocityIncrement m) < TotalSteps m ->
    on_profile (VelocityIncrement m)
      (MaxVelocity m ÷ VelocityIncrement m) (TotalSteps m)
      (startRotation now m).
Proof.
  intros now m Hvi Hmax Hra Hrt Hts Htop HR Htrap.
  destruct m as [st ep dp sp ll ul hm mv tos ts sc si ap dl tp lo up
                   rs rd vel vi np nsm io].
  cbn in *.
  pose proof (quot_pos_dividend mv vi Hvi HR) as Hmv.
  pose proof (quot_bounds mv vi ltac:(lia) Hvi) as Hq.
  assert (Hramp : Long.div mv vi = mv ÷ vi).
  { apply div_exact.
    apply in_range_between; unfold Long.MIN, Long.MAX in *; lia. }
  assert (Htwice : Long.mul 2 (mv ÷ vi) = 2 * (mv ÷ vi)).
  { apply mul_exact.
    apply in_range_between; unfold Long.MIN, Long.MAX in *; lia. }
  assert (Hdown : Long.sub ts (mv ÷ vi) = ts - mv ÷ vi).
  { apply sub_exact.
    apply in_range_between; unfold Long.MIN, Long.MAX in *; lia. }
  assert (Hzero : trapezoid vi (mv ÷ vi) ts 0 = 0).
  { unfold trapezoid. destruct (0 <=? mv ÷ vi) eqn:E; to_Z; lia. }
  unfold on_profile, ramping, startRotation. cbn.
  destruct (vi =? 0) eqn:E0; to_Z; [lia|]. cbn. rewrite ?Hramp.
  destruct (mv ÷ vi =? 0) eqn:E1; to_Z; [lia|]. cbn.
  rewrite ?Hramp, ?Htwice.
  destruct (ts >? 2 * (mv ÷ vi)) eqn:E2; to_Z; [|lia]. cbn.
  rewrite ?Hramp, ?Hdown.
  destruct (tp >=? ap) eqn:E3; to_Z; cbn.
  - split; [nia|]. intros _. exists 0. rewrite Hzero.
    unfold Long.in_range in *. repeat split; auto; lia.
  - destruct (tp <? ap) eqn:E4; to_Z; [|lia]. cbn.
    split; [nia|]. intros _. exists 0. rewrite Hzero.
    unfold Long.in_range in *. repeat split; auto; lia.
Qed.

(** C6, as the code has it.  In a trapezoid rotation ([RampSteps > 0] and
    [TotalSteps > 2 * RampSteps]) with a positive increment, however [Run]
    is called after [startRotation]: the velocity is never negative and
    never above [MaxVelocity]; while the motor runs, the velocity after [k]
    steps is [trapezoid] at [k]; and on the plateau it is
    [VelocityIncrement * RampSteps], which is [MaxVelocity] less the
    remainder of [MaxVelocity] by [VelocityIncrement]. *)
Theorem trapezoid_plateau_velocity :
  forall (now : Z) (m : StepperMotor) (bs : list Board),
    0 < VelocityIncrement m ->
    MaxVelocity m <= Long.MAX ->
    Long.in_range (AbsolutePosition m) ->
    Long.in_range (TargetPosition m) ->
    TotalSteps m = Z.abs (TargetPosition m - AbsolutePosition m) ->
    TotalSteps m <= Long.MAX ->
    0 < MaxVelocity m ÷ VelocityIncrement m ->
    2 * (MaxVelocity m ÷ VelocityIncrement m) < TotalSteps m ->
    let ramp := MaxVelocity m ÷ VelocityIncrement m in
    let m' := snd (poll bs (startRotation now m)) in
    0 <= Velocity m' <= MaxVelocity m
    /\ (State m' = MS_RUNNING ->
        Velocity m'
        = trapezoid (VelocityIncrement m) ramp (TotalSteps m)
            (Z.abs (DeltaPosition m'))
        /\ (RampSteps m' <= Z.abs (DeltaPosition m') <= RampDownStep m' ->
            Velocity m' = VelocityIncrement m * ramp
            /\ Velocity m'
               = MaxVelocity m
                 - Z.rem (MaxVelocity m) (VelocityIncrement m))).
Proof.
  intros now m bs Hvi Hmax Hra Hrt Hts Htop HR Htrap. cbv zeta.
  pose proof (quot_pos_dividend _ _ Hvi HR) as Hmv.
  pose proof (Z.mul_quot_le (MaxVelocity m) (VelocityIncrement m)
                ltac:(lia) ltac:(lia)) as Hle.
  pose proof (startRotation_on_profile now m Hvi Hmax Hra Hrt Hts Htop
                HR Htrap) as Hstart.
  assert (HT : 2 * (MaxVelocity m ÷ VelocityIncrement m)
               < TotalSteps m <= Long.MAX) by lia.
  assert (Hpeak : VelocityIncrement m * (MaxVelocity m ÷ VelocityIncrement m)
                  <= Long.MAX) by lia.
  apply (poll_on_profile _ _ _ Hvi HR HT Hpeak bs) in Hstart.
  destruct Hstart as [Hb Hrun]. split; [lia|].
  intro Hst. destruct (Hrun Hst)
    as (k & _ & Hr & Hd & Hs & Hk & Hdl & _ & _ & _ & Hv).
  assert (Hsteps : Z.abs (DeltaPosition (snd (poll bs (startRotation now m))))
                   = k).
  { rewrite Hdl. destruct Hs as [E|E]; rewrite E; lia. }
  rewrite Hsteps, Hr, Hd. split; [exact Hv|].
  intro Hplateau. rewrite Hv.
  rewrite (trapezoid_plateau _ _ _ k Hplateau).
  split; [reflexivity|].
  pose proof (Z.quot_rem' (MaxVelocity m) (VelocityIncrement m)). lia.
Qed.

Lemma trapezoid_plateau_velocity_witness :
  let m' :=
    snd (poll (prompt 30 (startRotation 0 plan510))
           (startRotation 0 plan510)) in
  State m' = MS_RUNNING
  /\ RampSteps m' <= Z.abs (DeltaPosition m') <= RampDownStep m'
  /\ Velocity m' = 25 * 20.
Proof.
  cbv zeta.
  assert (Hst :
    State (snd (poll (prompt 30 (startRotation 0 plan510))
                  (startRotation 0 plan510)))
    = MS_RUNNING) by (vm_compute; reflexivity).
  assert (Hpl :
    RampSteps (snd (poll (prompt 30 (startRotation 0 plan510))
                      (startRotation 0 plan510)))
    <= Z.abs
         (DeltaPosition
            (snd (poll (prompt 30 (startRotation 0 plan510))
                    (startRotation 0 plan510))))
    <= RampDownStep
         (snd (poll (prompt 30 (startRotation 0 plan510))
                 (startRotation 0 plan510))))
    by (vm_compute; split; discriminate).
  split; [exact Hst|]. split; [exact Hpl|].
  destruct (trapezoid_plateau_velocity 0 plan510
              (prompt 30 (startRotation 0 plan510)))
    as [_ Hrun].
  - vm_compute. reflexivity.
  - vm_compute. discriminate.
  - vm_compute. split; discriminate.
  - vm_compute. split; discriminate.
  - vm_compute. reflexivity.
  - vm_compute. discriminate.
  - vm_compute. reflexivity.
  - vm_compute. reflexivity.
  - destruct (Hrun Hst) as [_ Hplateau].
    destruct (Hplateau Hpl) as [Hv _]. exact Hv.
Defined.

(** C6, as the spec words it, fails: a trapezoid rotation of 100 steps at
    510 steps per second with the default ramp runs its plateau at 500. *)
Lemma plateau_below_MaxVelocity :
  let m0 := RotateRelative 100 510 0 (Enable MyStepper) in
  let m' := snd (poll (prompt 30 m0) m0) in
  RampSteps m0 > 0
  /\ TotalSteps m0 > 2 * RampSteps m0
  /\ State m' = MS_RUNNING
  /\ RampSteps m' < StepCount m' <= RampDownStep m'
  /\ MaxVelocity m' = 510
  /\ Velocity m' = 500
  /\ Velocity m' <> MaxVelocity m'.
Proof. vm_compute. repeat split; discriminate. Qed.

(** C4 fails on the code.  A rotation by one step at 500 steps per second
    with the default ramp is a triangle of odd length: after its only step
    [Run] returns [OKAY], the motor is still [MS_RUNNING] and the velocity
    is -25.  The same happens after the third step of a rotation by three
    steps, whose third step follows the second with no delay because the
    velocity was zero in between. *)
Theorem odd_triangle_velocity_negative :
  let m1 := RotateRelative 1 500 0 (Enable MyStepper) in
  let m3 := RotateRelative 3 500 0 (Enable MyStepper) in
  (fst (Run (board_at 10) m1) = OKAY
   /\ State (snd (Run (board_at 10) m1)) = MS_RUNNING
   /\ Velocity (snd (Run (board_at 10) m1)) = -25)
  /\ (fst (poll (prompt 3 m3) m3) = [OKAY; OKAY; OKAY]
      /\ State (snd (poll (prompt 3 m3) m3)) = MS_RUNNING
      /\ Velocity (snd (poll (prompt 2 m3) m3)) = 0
      /\ NextStepMicros (snd (poll (prompt 2 m3) m3))
         = NextStepMicros (snd (poll (prompt 1 m3) m3))
      /\ Velocity (snd (poll (prompt 3 m3) m3)) = -25).
Proof. vm_compute. repeat split. Qed.

(** * Further properties of the motion core *)

(** ** What a call of [Run] does to the fields *)

Lemma wrap_add_l : forall x y, Long.wrap (Long.wrap x + y) = Long.wrap (x + y).
Proof.
  intros x y. unfold Long.wrap, Long.modulus.
  replace ((x + 2147483648) mod 4294967296 - 2147483648 + y + 2147483648)
    with ((x + 2147483648) mod 4294967296 + y) by ring.
  rewrite Zplus_mod_idemp_l. f_equal. f_equal. ring.
Qed.

Lemma wrap_idem : forall x, Long.wrap (Long.wrap x) = Long.wrap x.
Proof. intro x. apply wrap_in_range. apply wrap_range. Qed.

(** The fields after the branch of [Run] that steps. *)
Lemma stepped_fields :
  forall m,
    let m' := scheduleNext (adjustVelocity (advance m)) in
    AbsolutePosition m' = ahead m
    /\ DeltaPosition m' = Long.add (DeltaPosition m) (StepIncrement m)
    /\ State m' = State m
    /\ Gpio m' = pulse m ++ Gpio m
    /\ same_plan m m'.
Proof.
  intro m. cbv zeta.
  destruct (ramp_update_frame (advance m)) as (sc & v & t & Hf).
  rewrite Hf. clear Hf. unfold same_plan, advance, ahead, doStep, pulse.
  destruct m. cbn. repeat split.
Qed.

Lemma same_plan_refl : forall m, same_plan m m.
Proof. intro m. unfold same_plan. repeat split. Qed.

Lemma same_plan_trans :
  forall a b c, same_plan a b -> same_plan b c -> same_plan a c.
Proof.
  unfold same_plan. intros a b c H1 H2.
  repeat match goal with H : _ /\ _ |- _ => destruct H end.
  repeat split; congruence.
Qed.

Lemma Run_same_plan : forall b m, same_plan m (snd (Run b m)).
Proof.
  intros b m. run_cases b m;
    try apply same_plan_refl;
    try (apply (stepped_fields m));
    unfold same_plan, advance, doStep; destruct m; cbn; repeat split.
Qed.

Lemma poll_cons :
  forall b bs m,
    poll (b :: bs) m
    = (fst (Run b m) :: fst (poll bs (snd (Run b m))),
       snd (poll bs (snd (Run b m)))).
Proof.
  intros b bs m. cbn [poll]. destruct (Run b m) as [r m1]. cbn [fst snd].
  destruct (poll bs m1) as [rs m2]. reflexivity.
Qed.

Lemma poll_app :
  forall bs1 bs2 m,
    poll (bs1 ++ bs2) m
    = (fst (poll bs1 m) ++ fst (poll bs2 (snd (poll bs1 m))),
       snd (poll bs2 (snd (poll bs1 m)))).
Proof.
  induction bs1 as [|b bs1 IH]; intros bs2 m.
  - cbn. destruct (poll bs2 m); reflexivity.
  - rewrite <- app_comm_cons, !poll_cons, IH. reflexivity.
Qed.

Lemma all_clear_app :
  forall bs1 bs2 m,
    all_clear (bs1 ++ bs2) m
    <-> all_clear bs1 m /\ all_clear bs2 (snd (poll bs1 m)).
Proof.
  induction bs1 as [|b bs1 IH]; intros bs2 m.
  - cbn. tauto.
  - rewrite <- app_comm_cons, poll_cons. cbn [all_clear snd].
    rewrite IH. tauto.
Qed.

(** X1.  [Run] writes none of the fields of [same_plan]: however often it
    is called, the homing flag, the target, the direction, both limits, the
    ramp plan and the pins stay as they were. *)
Theorem poll_same_plan :
  forall (bs : list Board) (m : StepperMotor),
    same_plan m (snd (poll bs m)).
Proof.
  induction bs as [|b bs IH]; intro m.
  - apply same_plan_refl.
  - rewrite poll_cons. cbn [snd].
    apply (same_plan_trans _ (snd (Run b m))); [apply Run_same_plan|apply IH].
Qed.

(** X2.  [Run] changes [State] exactly when it returns something other
    than [OKAY]: then the motor was [MS_RUNNING], is [MS_ENABLED]
    afterwards, and the next call of [Run] returns [OKAY] and changes
    nothing, so each end of a rotation is reported once. *)
Theorem Run_reports_once :
  forall (b : Board) (m : StepperMotor),
    fst (Run b m) = OKAY /\ State (snd (Run b m)) = State m
    \/ fst (Run b m) <> OKAY
       /\ State m = MS_RUNNING
       /\ State (snd (Run b m)) = MS_ENABLED
       /\ forall b' : Board,
            Run b' (snd (Run b m)) = (OKAY, snd (Run b m)).
Proof.
  intros b m.
  assert (Hidle : forall x b', State x = MS_ENABLED -> Run b' x = (OKAY, x)).
  { intros x b' Hx. unfold Run. rewrite Hx. cbn.
    rewrite andb_false_r. reflexivity. }
  run_cases b m;
    try (left; split; [reflexivity | try reflexivity; apply (stepped_fields m)]);
    right;
    match goal with Hd : due b m |- _ => destruct Hd as (_ & Hs & _) end;
    (split; [discriminate|]); (split; [exact Hs|]);
    (split; [destruct m; reflexivity|]);
    intro b'; apply Hidle; destruct m; reflexivity.
Qed.

(** ** Rotations driven to their end *)

Lemma Run_takes_step :
  forall b m,
    Homed m = true ->
    State m = MS_RUNNING ->
    clear b m ->
    AbsolutePosition m <> TargetPosition m ->
    LowerLimit m <= ahead m <= UpperLimit m ->
    Run b m = (OKAY, scheduleNext (adjustVelocity (advance m))).
Proof.
  intros b m Hh Hs Hc Hne Hin.
  destruct (clear_not_asserted b m Hc) as [Hnl Hnu].
  assert (Hdue : due b m) by (destruct Hc; repeat split; assumption).
  run_cases b m; try contradiction; try reflexivity; exfalso; lia.
Qed.

Lemma Run_at_target :
  forall b m,
    Homed m = true ->
    State m = MS_RUNNING ->
    clear b m ->
    AbsolutePosition m = TargetPosition m ->
    Run b m = (RUN_COMPLETE, set_State MS_ENABLED m).
Proof.
  intros b m Hh Hs Hc Hat.
  assert (Hdue : due b m) by (destruct Hc; repeat split; assumption).
  run_cases b m; try contradiction; reflexivity.
Qed.

Lemma Run_below_range :
  forall b m,
    Homed m = true ->
    State m = MS_RUNNING ->
    clear b m ->
    AbsolutePosition m <> TargetPosition m ->
    ahead m < LowerLimit m ->
    Run b m
    = (RANGE_ERROR_LOWER,
       set_State MS_ENABLED (set_NextPosition (ahead m) m)).
Proof.
  intros b m Hh Hs Hc Hne Hout.
  assert (Hdue : due b m) by (destruct Hc; repeat split; assumption).
  run_cases b m; try contradiction; try reflexivity; exfalso; lia.
Qed.

Lemma Run_above_range :
  forall b m,
    Homed m = true ->
    State m = MS_RUNNING ->
    clear b m ->
    AbsolutePosition m <> TargetPosition m ->
    LowerLimit m <= ahead m ->
    UpperLimit m < ahead m ->
    Run b m
    = (RANGE_ERROR_UPPER,
       set_State MS_ENABLED (set_NextPosition (ahead m) m)).
Proof.
  intros b m Hh Hs Hc Hne Hlo Hout.
  assert (Hdue : due b m) by (destruct Hc; repeat split; assumption).
  run_cases b m; try contradiction; try reflexivity; exfalso; lia.
Qed.

Lemma Run_step_fields :
  forall b m,
    Homed m = true ->
    State m = MS_RUNNING ->
    clear b m ->
    AbsolutePosition m <> TargetPosition m ->
    LowerLimit m <= ahead m <= UpperLimit m ->
    fst (Run b m) = OKAY
    /\ AbsolutePosition (snd (Run b m)) = ahead m
    /\ DeltaPosition (snd (Run b m))
       = Long.add (DeltaPosition m) (StepIncrement m)
    /\ State (snd (Run b m)) = State m
    /\ Gpio (snd (Run b m)) = pulse m ++ Gpio m
    /\ same_plan m (snd (Run b m)).
Proof.
  intros b m Hh Hs Hc Hne Hin.
  rewrite (Run_takes_step b m Hh Hs Hc Hne Hin). cbn [fst snd].
  split; [reflexivity|]. apply stepped_fields.
Qed.

(** [n] steps in a row: nothing on the way is the target or lies outside
    the limits. *)
Lemma poll_march :
  forall (n : nat) (bs : list Board) (m : StepperMotor) (d : Z),
    Homed m = true ->
    State m = MS_RUNNING ->
    StepIncrement m = d ->
    d = 1 \/ d = -1 ->
    length bs = n ->
    all_clear bs m ->
    Long.in_range (AbsolutePosition m) ->
    Long.in_range (AbsolutePosition m + Z.of_nat n * d) ->
    Long.in_range (DeltaPosition m) ->
    (forall j, 0 <= j < Z.of_nat n ->
               AbsolutePosition m + j * d <> TargetPosition m) ->
    (forall j, 1 <= j <= Z.of_nat n ->
               LowerLimit m <= AbsolutePosition m + j * d <= UpperLimit m) ->
    fst (poll bs m) = repeat OKAY n
    /\ AbsolutePosition (snd (poll bs m))
       = AbsolutePosition m + Z.of_nat n * d
    /\ DeltaPosition (snd (poll bs m))
       = Long.wrap (DeltaPosition m + Z.of_nat n * d)
    /\ State (snd (poll bs m)) = MS_RUNNING
    /\ same_plan m (snd (poll bs m)).
Proof.
  induction n as [|n IH];
    intros bs m d Hh Hs Hd Hdir Hlen Hc Hra Hrb Hrd Hnot Hin.
  - destruct bs; [|discriminate Hlen]. cbn [poll fst snd repeat].
    rewrite wrap_in_range by (replace (DeltaPosition m + Z.of_nat 0 * d)
                                with (DeltaPosition m) by (cbn; ring);
                              exact Hrd).
    split; [reflexivity|]. split; [cbn; ring|]. split; [cbn; ring|].
    split; [assumption|]. apply same_plan_refl.
  - destruct bs as [|b bs]; [discriminate Hlen|].
    destruct Hc as [Hc Hrest].
    rewrite Nat2Z.inj_succ in Hrb, Hnot, Hin. rewrite Nat2Z.inj_succ.
    assert (Hahead : ahead m = AbsolutePosition m + d).
    { unfold ahead. rewrite Hd. apply add_exact.
      unfold Long.in_range, Long.MIN, Long.MAX in *.
      destruct Hdir; subst d; lia. }
    assert (Hne : AbsolutePosition m <> TargetPosition m).
    { specialize (Hnot 0 ltac:(lia)). replace (AbsolutePosition m + 0 * d)
        with (AbsolutePosition m) in Hnot by ring. exact Hnot. }
    assert (Hok : LowerLimit m <= ahead m <= UpperLimit m).
    { rewrite Hahead. specialize (Hin 1 ltac:(lia)).
      replace (AbsolutePosition m + 1 * d)
        with (AbsolutePosition m + d) in Hin by ring. exact Hin. }
    destruct (Run_step_fields b m Hh Hs Hc Hne Hok)
      as (Hr & Ha & Hdl & Hst & _ & Hplan).
    rewrite poll_cons. cbn [fst snd]. rewrite Hr.
    revert Hrest Ha Hdl Hst Hplan.
    generalize (snd (Run b m)). intros m1 Hrest Ha Hdl Hst Hplan.
    pose proof Hplan as Hplan'.
    destruct Hplan' as (Hh1 & Ht1 & Hi1 & Hl1 & Hu1 & _).
    assert (Hlen' : length bs = n) by (cbn in Hlen; congruence).
    assert (Hra1 : Long.in_range (AbsolutePosition m1)).
    { rewrite Ha, Hahead.
      unfold Long.in_range, Long.MIN, Long.MAX in *.
      destruct Hdir; subst d; lia. }
    assert (Hrb1 : Long.in_range (AbsolutePosition m1 + Z.of_nat n * d)).
    { rewrite Ha, Hahead.
      replace (AbsolutePosition m + d + Z.of_nat n * d)
        with (AbsolutePosition m + Z.succ (Z.of_nat n) * d) by ring.
      exact Hrb. }
    assert (Hrd1 : Long.in_range (DeltaPosition m1))
      by (rewrite Hdl; apply wrap_range).
    assert (Hnot1 : forall j, 0 <= j < Z.of_nat n ->
                      AbsolutePosition m1 + j * d <> TargetPosition m1).
    { intros j Hj. rewrite Ha, Hahead, Ht1.
      replace (AbsolutePosition m + d + j * d)
        with (AbsolutePosition m + (j + 1) * d) by ring.
      apply Hnot. lia. }
    assert (Hin1 : forall j, 1 <= j <= Z.of_nat n ->
                     LowerLimit m1 <= AbsolutePosition m1 + j * d
                     <= UpperLimit m1).
    { intros j Hj. rewrite Ha, Hahead, Hl1, Hu1.
      replace (AbsolutePosition m + d + j * d)
        with (AbsolutePosition m + (j + 1) * d) by ring.
      apply Hin. lia. }
    destruct (IH bs m1 d ltac:(congruence) ltac:(congruence)
                ltac:(congruence) Hdir Hlen' Hrest Hra1 Hrb1 Hrd1
                Hnot1 Hin1)
      as (Hres & Hfa & Hfd & Hfs & Hfp).
    cbn [repeat]. rewrite Hres, Hfa, Hfd, Ha, Hahead, Hdl.
    split; [reflexivity|]. split; [ring|]. split.
    { unfold Long.add. rewrite Hd, wrap_add_l. f_equal. ring. }
    split; [assumption|]. apply (same_plan_trans _ m1); assumption.
Qed.

Lemma Run_at_target_fields :
  forall b m,
    Homed m = true ->
    State m = MS_RUNNING ->
    clear b m ->
    AbsolutePosition m = TargetPosition m ->
    fst (Run b m) = RUN_COMPLETE
    /\ AbsolutePosition (snd (Run b m)) = AbsolutePosition m
    /\ DeltaPosition (snd (Run b m)) = DeltaPosition m
    /\ State (snd (Run b m)) = MS_ENABLED.
Proof.
  intros b m Hh Hs Hc Hat. rewrite (Run_at_target b m Hh Hs Hc Hat).
  destruct m. cbn. repeat split.
Qed.

Lemma Run_below_range_fields :
  forall b m,
    Homed m = true ->
    State m = MS_RUNNING ->
    clear b m ->
    AbsolutePosition m <> TargetPosition m ->
    ahead m < LowerLimit m ->
    fst (Run b m) = RANGE_ERROR_LOWER
    /\ AbsolutePosition (snd (Run b m)) = AbsolutePosition m
    /\ DeltaPosition (snd (Run b m)) = DeltaPosition m
    /\ State (snd (Run b m)) = MS_ENABLED.
Proof.
  intros b m Hh Hs Hc Hne Hout.
  rewrite (Run_below_range b m Hh Hs Hc Hne Hout).
  unfold ahead. destruct m. cbn. repeat split.
Qed.

Lemma Run_above_range_fields :
  forall b m,
    Homed m = true ->
    State m = MS_RUNNING ->
    clear b m ->
    AbsolutePosition m <> TargetPosition m ->
    LowerLimit m <= ahead m ->
    UpperLimit m < ahead m ->
    fst (Run b m) = RANGE_ERROR_UPPER
    /\ AbsolutePosition (snd (Run b m)) = AbsolutePosition m
    /\ DeltaPosition (snd (Run b m)) = DeltaPosition m
    /\ State (snd (Run b m)) = MS_ENABLED.
Proof.
  intros b m Hh Hs Hc Hne Hlo Hout.
  rewrite (Run_above_range b m Hh Hs Hc Hne Hlo Hout).
  unfold ahead. destruct m. cbn. repeat split.
Qed.

(** What [startRotation] leaves of the motor it is given. *)
Lemma startRotation_fields :
  forall now m,
    Homed (startRotation now m) = Homed m
    /\ State (startRotation now m) = MS_RUNNING
    /\ TargetPosition (startRotation now m) = TargetPosition m
    /\ AbsolutePosition (startRotation now m) = AbsolutePosition m
    /\ DeltaPosition (startRotation now m) = 0
    /\ LowerLimit (startRotation now m) = LowerLimit m
    /\ UpperLimit (startRotation now m) = UpperLimit m
    /\ (StepIncrement (startRotation now m) = 1
        /\ AbsolutePosition m <= TargetPosition m
        \/ StepIncrement (startRotation now m) = -1
           /\ TargetPosition m < AbsolutePosition m).
Proof.
  intros now m.
  destruct (startRotation_shape now m)
    as (rs & rd & vel & inc & io & Hshape & Hinc).
  rewrite Hshape. clear Hshape. destruct m. cbn in *.
  repeat (split; [reflexivity|]). exact Hinc.
Qed.

(** The last reading of a list of [S n] readings. *)
Lemma split_last :
  forall (n : nat) (bs : list Board),
    length bs = S n ->
    exists bs1 b, bs = bs1 ++ [b] /\ length bs1 = n.
Proof.
  intros n bs Hlen.
  destruct (exists_last (l := bs)) as (bs1 & b & Hbs).
  - intro H. subst bs. discriminate Hlen.
  - exists bs1, b. split; [exact Hbs|]. subst bs.
    rewrite length_app in Hlen. cbn in Hlen. lia.
Qed.

Section Started.

(** A rotation just started: [m] is homed and running with
    [DeltaPosition = 0], at [a] with target [p], heading the right way. *)
Variable m : StepperMotor.
Variables a p : Z.
Hypothesis Hhomed : Homed m = true.
Hypothesis Hstate : State m = MS_RUNNING.
Hypothesis Hat : AbsolutePosition m = a.
Hypothesis Htarget : TargetPosition m = p.
Hypothesis Hdelta : DeltaPosition m = 0.
Hypothesis Hdir :
  StepIncrement m = 1 /\ a <= p \/ StepIncrement m = -1 /\ p < a.
Hypothesis Hra : Long.in_range a.
Hypothesis Hrp : Long.in_range p.
Hypothesis Hin : LowerLimit m <= a <= UpperLimit m.

Lemma started_reaches_target :
  forall bs,
    LowerLimit m <= p <= UpperLimit m ->
    length bs = S (Z.abs_nat (p - a)) ->
    all_clear bs m ->
    fst (poll bs m) = repeat OKAY (Z.abs_nat (p - a)) ++ [RUN_COMPLETE]
    /\ AbsolutePosition (snd (poll bs m)) = p
    /\ DeltaPosition (snd (poll bs m)) = Long.wrap (p - a)
    /\ State (snd (poll bs m)) = MS_ENABLED.
Proof.
  intros bs Hp Hlen Hc.
  destruct (split_last _ _ Hlen) as (bs1 & b & Hbs & Hlen1). subst bs.
  apply all_clear_app in Hc. destruct Hc as [Hc1 Hc2].
  assert (Hd : exists d, StepIncrement m = d /\ (d = 1 \/ d = -1)
                         /\ Z.of_nat (Z.abs_nat (p - a)) * d = p - a).
  { destruct Hdir as [[E H]|[E H]]; rewrite E;
      [exists 1 | exists (-1)]; repeat split; auto; lia. }
  destruct Hd as (d & Hd & Hd1 & Hdist).
  destruct (poll_march (Z.abs_nat (p - a)) bs1 m d)
    as (Hres & Hfa & Hfd & Hfs & Hplan); try assumption.
  - rewrite Hat. exact Hra.
  - rewrite Hat, Hdist. replace (a + (p - a)) with p by ring. exact Hrp.
  - rewrite Hdelta. unfold Long.in_range, Long.MIN, Long.MAX. lia.
  - intros j Hj. rewrite Hat, Htarget. destruct Hd1; subst d; lia.
  - intros j Hj. rewrite Hat. destruct Hd1; subst d; lia.
  - rewrite poll_app. cbn [fst snd]. rewrite Hres.
    rewrite Hat, Hdist in Hfa. rewrite Hdelta, Hdist in Hfd.
    replace (a + (p - a)) with p in Hfa by ring.
    replace (0 + (p - a)) with (p - a) in Hfd by ring.
    destruct Hplan as (Hh1 & Ht1 & _).
    cbn [all_clear] in Hc2. destruct Hc2 as [Hc2 _].
    destruct (Run_at_target_fields b (snd (poll bs1 m)))
      as (Hr & Ha' & Hd' & Hs'); try congruence.
    cbn [poll]. destruct (Run b (snd (poll bs1 m))) as [r mf].
    cbn [fst snd] in *. subst r.
    repeat split; congruence.
Qed.

Lemma started_stops_at_lower :
  forall bs,
    p < LowerLimit m ->
    length bs = S (Z.abs_nat (a - LowerLimit m)) ->
    all_clear bs m ->
    fst (poll bs m)
    = repeat OKAY (Z.abs_nat (a - LowerLimit m)) ++ [RANGE_ERROR_LOWER]
    /\ AbsolutePosition (snd (poll bs m)) = LowerLimit m
    /\ DeltaPosition (snd (poll bs m)) = Long.wrap (LowerLimit m - a)
    /\ State (snd (poll bs m)) = MS_ENABLED.
Proof.
  intros bs Hp Hlen Hc.
  destruct (split_last _ _ Hlen) as (bs1 & b & Hbs & Hlen1). subst bs.
  apply all_clear_app in Hc. destruct Hc as [Hc1 Hc2].
  assert (Hd : StepIncrement m = -1) by (destruct Hdir as [[E H]|[E H]]; [lia|exact E]).
  unfold Long.in_range, Long.MIN, Long.MAX in Hra, Hrp.
  destruct (poll_march (Z.abs_nat (a - LowerLimit m)) bs1 m (-1))
    as (Hres & Hfa & Hfd & Hfs & Hplan); try assumption; auto.
  - rewrite Hat. unfold Long.in_range, Long.MIN, Long.MAX. lia.
  - rewrite Hat. unfold Long.in_range, Long.MIN, Long.MAX. lia.
  - rewrite Hdelta. unfold Long.in_range, Long.MIN, Long.MAX. lia.
  - intros j Hj. rewrite Hat, Htarget. lia.
  - intros j Hj. rewrite Hat. lia.
  - rewrite poll_app. cbn [fst snd]. rewrite Hres.
    rewrite Hat in Hfa. rewrite Hdelta in Hfd.
    replace (a + Z.of_nat (Z.abs_nat (a - LowerLimit m)) * -1)
      with (LowerLimit m) in Hfa by lia.
    replace (0 + Z.of_nat (Z.abs_nat (a - LowerLimit m)) * -1)
      with (LowerLimit m - a) in Hfd by lia.
    destruct Hplan as (Hh1 & Ht1 & Hi1 & Hl1 & Hu1 & _).
    cbn [all_clear] in Hc2. destruct Hc2 as [Hc2 _].
    assert (Hahead : ahead (snd (poll bs1 m)) = LowerLimit m - 1).
    { unfold ahead. rewrite Hfa, Hi1, Hd. apply add_exact.
      unfold Long.in_range, Long.MIN, Long.MAX. lia. }
    destruct (Run_below_range_fields b (snd (poll bs1 m)))
      as (Hr & Ha' & Hd' & Hs'); try congruence; try lia.
    cbn [poll]. destruct (Run b (snd (poll bs1 m))) as [r mf].
    cbn [fst snd] in *. subst r.
    repeat split; congruence.
Qed.

Lemma started_stops_at_upper :
  forall bs,
    UpperLimit m < p ->
    length bs = S (Z.abs_nat (UpperLimit m - a)) ->
    all_clear bs m ->
    fst (poll bs m)
    = repeat OKAY (Z.abs_nat (UpperLimit m - a)) ++ [RANGE_ERROR_UPPER]
    /\ AbsolutePosition (snd (poll bs m)) = UpperLimit m
    /\ DeltaPosition (snd (poll bs m)) = Long.wrap (UpperLimit m - a)
    /\ State (snd (poll bs m)) = MS_ENABLED.
Proof.
  intros bs Hp Hlen Hc.
  destruct (split_last _ _ Hlen) as (bs1 & b & Hbs & Hlen1). subst bs.
  apply all_clear_app in Hc. destruct Hc as [Hc1 Hc2].
  assert (Hd : StepIncrement m = 1) by (destruct Hdir as [[E H]|[E H]]; [exact E|lia]).
  unfold Long.in_range, Long.MIN, Long.MAX in Hra, Hrp.
  destruct (poll_march (Z.abs_nat (UpperLimit m - a)) bs1 m 1)
    as (Hres & Hfa & Hfd & Hfs & Hplan); try assumption; auto.
  - rewrite Hat. unfold Long.in_range, Long.MIN, Long.MAX. lia.
  - rewrite Hat. unfold Long.in_range, Long.MIN, Long.MAX. lia.
  - rewrite Hdelta. unfold Long.in_range, Long.MIN, Long.MAX. lia.
  - intros j Hj. rewrite Hat, Htarget. lia.
  - intros j Hj. rewrite Hat. lia.
  - rewrite poll_app. cbn [fst snd]. rewrite Hres.
    rewrite Hat in Hfa. rewrite Hdelta in Hfd.
    replace (a + Z.of_nat (Z.abs_nat (UpperLimit m - a)) * 1)
      with (UpperLimit m) in Hfa by lia.
    replace (0 + Z.of_nat (Z.abs_nat (UpperLimit m - a)) * 1)
      with (UpperLimit m - a) in Hfd by lia.
    destruct Hplan as (Hh1 & Ht1 & Hi1 & Hl1 & Hu1 & _).
    cbn [all_clear] in Hc2. destruct Hc2 as [Hc2 _].
    assert (Hahead : ahead (snd (poll bs1 m)) = UpperLimit m + 1).
    { unfold ahead. rewrite Hfa, Hi1, Hd. apply add_exact.
      unfold Long.in_range, Long.MIN, Long.MAX. lia. }
    destruct (Run_above_range_fields b (snd (poll bs1 m)))
      as (Hr & Ha' & Hd' & Hs'); try congruence; try lia.
    cbn [poll]. destruct (Run b (snd (poll bs1 m))) as [r mf].
    cbn [fst snd] in *. subst r.
    repeat split; congruence.
Qed.

End Started.

Ltac rotate_fields now m :=
  match goal with
  | |- context [startRotation now ?x] =>
      let H := fresh "Hf" in
      pose proof (startRotation_fields now x) as H;
      revert H; generalize (startRotation now x);
      intros ? H; destruct m; cbn in *; intuition
  end.

Lemma RotateAbsolute_fields :
  forall p v now m,
    Homed (RotateAbsolute p v now m) = Homed m
    /\ State (RotateAbsolute p v now m) = MS_RUNNING
    /\ TargetPosition (RotateAbsolute p v now m) = p
    /\ AbsolutePosition (RotateAbsolute p v now m) = AbsolutePosition m
    /\ DeltaPosition (RotateAbsolute p v now m) = 0
    /\ LowerLimit (RotateAbsolute p v now m) = LowerLimit m
    /\ UpperLimit (RotateAbsolute p v now m) = UpperLimit m
    /\ (StepIncrement (RotateAbsolute p v now m) = 1
        /\ AbsolutePosition m <= p
        \/ StepIncrement (RotateAbsolute p v now m) = -1
           /\ p < AbsolutePosition m).
Proof. intros p v now m. unfold RotateAbsolute. rotate_fields now m. Qed.

Lemma RotateToHome_fields :
  forall now m,
    Homed (RotateToHome now m) = Homed m
    /\ State (RotateToHome now m) = MS_RUNNING
    /\ TargetPosition (RotateToHome now m) = 0
    /\ AbsolutePosition (RotateToHome now m) = AbsolutePosition m
    /\ DeltaPosition (RotateToHome now m) = 0
    /\ LowerLimit (RotateToHome now m) = LowerLimit m
    /\ UpperLimit (RotateToHome now m) = UpperLimit m
    /\ (StepIncrement (RotateToHome now m) = 1
        /\ AbsolutePosition m <= 0
        \/ StepIncrement (RotateToHome now m) = -1
           /\ 0 < AbsolutePosition m).
Proof. intros now m. unfold RotateToHome. rotate_fields now m. Qed.

Lemma RotateToLowerLimit_fields :
  forall now m,
    Homed (RotateToLowerLimit now m) = Homed m
    /\ State (RotateToLowerLimit now m) = MS_RUNNING
    /\ TargetPosition (RotateToLowerLimit now m) = LowerLimit m
    /\ AbsolutePosition (RotateToLowerLimit now m) = AbsolutePosition m
    /\ DeltaPosition (RotateToLowerLimit now m) = 0
    /\ LowerLimit (RotateToLowerLimit now m) = LowerLimit m
    /\ UpperLimit (RotateToLowerLimit now m) = UpperLimit m
    /\ (StepIncrement (RotateToLowerLimit now m) = 1
        /\ AbsolutePosition m <= LowerLimit m
        \/ StepIncrement (RotateToLowerLimit now m) = -1
           /\ LowerLimit m < AbsolutePosition m).
Proof. intros now m. unfold RotateToLowerLimit. rotate_fields now m. Qed.

Lemma RotateToUpperLimit_fields :
  forall now m,
    Homed (RotateToUpperLimit now m) = Homed m
    /\ State (RotateToUpperLimit now m) = MS_RUNNING
    /\ TargetPosition (RotateToUpperLimit now m) = UpperLimit m
    /\ AbsolutePosition (RotateToUpperLimit now m) = AbsolutePosition m
    /\ DeltaPosition (RotateToUpperLimit now m) = 0
    /\ LowerLimit (RotateToUpperLimit now m) = LowerLimit m
    /\ UpperLimit (RotateToUpperLimit now m) = UpperLimit m
    /\ (StepIncrement (RotateToUpperLimit now m) = 1
        /\ AbsolutePosition m <= UpperLimit m
        \/ StepIncrement (RotateToUpperLimit now m) = -1
           /\ UpperLimit m < AbsolutePosition m).
Proof. intros now m. unfold RotateToUpperLimit. rotate_fields now m. Qed.

(** X3.  [RotateAbsolute] on a homed motor, from a position within the
    limits to a target within the limits, whatever state the motor was in
    (also in the middle of another rotation): when every call of [Run] finds
    its step time reached and no limit switch asserted, the calls return
    [OKAY] once per step and then [RUN_COMPLETE], and the motor is
    [MS_ENABLED] at the target with [DeltaPosition] the distance moved (as a
    [long]). *)
Theorem RotateAbsolute_reaches_target :
  forall (m : StepperMotor) (p v now : Z) (bs : list Board),
    Homed m = true ->
    Long.in_range (AbsolutePosition m) ->
    Long.in_range p ->
    LowerLimit m <= AbsolutePosition m <= UpperLimit m ->
    LowerLimit m <= p <= UpperLimit m ->
    length bs = S (Z.abs_nat (p - AbsolutePosition m)) ->
    all_clear bs (RotateAbsolute p v now m) ->
    fst (poll bs (RotateAbsolute p v now m))
    = repeat OKAY (Z.abs_nat (p - AbsolutePosition m)) ++ [RUN_COMPLETE]
    /\ AbsolutePosition (snd (poll bs (RotateAbsolute p v now m))) = p
    /\ DeltaPosition (snd (poll bs (RotateAbsolute p v now m)))
       = Long.wrap (p - AbsolutePosition m)
    /\ State (snd (poll bs (RotateAbsolute p v now m))) = MS_ENABLED.
Proof.
  intros m p v now bs Hh Hra Hrp Hin Hp Hlen Hc.
  destruct (RotateAbsolute_fields p v now m)
    as (H1 & H2 & H3 & H4 & H5 & H6 & H7 & H8).
  apply (started_reaches_target (RotateAbsolute p v now m)
           (AbsolutePosition m) p); try congruence.
Qed.

Lemma RotateAbsolute_reaches_target_witness :
  let m := RotateAbsolute 7 500 0 (Enable MyStepper) in
  let m0 := RotateAbsolute 4 500 50 m in
  fst (poll (prompt 5 m0) m0) = [OKAY; OKAY; OKAY; OKAY; RUN_COMPLETE]
  /\ AbsolutePosition (snd (poll (prompt 5 m0) m0)) = 4.
Proof.
  cbv zeta.
  destruct (RotateAbsolute_reaches_target
              (RotateAbsolute 7 500 0 (Enable MyStepper)) 4 500 50
              (prompt 5
                 (RotateAbsolute 4 500 50
                    (RotateAbsolute 7 500 0 (Enable MyStepper)))))
    as (Hres & Ha & _).
  - reflexivity.
  - vm_compute. split; discriminate.
  - vm_compute. split; discriminate.
  - vm_compute. split; discriminate.
  - vm_compute. split; discriminate.
  - reflexivity.
  - apply prompt_all_clear.
  - split; [exact Hres | exact Ha].
Defined.

(** X4.  [RotateToHome] on a homed motor within its limits, the limits
    having zero between them: driven by [Run] as in X3, the motor ends
    [MS_ENABLED] at position 0 after one [OKAY] per step and a
    [RUN_COMPLETE]. *)
Theorem RotateToHome_reaches_home :
  forall (m : StepperMotor) (now : Z) (bs : list Board),
    Homed m = true ->
    Long.in_range (AbsolutePosition m) ->
    LowerLimit m <= AbsolutePosition m <= UpperLimit m ->
    LowerLimit m <= 0 <= UpperLimit m ->
    length bs = S (Z.abs_nat (AbsolutePosition m)) ->
    all_clear bs (RotateToHome now m) ->
    fst (poll bs (RotateToHome now m))
    = repeat OKAY (Z.abs_nat (AbsolutePosition m)) ++ [RUN_COMPLETE]
    /\ AbsolutePosition (snd (poll bs (RotateToHome now m))) = 0
    /\ State (snd (poll bs (RotateToHome now m))) = MS_ENABLED.
Proof.
  intros m now bs Hh Hra Hin Hz Hlen Hc.
  destruct (RotateToHome_fields now m)
    as (H1 & H2 & H3 & H4 & H5 & H6 & H7 & H8).
  replace (Z.abs_nat (AbsolutePosition m))
    with (Z.abs_nat (0 - AbsolutePosition m)) in * by lia.
  destruct (started_reaches_target (RotateToHome now m)
              (AbsolutePosition m) 0) with (bs := bs)
    as (Hres & Ha & _ & Hs); try congruence.
  - unfold Long.in_range, Long.MIN, Long.MAX. lia.
  - repeat split; assumption.
Qed.

Lemma RotateToHome_reaches_home_witness :
  let m := snd (poll (prompt 3 (RotateAbsolute (-9) 500 0 (Enable MyStepper)))
                  (RotateAbsolute (-9) 500 0 (Enable MyStepper))) in
  AbsolutePosition m = -3
  /\ fst (poll (prompt 4 (RotateToHome 7 m)) (RotateToHome 7 m))
     = [OKAY; OKAY; OKAY; RUN_COMPLETE]
  /\ AbsolutePosition
       (snd (poll (prompt 4 (RotateToHome 7 m)) (RotateToHome 7 m))) = 0.
Proof.
  cbv zeta. split; [reflexivity|].
  destruct (RotateToHome_reaches_home
              (snd (poll
                      (prompt 3
                         (RotateAbsolute (-9) 500 0 (Enable MyStepper)))
                      (RotateAbsolute (-9) 500 0 (Enable MyStepper))))
              7
              (prompt 4
                 (RotateToHome 7
                    (snd (poll
                            (prompt 3
                               (RotateAbsolute (-9) 500 0
                                  (Enable MyStepper)))
                            (RotateAbsolute (-9) 500 0
                               (Enable MyStepper)))))))
    as (Hres & Ha & _).
  - reflexivity.
  - vm_compute. split; discriminate.
  - vm_compute. split; discriminate.
  - vm_compute. split; discriminate.
  - reflexivity.
  - apply prompt_all_clear.
  - split; [exact Hres | exact Ha].
Defined.

(** X5.  [RotateToLowerLimit] and [RotateToUpperLimit] on a homed motor
    within its limits: driven by [Run] as in X3, the motor ends
    [MS_ENABLED] exactly at [LowerLimit] (at [UpperLimit]), and the last
    call returns [RUN_COMPLETE], not a range error: the limits themselves
    can be reached. *)
Theorem RotateToLimit_reaches_limit :
  forall (m : StepperMotor) (now : Z) (bs : list Board),
    Homed m = true ->
    Long.in_range (AbsolutePosition m) ->
    LowerLimit m <= AbsolutePosition m <= UpperLimit m ->
    (Long.in_range (LowerLimit m) ->
     length bs = S (Z.abs_nat (AbsolutePosition m - LowerLimit m)) ->
     all_clear bs (RotateToLowerLimit now m) ->
     fst (poll bs (RotateToLowerLimit now m))
     = repeat OKAY (Z.abs_nat (AbsolutePosition m - LowerLimit m))
       ++ [RUN_COMPLETE]
     /\ AbsolutePosition (snd (poll bs (RotateToLowerLimit now m)))
        = LowerLimit m
     /\ State (snd (poll bs (RotateToLowerLimit now m))) = MS_ENABLED)
    /\ (Long.in_range (UpperLimit m) ->
        length bs = S (Z.abs_nat (UpperLimit m - AbsolutePosition m)) ->
        all_clear bs (RotateToUpperLimit now m) ->
        fst (poll bs (RotateToUpperLimit now m))
        = repeat OKAY (Z.abs_nat (UpperLimit m - AbsolutePosition m))
          ++ [RUN_COMPLETE]
        /\ AbsolutePosition (snd (poll bs (RotateToUpperLimit now m)))
           = UpperLimit m
        /\ State (snd (poll bs (RotateToUpperLimit now m))) = MS_ENABLED).
Proof.
  intros m now bs Hh Hra Hin. split; intros Hrl Hlen Hc.
  - destruct (RotateToLowerLimit_fields now m)
      as (H1 & H2 & H3 & H4 & H5 & H6 & H7 & H8).
    replace (Z.abs_nat (AbsolutePosition m - LowerLimit m))
      with (Z.abs_nat (LowerLimit m - AbsolutePosition m)) in * by lia.
    destruct (started_reaches_target (RotateToLowerLimit now m)
                (AbsolutePosition m) (LowerLimit m)) with (bs := bs)
      as (Hres & Ha & _ & Hs); try congruence.
    + rewrite H6, H7. lia.
    + repeat split; assumption.
  - destruct (RotateToUpperLimit_fields now m)
      as (H1 & H2 & H3 & H4 & H5 & H6 & H7 & H8).
    destruct (started_reaches_target (RotateToUpperLimit now m)
                (AbsolutePosition m) (UpperLimit m)) with (bs := bs)
      as (Hres & Ha & _ & Hs); try congruence.
    + rewrite H6, H7. lia.
    + repeat split; assumption.
Qed.

Lemma RotateToLimit_reaches_limit_witness :
  let m := SetUpperLimit 3 (Enable MyStepper) in
  fst (poll (prompt 4 (RotateToUpperLimit 0 m)) (RotateToUpperLimit 0 m))
  = [OKAY; OKAY; OKAY; RUN_COMPLETE]
  /\ AbsolutePosition
       (snd (poll (prompt 4 (RotateToUpperLimit 0 m))
               (RotateToUpperLimit 0 m))) = 3.
Proof.
  cbv zeta.
  destruct (RotateToLimit_reaches_limit (SetUpperLimit 3 (Enable MyStepper))
              0
              (prompt 4
                 (RotateToUpperLimit 0 (SetUpperLimit 3 (Enable MyStepper)))))
    as [_ Hup].
  - reflexivity.
  - vm_compute. split; discriminate.
  - vm_compute. split; discriminate.
  - destruct Hup as (Hres & Ha & _).
    + vm_compute. split; discriminate.
    + reflexivity.
    + apply prompt_all_clear.
    + split; [exact Hres | exact Ha].
Defined.

(** X6.  The soft limits stop a rotation at the limit.  [RotateAbsolute]
    on a homed motor within its limits to a target below [LowerLimit]:
    driven by [Run] as in X3, the motor steps down to [LowerLimit], the
    next call returns [RANGE_ERROR_LOWER], and the motor is [MS_ENABLED]
    at [LowerLimit].  Likewise with a target above [UpperLimit] and
    [RANGE_ERROR_UPPER]. *)
Theorem RotateAbsolute_stops_at_limit :
  forall (m : StepperMotor) (p v now : Z) (bs : list Board),
    Homed m = true ->
    Long.in_range (AbsolutePosition m) ->
    Long.in_range p ->
    LowerLimit m <= AbsolutePosition m <= UpperLimit m ->
    all_clear bs (RotateAbsolute p v now m) ->
    (p < LowerLimit m ->
     length bs = S (Z.abs_nat (AbsolutePosition m - LowerLimit m)) ->
     fst (poll bs (RotateAbsolute p v now m))
     = repeat OKAY (Z.abs_nat (AbsolutePosition m - LowerLimit m))
       ++ [RANGE_ERROR_LOWER]
     /\ AbsolutePosition (snd (poll bs (RotateAbsolute p v now m)))
        = LowerLimit m
     /\ State (snd (poll bs (RotateAbsolute p v now m))) = MS_ENABLED)
    /\ (UpperLimit m < p ->
        length bs = S (Z.abs_nat (UpperLimit m - AbsolutePosition m)) ->
        fst (poll bs (RotateAbsolute p v now m))
        = repeat OKAY (Z.abs_nat (UpperLimit m - AbsolutePosition m))
          ++ [RANGE_ERROR_UPPER]
        /\ AbsolutePosition (snd (poll bs (RotateAbsolute p v now m)))
           = UpperLimit m
        /\ State (snd (poll bs (RotateAbsolute p v now m))) = MS_ENABLED).
Proof.
  intros m p v now bs Hh Hra Hrp Hin Hc.
  destruct (RotateAbsolute_fields p v now m)
    as (H1 & H2 & H3 & H4 & H5 & H6 & H7 & H8).
  split; intros Hout Hlen.
  - rewrite <- H6 in *.
    destruct (started_stops_at_lower (RotateAbsolute p v now m)
                (AbsolutePosition m) p) with (bs := bs)
      as (Hres & Ha & _ & Hs); try congruence.
    repeat split; assumption.
  - rewrite <- H7 in *.
    destruct (started_stops_at_upper (RotateAbsolute p v now m)
                (AbsolutePosition m) p) with (bs := bs)
      as (Hres & Ha & _ & Hs); try congruence.
    repeat split; assumption.
Qed.

Lemma RotateAbsolute_stops_at_limit_witness :
  let m := SetLowerLimit (-2) (Enable MyStepper) in
  let m0 := RotateAbsolute (-2000) 500 0 m in
  fst (poll (prompt 3 m0) m0) = [OKAY; OKAY; RANGE_ERROR_LOWER]
  /\ AbsolutePosition (snd (poll (prompt 3 m0) m0)) = -2.
Proof.
  cbv zeta.
  destruct (RotateAbsolute_stops_at_limit
              (SetLowerLimit (-2) (Enable MyStepper)) (-2000) 500 0
              (prompt 3
                 (RotateAbsolute (-2000) 500 0
                    (SetLowerLimit (-2) (Enable MyStepper)))))
    as [Hlow _].
  - reflexivity.
  - vm_compute. split; discriminate.
  - vm_compute. split; discriminate.
  - vm_compute. split; discriminate.
  - apply prompt_all_clear.
  - destruct Hlow as (Hres & Ha & _).
    + vm_compute. reflexivity.
    + reflexivity.
    + split; [exact Hres | exact Ha].
Defined.

(** ** Invariants of the state machine *)

Lemma Run_state :
  forall b m,
    State (snd (Run b m)) = State m
    \/ Homed m = true /\ State m = MS_RUNNING
       /\ State (snd (Run b m)) = MS_ENABLED.
Proof.
  intros b m. run_cases b m;
    try (left; first [reflexivity | apply (stepped_fields m)]);
    right;
    match goal with Hd : due b m |- _ => destruct Hd as (Hh & Hs & _) end;
    (split; [exact Hh|]); (split; [exact Hs|]); destruct m; reflexivity.
Qed.

Lemma SetRamp_increment :
  forall ramp m,
    0 <= ramp <= 9 ->
    VelocityIncrement (SetRamp ramp m) = increment_of ramp.
Proof.
  intros ramp m Hr. unfold SetRamp, increment_of.
  destruct ((ramp >=? 0) && (ramp <=? 9)) eqn:E.
  2:{ apply andb_false_iff in E. destruct E; to_Z; lia. }
  destruct (ramp =? 0) eqn:E0; [destruct m; reflexivity|]. to_Z.
  assert (Hm : Long.mul RampScale (Long.sub 10 ramp) = RampScale * (10 - ramp)).
  { rewrite (sub_exact 10 ramp)
      by (unfold Long.in_range, Long.MIN, Long.MAX; lia).
    apply mul_exact. unfold Long.in_range, Long.MIN, Long.MAX, RampScale.
    lia. }
  rewrite Hm. destruct m; reflexivity.
Qed.

Lemma perform_pins : forall c m, pins_of (perform c m) = pins_of m.
Proof.
  intros c m. unfold pins_of. destruct c; cbn [perform].
  - destruct (Run_same_plan b m)
      as (_ & _ & _ & _ & _ & _ & _ & _ & _ & _ & _ & H1 & H2 & H3 & H4 & H5).
    congruence.
  - destruct m; reflexivity.
  - destruct m; reflexivity.
  - destruct (Z_lt_ge_dec (LLSwitchPin m) 0) as [Hn|Hp].
    + rewrite FindHome_without_switch by assumption. reflexivity.
    + destruct (FindHome_with_switch seek backoff m) as [io Hio]; [lia|].
      rewrite Hio. destruct m; reflexivity.
  - unfold SetHomePosition. break_if; destruct m; reflexivity.
  - unfold SetLowerLimit. break_if; destruct m; reflexivity.
  - unfold SetUpperLimit. break_if; destruct m; reflexivity.
  - unfold SetRamp. repeat break_if; destruct m; reflexivity.
  - open_rotate; destruct m; reflexivity.
  - open_rotate; destruct m; reflexivity.
  - open_rotate; destruct m; reflexivity.
  - open_rotate; destruct m; reflexivity.
  - open_rotate; destruct m; reflexivity.
  - destruct m; reflexivity.
  - destruct m; reflexivity.
Qed.

Lemma Constructor_consistent :
  forall e d s l u, consistent (Constructor e d s l u).
Proof.
  intros. unfold consistent, Constructor. cbn.
  split; [left; reflexivity|]. split.
  - exists 5. split; [lia|]. reflexivity.
  - split; [discriminate|discriminate].
Qed.

Lemma perform_consistent :
  forall c m, consistent m -> consistent (perform c m).
Proof.
  intros c m (Hi & Hv & He & Hh). unfold consistent.
  destruct c; cbn [perform].
  - (* Run *)
    destruct (Run_same_plan b m)
      as (H1 & _ & H3 & _ & _ & _ & _ & _ & _ & _ & H11 & _).
    rewrite H1, H3, H11.
    destruct (Run_state b m) as [Hs|(Hhm & Hs & Hs')]; rewrite ?Hs, ?Hs';
      repeat split; auto.
  - (* Enable *)
    destruct m; cbn in *. repeat split; auto.
  - (* Disable *)
    destruct m; cbn in *. repeat split; auto; discriminate.
  - (* FindHome *)
    destruct (Z_lt_ge_dec (LLSwitchPin m) 0) as [Hn|Hp].
    + rewrite FindHome_without_switch by assumption. repeat split; auto.
    + destruct (FindHome_with_switch seek backoff m) as [io Hio]; [lia|].
      rewrite Hio. destruct m; cbn in *. repeat split; auto.
  - (* SetHomePosition *)
    unfold SetHomePosition.
    destruct (MotorState_eqb (State m) MS_ENABLED) eqn:E;
      [|repeat split; auto].
    apply MotorState_eqb_eq in E. destruct m; cbn in *. repeat split; auto.
  - unfold SetLowerLimit. break_if; destruct m; cbn in *; repeat split; auto.
  - unfold SetUpperLimit. break_if; destruct m; cbn in *; repeat split; auto.
  - (* SetRamp *)
    destruct (Z_le_dec 0 ramp) as [H0|H0];
      [destruct (Z_le_dec ramp 9) as [H9|H9]|].
    + pose proof (SetRamp_increment ramp m (conj H0 H9)) as Hinc.
      assert (Hrest : StepIncrement (SetRamp ramp m) = StepIncrement m
                      /\ State (SetRamp ramp m) = State m
                      /\ Homed (SetRamp ramp m) = Homed m).
      { unfold SetRamp. repeat break_if; destruct m; repeat split. }
      destruct Hrest as (R1 & R2 & R3). rewrite R1, R2, R3.
      repeat split; auto. exists ramp. auto.
    + unfold SetRamp. destruct (ramp <=? 9) eqn:E; to_Z; [lia|].
      rewrite andb_false_r. repeat split; auto.
    + unfold SetRamp. destruct (ramp >=? 0) eqn:E; to_Z; [lia|].
      cbn. repeat split; auto.
  - open_rotate; destruct m; cbn in *; repeat split; auto; try discriminate;
      intuition.
  - open_rotate; destruct m; cbn in *; repeat split; auto; try discriminate;
      intuition.
  - open_rotate; destruct m; cbn in *; repeat split; auto; try discriminate;
      intuition.
  - open_rotate; destruct m; cbn in *; repeat split; auto; try discriminate;
      intuition.
  - open_rotate; destruct m; cbn in *; repeat split; auto; try discriminate;
      intuition.
  - (* EStop *)
    destruct m; cbn in *. repeat split; auto; discriminate.
  - (* BlinkLED *)
    destruct m; cbn in *. repeat split; auto.
Qed.

Lemma history_consistent :
  forall cs m, consistent m -> consistent (history cs m).
Proof.
  induction cs as [|c cs IH]; intros m H; [exact H|].
  cbn [history fold_left]. apply IH. apply perform_consistent. exact H.
Qed.

Lemma history_pins : forall cs m, pins_of (history cs m) = pins_of m.
Proof.
  induction cs as [|c cs IH]; intro m; [reflexivity|].
  cbn [history fold_left]. fold (history cs (perform c m)).
  rewrite IH. apply perform_pins.
Qed.

(** X7.  However a motor is used after its construction, an idle enabled
    motor is homed, and a disabled or emergency-stopped motor is not:
    [State = MS_ENABLED] implies [Homed], and [Homed] implies that [State]
    is [MS_ENABLED] or [MS_RUNNING]. *)
Theorem state_agrees_with_Homed :
  forall (enablePin directionPin stepPin llSwitchPin ulSwitchPin : Z)
         (cs : list Call),
    let m :=
      history cs
        (Constructor enablePin directionPin stepPin llSwitchPin ulSwitchPin)
    in
    (State m = MS_ENABLED -> Homed m = true)
    /\ (State m = MS_DISABLED \/ State m = MS_ESTOPPED -> Homed m = false).
Proof.
  intros e d s l u cs. cbv zeta.
  destruct (history_consistent cs _ (Constructor_consistent e d s l u))
    as (_ & _ & He & Hh).
  split; [exact He|]. intros Hs.
  destruct (Homed (history cs (Constructor e d s l u))) eqn:E;
    [|reflexivity].
  destruct (Hh eq_refl) as [H|H]; destruct Hs as [Hs|Hs]; congruence.
Qed.

(** X8.  However a motor is used after its construction, its five pin
    numbers are those given to the constructor, [StepIncrement] is 1 or -1,
    and [VelocityIncrement] is the increment of one of the ramp factors
    0 to 9: a multiple of [RampScale] between 0 and 45. *)
Theorem configuration_invariants :
  forall (enablePin directionPin stepPin llSwitchPin ulSwitchPin : Z)
         (cs : list Call),
    let m :=
      history cs
        (Constructor enablePin directionPin stepPin llSwitchPin ulSwitchPin)
    in
    pins_of m = (enablePin, directionPin, stepPin, llSwitchPin, ulSwitchPin)
    /\ (StepIncrement m = 1 \/ StepIncrement m = -1)
    /\ (exists ramp,
           0 <= ramp <= 9 /\ VelocityIncrement m = increment_of ramp)
    /\ 0 <= VelocityIncrement m <= 45.
Proof.
  intros e d s l u cs. cbv zeta.
  destruct (history_consistent cs _ (Constructor_consistent e d s l u))
    as (Hi & Hv & _ & _).
  split; [rewrite history_pins; reflexivity|].
  split; [exact Hi|]. split; [exact Hv|].
  destruct Hv as (ramp & Hr & Hv). rewrite Hv.
  unfold increment_of, RampScale. destruct (ramp =? 0) eqn:E; to_Z; lia.
Qed.

(** ** The position ledger *)

Lemma pulses_app :
  forall io1 io2, pulses (io1 ++ io2) = (pulses io1 + pulses io2)%nat.
Proof.
  induction io1 as [|ev io1 IH]; intro io2; [reflexivity|].
  destruct ev; cbn [app pulses]; rewrite IH; reflexivity.
Qed.

Lemma Run_ledger :
  forall b m,
    Gpio (snd (Run b m)) = Gpio m
    /\ AbsolutePosition (snd (Run b m)) = AbsolutePosition m
    /\ DeltaPosition (snd (Run b m)) = DeltaPosition m
    \/ Gpio (snd (Run b m)) = pulse m ++ Gpio m
       /\ AbsolutePosition (snd (Run b m))
          = Long.add (AbsolutePosition m) (StepIncrement m)
       /\ DeltaPosition (snd (Run b m))
          = Long.add (DeltaPosition m) (StepIncrement m).
Proof.
  intros b m. run_cases b m;
    first
      [ solve [left; destruct m; repeat split]
      | solve [right;
               destruct (stepped_fields m) as (Esa & Esd & _ & Esg & _);
               unfold ahead in Esa;
               split; [exact Esg | split; [exact Esa | exact Esd]]]
      | solve [right; unfold advance, ahead, doStep, pulse; destruct m; cbn;
               repeat split] ].
Qed.

Lemma poll_ledger :
  forall bs m,
    exists n : nat,
      (n <= length bs)%nat
      /\ pulses (Gpio (snd (poll bs m))) = (pulses (Gpio m) + n)%nat
      /\ Long.wrap (AbsolutePosition (snd (poll bs m)))
         = Long.wrap (AbsolutePosition m + Z.of_nat n * StepIncrement m)
      /\ Long.wrap (DeltaPosition (snd (poll bs m)))
         = Long.wrap (DeltaPosition m + Z.of_nat n * StepIncrement m).
Proof.
  induction bs as [|b bs IH]; intro m.
  - exists O. cbn [poll snd length]. split; [lia|]. split; [lia|].
    split; f_equal; cbn; ring.
  - rewrite poll_cons. cbn [snd length].
    destruct (IH (snd (Run b m))) as (n & Hn & Hp & Ha & Hd).
    destruct (Run_same_plan b m) as (_ & _ & Hi & _).
    rewrite Hi in Ha, Hd.
    destruct (Run_ledger b m) as [(Hg & Ha1 & Hd1)|(Hg & Ha1 & Hd1)].
    + exists n. rewrite Hp, Ha, Hd, Hg, Ha1, Hd1.
      split; [lia|]. repeat split.
    + exists (S n). rewrite Hp, Ha, Hd, Hg, Ha1, Hd1, pulses_app.
      split; [lia|]. split; [cbn; lia|].
      unfold Long.add. rewrite !wrap_add_l, Nat2Z.inj_succ.
      split; f_equal; ring.
Qed.

(** X9.  The position follows the pulses.  Over any sequence of calls of
    [Run], at most one pulse is emitted per call, and [AbsolutePosition] and
    [DeltaPosition] have both moved by [StepIncrement] times the number of
    pulses emitted (as [long] values). *)
Theorem position_follows_pulses :
  forall (bs : list Board) (m : StepperMotor),
    let m' := snd (poll bs m) in
    let n := (pulses (Gpio m') - pulses (Gpio m))%nat in
    (pulses (Gpio m) <= pulses (Gpio m'))%nat
    /\ (n <= length bs)%nat
    /\ Long.wrap (AbsolutePosition m')
       = Long.wrap (AbsolutePosition m + Z.of_nat n * StepIncrement m)
    /\ Long.wrap (DeltaPosition m')
       = Long.wrap (DeltaPosition m + Z.of_nat n * StepIncrement m).
Proof.
  intros bs m. cbv zeta.
  destruct (poll_ledger bs m) as (n & Hn & Hp & Ha & Hd).
  rewrite Hp.
  replace (pulses (Gpio m) + n - pulses (Gpio m))%nat with n by lia.
  split; [lia|]. split; [exact Hn|]. split; assumption.
Qed.

Lemma Run_keeps_still :
  forall b m,
    StepIncrement m = 1 \/ StepIncrement m = -1 ->
    Long.MIN < AbsolutePosition m < Long.MAX ->
    UpperLimit m + 1 < AbsolutePosition m
    \/ AbsolutePosition m < LowerLimit m - 1 ->
    AbsolutePosition (snd (Run b m)) = AbsolutePosition m
    /\ Gpio (snd (Run b m)) = Gpio m.
Proof.
  intros b m Hi Hr Hout.
  assert (Hahead : ahead m = AbsolutePosition m + StepIncrement m).
  { unfold ahead. apply add_exact.
    unfold Long.in_range, Long.MIN, Long.MAX in *.
    destruct Hi as [E|E]; rewrite E; lia. }
  run_cases b m; try (split; destruct m; reflexivity);
    exfalso; destruct Hi as [E|E]; rewrite E in *; lia.
Qed.

(** X10.  A motor outside its limits by more than one step cannot be moved
    by [Run]: with [StepIncrement] 1 or -1 and [AbsolutePosition] above
    [UpperLimit + 1] (or below [LowerLimit - 1]), no call of [Run] emits a
    pulse or changes the position, whichever way the rotation heads. *)
Theorem Run_frozen_outside_limits :
  forall (bs : list Board) (m : StepperMotor),
    StepIncrement m = 1 \/ StepIncrement m = -1 ->
    Long.MIN < AbsolutePosition m < Long.MAX ->
    UpperLimit m + 1 < AbsolutePosition m
    \/ AbsolutePosition m < LowerLimit m - 1 ->
    AbsolutePosition (snd (poll bs m)) = AbsolutePosition m
    /\ Gpio (snd (poll bs m)) = Gpio m.
Proof.
  induction bs as [|b bs IH]; intros m Hi Hr Hout; [split; reflexivity|].
  rewrite poll_cons. cbn [snd].
  destruct (Run_keeps_still b m Hi Hr Hout) as [Ha Hg].
  destruct (Run_same_plan b m) as (_ & _ & Hi' & Hl & Hu & _).
  destruct (IH (snd (Run b m))) as [Ha' Hg']; try congruence.
  split; congruence.
Qed.

Lemma Run_frozen_outside_limits_witness :
  let m :=
    snd (poll (prompt 6 (RotateAbsolute 5 500 0 (Enable MyStepper)))
           (RotateAbsolute 5 500 0 (Enable MyStepper))) in
  let m0 := RotateToHome 0 (SetUpperLimit 2 m) in
  AbsolutePosition m = 5
  /\ fst (poll (prompt 2 m0) m0) = [RANGE_ERROR_UPPER; OKAY]
  /\ AbsolutePosition (snd (poll (prompt 2 m0) m0)) = 5.
Proof.
  cbv zeta. split; [reflexivity|]. split; [reflexivity|].
  apply (Run_frozen_outside_limits
           (prompt 2
              (RotateToHome 0
                 (SetUpperLimit 2
                    (snd (poll
                            (prompt 6
                               (RotateAbsolute 5 500 0 (Enable MyStepper)))
                            (RotateAbsolute 5 500 0 (Enable MyStepper)))))))
           (RotateToHome 0
              (SetUpperLimit 2
                 (snd (poll
                         (prompt 6
                            (RotateAbsolute 5 500 0 (Enable MyStepper)))
                         (RotateAbsolute 5 500 0 (Enable MyStepper))))))).
  - right. reflexivity.
  - vm_compute. split; reflexivity.
  - left. vm_compute. reflexivity.
Defined.

(** ** Motors that are not homed, [Enable] and [FindHome] *)

Lemma startRotation_Gpio :
  forall now m,
    Gpio (startRotation now m)
    = digitalWrite (DirectionPin m)
        (if TargetPosition m >=? AbsolutePosition m then LOW else HIGH)
      :: Gpio m.
Proof.
  intros now m. destruct m. unfold startRotation. cbn.
  repeat (break_if; cbn in * ); to_Z; try reflexivity; exfalso; lia.
Qed.

Lemma blink_rises_other :
  forall k LEDpin pin m,
    LEDpin <> pin ->
    rises pin (Gpio (blink k LEDpin m)) = rises pin (Gpio m)
    /\ pulses (Gpio (blink k LEDpin m)) = pulses (Gpio m).
Proof.
  induction k as [|k IH]; intros LEDpin pin m Hne; [split; reflexivity|].
  cbn [blink].
  match goal with |- context [blink k LEDpin ?x] =>
    destruct (IH LEDpin pin x Hne) as [H1 H2];
    assert (Hx : Gpio x
                 = delay 80 :: digitalWrite LEDpin LOW :: delay 20
                   :: digitalWrite LEDpin HIGH :: Gpio m)
      by (destruct m; reflexivity);
    revert H1 H2 Hx; generalize (blink k LEDpin x); generalize x
  end.
  intros x y H1 H2 Hx. rewrite Hx in H1, H2. cbn [rises pulses] in H1, H2.
  apply Z.eqb_neq in Hne. rewrite Hne in H1. split; assumption.
Qed.

(** One call on a motor that is not homed: the position stays, [doStep] is
    not run, and with the step pin wired apart from the enable and direction
    pins it is not driven HIGH. *)
Lemma perform_unhomed_still :
  forall c m,
    Homed m = false ->
    State m <> MS_ENABLED ->
    StepPin m <> EnablePin m ->
    StepPin m <> DirectionPin m ->
    harmless m c = true ->
    AbsolutePosition (perform c m) = AbsolutePosition m
    /\ pulses (Gpio (perform c m)) = pulses (Gpio m)
    /\ rises (StepPin m) (Gpio (perform c m)) = rises (StepPin m) (Gpio m).
Proof.
  intros c m Hh Hs Hse Hsd Hc.
  unfold harmless in Hc. apply andb_true_iff in Hc. destruct Hc as [Hc Hbl].
  apply negb_true_iff in Hc. apply negb_true_iff in Hbl.
  assert (Hne : MotorState_eqb (State m) MS_ENABLED = false).
  { destruct (MotorState_eqb (State m) MS_ENABLED) eqn:E; [|reflexivity].
    apply MotorState_eqb_eq in E. contradiction. }
  assert (He : (EnablePin m =? StepPin m) = false)
    by (apply Z.eqb_neq; congruence).
  assert (Hd : (DirectionPin m =? StepPin m) = false)
    by (apply Z.eqb_neq; congruence).
  assert (Hrot : forall now x,
             AbsolutePosition x = AbsolutePosition m ->
             DirectionPin x = DirectionPin m ->
             Gpio x = Gpio m ->
             AbsolutePosition (startRotation now x) = AbsolutePosition m
             /\ pulses (Gpio (startRotation now x)) = pulses (Gpio m)
             /\ rises (StepPin m) (Gpio (startRotation now x))
                = rises (StepPin m) (Gpio m)).
  { intros now x Ha Hp Hg. rewrite startRotation_Gpio, Hg, Hp.
    destruct (startRotation_fields now x) as (_ & _ & _ & Ha' & _).
    rewrite Ha', Ha.
    destruct (_ >=? _); cbn [pulses rises]; rewrite ?Hd; repeat split. }
  destruct c; cbn [runs_Enable] in Hc; try discriminate Hc;
    cbn [perform blinks] in Hbl |- *.
  - rewrite Run_not_homed by assumption. repeat split.
  - replace (Gpio (Disable m))
      with (digitalWrite (EnablePin m) HIGH :: Gpio m)
      by (destruct m; reflexivity).
    cbn [pulses rises]. rewrite He. destruct m; repeat split.
  - to_Z. rewrite FindHome_without_switch by lia. repeat split.
  - unfold SetHomePosition. rewrite Hne. repeat split.
  - unfold SetLowerLimit. break_if; destruct m; repeat split.
  - unfold SetUpperLimit. break_if; destruct m; repeat split.
  - unfold SetRamp. repeat break_if; destruct m; repeat split.
  - unfold RotateAbsolute. apply Hrot; destruct m; reflexivity.
  - unfold RotateRelative. break_if; [|repeat split].
    apply Hrot; destruct m; reflexivity.
  - unfold RotateToHome. apply Hrot; destruct m; reflexivity.
  - unfold RotateToLowerLimit. apply Hrot; destruct m; reflexivity.
  - unfold RotateToUpperLimit. apply Hrot; destruct m; reflexivity.
  - replace (Gpio (EStop m))
      with (digitalWrite (EnablePin m) HIGH
            :: digitalWrite (StepPin m) LOW :: Gpio m)
      by (destruct m; reflexivity).
    cbn [pulses rises]. rewrite He. destruct m; repeat split.
  - apply Z.eqb_neq in Hbl. unfold BlinkLED.
    destruct (blink_rises_other 10 LEDpin (StepPin m)
                (emit (pinMode LEDpin OUTPUT) m) Hbl) as [H1 H2].
    rewrite H1, H2.
    assert (Hb : forall k x, AbsolutePosition (blink k LEDpin x)
                             = AbsolutePosition x).
    { induction k as [|k IH]; intro x; [reflexivity|].
      cbn [blink]. rewrite IH. destruct x; reflexivity. }
    rewrite Hb. destruct m; repeat split.
Qed.

Lemma history_unhomed_still :
  forall cs m0 m,
    pins_of m = pins_of m0 ->
    Homed m = false ->
    State m <> MS_ENABLED ->
    StepPin m0 <> EnablePin m0 ->
    StepPin m0 <> DirectionPin m0 ->
    forallb (harmless m0) cs = true ->
    AbsolutePosition (history cs m) = AbsolutePosition m
    /\ pulses (Gpio (history cs m)) = pulses (Gpio m)
    /\ rises (StepPin m0) (Gpio (history cs m))
       = rises (StepPin m0) (Gpio m).
Proof.
  induction cs as [|c cs IH]; intros m0 m Hpins Hh Hs Hse Hsd Hcs;
    [repeat split|].
  cbn [forallb] in Hcs. apply andb_true_iff in Hcs. destruct Hcs as [Hc Hcs].
  assert (Hp := Hpins). unfold pins_of in Hp.
  injection Hp as Hpe Hpd Hps Hpl Hpu.
  assert (Hc' : harmless m c = true).
  { unfold harmless in *. rewrite Hps.
    rewrite (runs_Enable_pin m m0 c Hpl). exact Hc. }
  assert (Hrun : runs_Enable m c = false).
  { unfold harmless in Hc'. apply andb_true_iff in Hc'.
    destruct Hc' as [Hr _]. apply negb_true_iff in Hr. exact Hr. }
  destruct (perform_stays_unhomed c m Hh Hs Hrun) as (Hh' & Hs' & _).
  destruct (perform_unhomed_still c m Hh Hs) as (Ha & Hpu' & Hr);
    [congruence | congruence | exact Hc' |].
  assert (Hpins' : pins_of (perform c m) = pins_of m0)
    by (rewrite perform_pins; exact Hpins).
  destruct (IH m0 (perform c m) Hpins' Hh' Hs' Hse Hsd Hcs)
    as (Ha' & Hp' & Hr').
  change (history (c :: cs) m) with (history cs (perform c m)).
  rewrite Hps in Hr. split; [congruence|]. split; congruence.
Qed.

(** X11.  A motor that is not homed stays where it is.  From a state with
    [Homed] false and [State] other than [MS_ENABLED] (as [Disable],
    [EStop] and the constructor leave it), with the step pin wired apart
    from the enable and direction pins, whatever is called that does not
    run [Enable] and does not blink the step pin: [Homed] stays false,
    [AbsolutePosition] does not change, [doStep] is never run, and the step
    pin is never driven HIGH, so the driver sees no step pulse. *)
Theorem unhomed_motor_stays_put :
  forall (cs : list Call) (m : StepperMotor),
    Homed m = false ->
    State m <> MS_ENABLED ->
    StepPin m <> EnablePin m ->
    StepPin m <> DirectionPin m ->
    forallb (harmless m) cs = true ->
    Homed (history cs m) = false
    /\ AbsolutePosition (history cs m) = AbsolutePosition m
    /\ pulses (Gpio (history cs m)) = pulses (Gpio m)
    /\ rises (StepPin m) (Gpio (history cs m)) = rises (StepPin m) (Gpio m).
Proof.
  intros cs m Hh Hs Hse Hsd Hcs.
  split.
  - apply (history_stays_unhomed cs m m); auto.
    clear - Hcs. induction cs as [|c cs IH]; [reflexivity|].
    cbn [forallb] in Hcs |- *. apply andb_true_iff in Hcs.
    destruct Hcs as [Hc Hcs]. unfold harmless in Hc.
    apply andb_true_iff in Hc. destruct Hc as [Hc _].
    rewrite Hc. cbn [andb]. apply IH. exact Hcs.
  - apply (history_unhomed_still cs m m); auto.
Qed.

Lemma unhomed_motor_stays_put_witness :
  let m := EStop (Enable MyStepper) in
  let cs := [CallRotateAbsolute 100 500 0; CallRun (board_at 10000);
             CallSetHomePosition; CallFindHome 5 5; CallBlinkLED 13;
             CallRotateToHome 0; CallRun (board_at 20000); CallDisable;
             CallBlinkLED 2; CallEStop] in
  Homed (history cs m) = false
  /\ AbsolutePosition (history cs m) = AbsolutePosition m
  /\ pulses (Gpio (history cs m)) = pulses (Gpio m)
  /\ rises (StepPin m) (Gpio (history cs m)) = rises (StepPin m) (Gpio m).
Proof.
  apply (unhomed_motor_stays_put
           [CallRotateAbsolute 100 500 0; CallRun (board_at 10000);
            CallSetHomePosition; CallFindHome 5 5; CallBlinkLED 13;
            CallRotateToHome 0; CallRun (board_at 20000); CallDisable;
            CallBlinkLED 2; CallEStop]
           (EStop (Enable MyStepper))).
  - reflexivity.
  - vm_compute. discriminate.
  - vm_compute. discriminate.
  - vm_compute. discriminate.
  - vm_compute. reflexivity.
Defined.

Lemma poll_idle :
  forall bs m,
    State m <> MS_RUNNING ->
    poll bs m = (repeat OKAY (length bs), m).
Proof.
  induction bs as [|b bs IH]; intros m Hs; [reflexivity|].
  assert (E : Run b m = (OKAY, m)).
  { unfold Run. destruct (Homed m); cbn [andb]; [|reflexivity].
    destruct (MotorState_eqb (State m) MS_RUNNING) eqn:E; [|reflexivity].
    apply MotorState_eqb_eq in E. contradiction. }
  cbn [poll]. rewrite E, (IH m Hs). reflexivity.
Qed.

(** X12.  [Enable] re-homes the motor wherever it is and cancels a rotation
    under way without a report: whatever the state before, the motor is
    then homed at position 0 with [DeltaPosition] 0 in state [MS_ENABLED],
    the only pin written is the enable pin (LOW), and every later [Run]
    returns [OKAY] and leaves the motor as it is, so the cancelled rotation
    never reports [RUN_COMPLETE]. *)
Theorem Enable_rehomes_and_cancels :
  forall (m : StepperMotor) (bs : list Board),
    State (Enable m) = MS_ENABLED
    /\ Homed (Enable m) = true
    /\ AbsolutePosition (Enable m) = 0
    /\ DeltaPosition (Enable m) = 0
    /\ Gpio (Enable m) = digitalWrite (EnablePin m) LOW :: Gpio m
    /\ poll bs (Enable m) = (repeat OKAY (length bs), Enable m).
Proof.
  intros m bs.
  assert (Hs : State (Enable m) = MS_ENABLED) by (destruct m; reflexivity).
  split; [exact Hs|].
  split; [destruct m; reflexivity|].
  split; [destruct m; reflexivity|].
  split; [destruct m; reflexivity|].
  split; [destruct m; reflexivity|].
  apply poll_idle. rewrite Hs. discriminate.
Qed.

Lemma concat_repeat_comm :
  forall (A : Type) (x : list A) (k : nat),
    concat (repeat x k) ++ x = x ++ concat (repeat x k).
Proof.
  intros A x k. induction k as [|k IH]; cbn [repeat concat].
  - rewrite app_nil_r. reflexivity.
  - rewrite <- app_assoc, IH. reflexivity.
Qed.

Lemma stepAndWait_Gpio :
  forall k ms m,
    Gpio (stepAndWait k ms m)
    = concat (repeat (delay ms :: pulse m) k) ++ Gpio m.
Proof.
  induction k as [|k IH]; intros ms m; cbn [stepAndWait]; [reflexivity|].
  rewrite IH.
  replace (pulse (emit (delay ms) (doStep m))) with (pulse m)
    by (destruct m; reflexivity).
  replace (Gpio (emit (delay ms) (doStep m)))
    with ((delay ms :: pulse m) ++ Gpio m) by (destruct m; reflexivity).
  rewrite app_assoc, concat_repeat_comm, <- app_assoc. reflexivity.
Qed.

Lemma stepTimes_Gpio :
  forall k m,
    Gpio (stepTimes k m) = concat (repeat (pulse m) k) ++ Gpio m.
Proof.
  induction k as [|k IH]; intro m; cbn [stepTimes]; [reflexivity|].
  rewrite IH.
  replace (pulse (doStep m)) with (pulse m) by (destruct m; reflexivity).
  replace (Gpio (doStep m)) with (pulse m ++ Gpio m)
    by (destruct m; reflexivity).
  rewrite app_assoc, concat_repeat_comm, <- app_assoc. reflexivity.
Qed.

Lemma pulses_repeat :
  forall (x : list PinEvent) (k : nat),
    pulses (concat (repeat x k)) = (k * pulses x)%nat.
Proof.
  intros x k. induction k as [|k IH]; [reflexivity|].
  cbn [repeat concat]. rewrite pulses_app, IH. reflexivity.
Qed.

(** X13.  [FindHome] on a motor with a lower limit switch.  When the switch
    reads HIGH [seek] times and then LOW [backoff] times before it reads
    HIGH again, the method writes exactly [homing_log]: it enables the
    driver, steps [seek] times towards the switch, [backoff] times away
    from it and ten times more, [seek + backoff + 10] pulses in all, and
    only then takes the place reached as home: the motor ends homed in
    state [MS_ENABLED] with both positions 0. *)
Theorem FindHome_homes_past_the_switch :
  forall (seek backoff : nat) (m : StepperMotor),
    0 <= LLSwitchPin m ->
    Gpio (FindHome seek backoff m) = homing_log seek backoff m ++ Gpio m
    /\ pulses (Gpio (FindHome seek backoff m))
       = (seek + backoff + 10 + pulses (Gpio m))%nat
    /\ Homed (FindHome seek backoff m) = true
    /\ State (FindHome seek backoff m) = MS_ENABLED
    /\ AbsolutePosition (FindHome seek backoff m) = 0
    /\ DeltaPosition (FindHome seek backoff m) = 0.
Proof.
  intros seek backoff m Hpin.
  assert (Hlog : Gpio (FindHome seek backoff m)
                 = homing_log seek backoff m ++ Gpio m).
  { unfold FindHome. destruct (LLSwitchPin m >=? 0) eqn:E; to_Z; [|lia].
    cbv zeta.
    match goal with |- Gpio (SetHomePosition ?x) = _ =>
      replace (Gpio (SetHomePosition x)) with (Gpio x)
        by (unfold SetHomePosition; break_if; destruct x; reflexivity) end.
    rewrite stepTimes_Gpio.
    match goal with |- context [stepAndWait backoff 50 ?x] =>
      destruct (stepAndWait_log backoff 50 x) as [io2 H2];
      replace (pulse (stepAndWait backoff 50 x)) with (pulse x)
        by (rewrite H2; destruct x; reflexivity);
      rewrite (stepAndWait_Gpio backoff 50 x) end.
    match goal with |- context [stepAndWait seek 5 ?x] =>
      destruct (stepAndWait_log seek 5 x) as [io1 H1];
      replace (DirectionPin (stepAndWait seek 5 x)) with (DirectionPin x)
        by (rewrite H1; destruct x; reflexivity);
      replace (pulse (emit (digitalWrite (DirectionPin x) LOW)
                        (stepAndWait seek 5 x))) with (pulse x)
        by (rewrite H1; destruct x; reflexivity);
      replace (Gpio (emit (digitalWrite (DirectionPin x) LOW)
                        (stepAndWait seek 5 x)))
        with (digitalWrite (DirectionPin x) LOW :: Gpio (stepAndWait seek 5 x))
        by (rewrite H1; destruct x; reflexivity);
      rewrite (stepAndWait_Gpio seek 5 x) end.
    unfold homing_log. destruct m. cbn [Enable emit SetHomePosition].
    unfold Enable, SetHomePosition, emit, pulse. cbn.
    repeat first [rewrite <- app_assoc | progress cbn [app]]. reflexivity. }
  split; [exact Hlog|].
  split.
  { rewrite Hlog. unfold homing_log.
    repeat (rewrite ?pulses_app, ?pulses_repeat; cbn [pulses pulse app]).
    lia. }
  destruct (FindHome_with_switch seek backoff m Hpin) as [io Hio].
  rewrite Hio. destruct m. repeat split; reflexivity.
Qed.

Lemma FindHome_homes_past_the_switch_witness :
  let m := Constructor 2 3 4 5 (-1) in
  Gpio (FindHome 3 2 m) = homing_log 3 2 m ++ Gpio m
  /\ pulses (Gpio (FindHome 3 2 m)) = (3 + 2 + 10 + pulses (Gpio m))%nat
  /\ Homed (FindHome 3 2 m) = true
  /\ State (FindHome 3 2 m) = MS_ENABLED
  /\ AbsolutePosition (FindHome 3 2 m) = 0
  /\ DeltaPosition (FindHome 3 2 m) = 0.
Proof.
  apply (FindHome_homes_past_the_switch 3 2 (Constructor 2 3 4 5 (-1))).
  vm_compute. discriminate.
Defined.

(** ** [RotateRelative] from any position *)

Lemma RotateRelative_fields :
  forall n v now m,
    n <> 0 ->
    Homed (RotateRelative n v now m) = Homed m
    /\ State (RotateRelative n v now m) = MS_RUNNING
    /\ TargetPosition (RotateRelative n v now m)
       = Long.add (AbsolutePosition m) n
    /\ AbsolutePosition (RotateRelative n v now m) = AbsolutePosition m
    /\ DeltaPosition (RotateRelative n v now m) = 0
    /\ LowerLimit (RotateRelative n v now m) = LowerLimit m
    /\ UpperLimit (RotateRelative n v now m) = UpperLimit m
    /\ (StepIncrement (RotateRelative n v now m) = 1
        /\ AbsolutePosition m <= Long.add (AbsolutePosition m) n
        \/ StepIncrement (RotateRelative n v now m) = -1
           /\ Long.add (AbsolutePosition m) n < AbsolutePosition m).
Proof.
  intros n v now m Hn. unfold RotateRelative.
  destruct (n =? 0) eqn:E; to_Z; [contradiction|]. cbn [negb].
  rotate_fields now m.
Qed.

(** X14.  [RotateRelative] by [n <> 0] steps on a homed motor, from any
    position within the limits to a position [AbsolutePosition + n] within
    the limits, whatever state the motor was in: when every call of [Run]
    finds its step time reached and no limit switch asserted, the calls
    return [OKAY] once per step and then [RUN_COMPLETE], and the motor is
    [MS_ENABLED], [n] steps from where it was, with [DeltaPosition] equal
    to [n]. *)
Theorem RotateRelative_moves_by :
  forall (m : StepperMotor) (n v now : Z) (bs : list Board),
    n <> 0 ->
    Homed m = true ->
    Long.in_range (AbsolutePosition m) ->
    Long.in_range n ->
    Long.in_range (AbsolutePosition m + n) ->
    LowerLimit m <= AbsolutePosition m <= UpperLimit m ->
    LowerLimit m <= AbsolutePosition m + n <= UpperLimit m ->
    length bs = S (Z.abs_nat n) ->
    all_clear bs (RotateRelative n v now m) ->
    fst (poll bs (RotateRelative n v now m))
    = repeat OKAY (Z.abs_nat n) ++ [RUN_COMPLETE]
    /\ AbsolutePosition (snd (poll bs (RotateRelative n v now m)))
       = AbsolutePosition m + n
    /\ DeltaPosition (snd (poll bs (RotateRelative n v now m))) = n
    /\ State (snd (poll bs (RotateRelative n v now m))) = MS_ENABLED.
Proof.
  intros m n v now bs Hn Hh Hra Hrn Hrp Hin Hp Hlen Hc.
  destruct (RotateRelative_fields n v now m Hn)
    as (H1 & H2 & H3 & H4 & H5 & H6 & H7 & H8).
  rewrite (add_exact _ _ Hrp) in H3, H8.
  assert (En : AbsolutePosition m + n - AbsolutePosition m = n) by ring.
  destruct (started_reaches_target (RotateRelative n v now m)
              (AbsolutePosition m) (AbsolutePosition m + n))
    with (bs := bs) as (R1 & R2 & R3 & R4);
    try congruence;
    try (rewrite ?H6, ?H7; assumption);
    try (rewrite En; exact Hlen).
  rewrite En in R1, R3. rewrite (wrap_in_range n Hrn) in R3.
  repeat split; assumption.
Qed.

Lemma RotateRelative_moves_by_witness :
  let m := snd (poll (prompt 4 (RotateAbsolute 3 500 0 (Enable MyStepper)))
                  (RotateAbsolute 3 500 0 (Enable MyStepper))) in
  let m0 := RotateRelative (-5) 500 90000 m in
  AbsolutePosition m = 3
  /\ fst (poll (prompt 6 m0) m0)
     = [OKAY; OKAY; OKAY; OKAY; OKAY; RUN_COMPLETE]
  /\ AbsolutePosition (snd (poll (prompt 6 m0) m0)) = -2
  /\ DeltaPosition (snd (poll (prompt 6 m0) m0)) = -5.
Proof.
  cbv zeta. split; [reflexivity|].
  destruct (RotateRelative_moves_by
              (snd (poll (prompt 4 (RotateAbsolute 3 500 0 (Enable MyStepper)))
                      (RotateAbsolute 3 500 0 (Enable MyStepper))))
              (-5) 500 90000
              (prompt 6
                 (RotateRelative (-5) 500 90000
                    (snd (poll (prompt 4
                                  (RotateAbsolute 3 500 0 (Enable MyStepper)))
                            (RotateAbsolute 3 500 0 (Enable MyStepper)))))))
    as (Hres & Ha & Hd & _).
  - discriminate.
  - reflexivity.
  - vm_compute. split; discriminate.
  - vm_compute. split; discriminate.
  - vm_compute. split; discriminate.
  - vm_compute. split; discriminate.
  - vm_compute. split; discriminate.
  - reflexivity.
  - apply prompt_all_clear.
  - split; [exact Hres | split; [exact Ha | exact Hd]].
Defined.

(** ** The step schedule at constant speed *)

Lemma uwrap_add_l :
  forall x y, Long.uwrap (Long.uwrap x + y) = Long.uwrap (x + y).
Proof. intros x y. unfold Long.uwrap. apply Zplus_mod_idemp_l. Qed.

Lemma uwrap_idem : forall x, Long.uwrap (Long.uwrap x) = Long.uwrap x.
Proof.
  intro x. unfold Long.uwrap, Long.modulus. apply Z.mod_mod. discriminate.
Qed.

Lemma step_period_bounds : forall v, 0 <= step_period v <= 1000000.
Proof.
  intro v. unfold step_period. destruct (v >? 0) eqn:E; to_Z; [|lia].
  split; [apply Z.quot_pos; lia|].
  destruct (Z.eq_dec v 1) as [->|Hv]; [rewrite Z.quot_1_r; lia|].
  pose proof (Z.quot_lt 1000000 v ltac:(lia) ltac:(lia)). lia.
Qed.

Lemma step_period_zero :
  forall v, step_period v = 0 <-> v <= 0 \/ 1000000 < v.
Proof.
  intro v. unfold step_period. destruct (v >? 0) eqn:E; to_Z.
  - rewrite Z.quot_small_iff by lia. lia.
  - split; intros; lia.
Qed.

(** One call of [Run] on a motor without a ramp. *)
Lemma Run_constant_speed :
  forall b m,
    VelocityIncrement m = 0 ->
    Long.in_range (Velocity m) ->
    Velocity (snd (Run b m)) = Velocity m
    /\ (pulses (Gpio (snd (Run b m))) = pulses (Gpio m)
        /\ NextStepMicros (snd (Run b m)) = NextStepMicros m
        \/ pulses (Gpio (snd (Run b m))) = S (pulses (Gpio m))
           /\ (State (snd (Run b m)) = MS_RUNNING ->
               Long.uwrap (NextStepMicros (snd (Run b m)))
               = Long.uwrap (NextStepMicros m + step_period (Velocity m)))).
Proof.
  intros b m Hvi Hv.
  assert (Hadj : forall x,
             Velocity x = Velocity m -> VelocityIncrement x = 0 ->
             NextStepMicros x = NextStepMicros m ->
             Velocity (scheduleNext (adjustVelocity x)) = Velocity m
             /\ Long.uwrap (NextStepMicros (scheduleNext (adjustVelocity x)))
                = Long.uwrap (NextStepMicros m + step_period (Velocity m))).
  { intros x Hxv Hxi Hxn.
    assert (Hav : Velocity (adjustVelocity x) = Velocity m
                  /\ NextStepMicros (adjustVelocity x) = NextStepMicros m).
    { unfold adjustVelocity. destruct x. cbn in *. subst.
      repeat (break_if; cbn);
        unfold Long.add, Long.sub;
        rewrite ?Z.add_0_r, ?Z.sub_0_r, ?(wrap_in_range _ Hv);
        split; reflexivity. }
    destruct Hav as [Hav Han].
    revert Hav Han. generalize (adjustVelocity x). intros y Hyv Hyn.
    unfold scheduleNext, step_period. rewrite Hyv.
    destruct (Velocity m >? 0) eqn:E; to_Z.
    - assert (Hq : Long.in_range (1000000 ÷ Velocity m)).
      { pose proof (step_period_bounds (Velocity m)) as Hb.
        unfold step_period in Hb.
        destruct (Velocity m >? 0) eqn:E'; to_Z; [|lia].
        unfold Long.in_range, Long.MIN, Long.MAX. lia. }
      destruct y. cbn in *. subst.
      split; [reflexivity|].
      unfold Long.uadd. rewrite (div_exact _ _ Hq), uwrap_idem. reflexivity.
    - split; [exact Hyv|]. rewrite Hyn, Z.add_0_r. reflexivity. }
  run_cases b m.
  - split; [reflexivity|]. left. split; reflexivity.
  - split; [destruct m; reflexivity|]. left. destruct m; split; reflexivity.
  - split; [destruct m; reflexivity|]. left. destruct m; split; reflexivity.
  - split; [destruct m; reflexivity|]. left. destruct m; split; reflexivity.
  - split; [destruct m; reflexivity|]. right.
    split; [destruct m; reflexivity|].
    intro Hs. destruct m; discriminate Hs.
  - split; [destruct m; reflexivity|]. right.
    split; [destruct m; reflexivity|].
    intro Hs. destruct m; discriminate Hs.
  - destruct (Hadj (advance m)) as [Hv' Hn'];
      try (destruct m; reflexivity); try (destruct m; exact Hvi).
    split; [exact Hv'|]. right. split; [|intros _; exact Hn'].
    destruct (stepped_fields m) as (_ & _ & _ & Esg & _).
    rewrite Esg, pulses_app. reflexivity.
Qed.

Lemma poll_constant_speed :
  forall bs m,
    VelocityIncrement m = 0 ->
    Long.in_range (Velocity m) ->
    exists n : nat,
      pulses (Gpio (snd (poll bs m))) = (pulses (Gpio m) + n)%nat
      /\ Velocity (snd (poll bs m)) = Velocity m
      /\ (State (snd (poll bs m)) = MS_RUNNING ->
          Long.uwrap (NextStepMicros (snd (poll bs m)))
          = Long.uwrap (NextStepMicros m
                        + Z.of_nat n * step_period (Velocity m))).
Proof.
  induction bs as [|b bs IH]; intros m Hvi Hv.
  - exists O. cbn [poll snd]. split; [lia|]. split; [reflexivity|].
    intros _. f_equal. cbn. ring.
  - rewrite poll_cons. cbn [snd].
    destruct (Run_constant_speed b m Hvi Hv) as [Hv1 Hstep].
    destruct (Run_same_plan b m) as (_ & _ & _ & _ & _ & _ & _ & _ & _ & _
                                     & Hvi1 & _).
    assert (Hidle : State (snd (poll bs (snd (Run b m)))) = MS_RUNNING ->
                    State (snd (Run b m)) = MS_RUNNING).
    { intro Hs. destruct (State (snd (Run b m))) eqn:E; try reflexivity;
        rewrite poll_idle in Hs by (rewrite E; discriminate);
        cbn [snd] in Hs; congruence. }
    revert Hv1 Hstep Hvi1 Hidle. generalize (snd (Run b m)).
    intros m1 Hv1 Hstep Hvi1 Hidle.
    destruct (IH m1) as (n & Hp & Hvn & Hn);
      [congruence | rewrite Hv1; exact Hv |].
    rewrite Hv1 in Hvn, Hn.
    destruct Hstep as [[Hg Hs]|[Hg Hs]].
    + exists n. rewrite Hp, Hg. split; [reflexivity|]. split; [exact Hvn|].
      intro Hr. rewrite (Hn Hr), Hs. reflexivity.
    + exists (S n). rewrite Hp, Hg. split; [lia|]. split; [exact Hvn|].
      intro Hr. rewrite (Hn Hr), <- uwrap_add_l, (Hs (Hidle Hr)), uwrap_add_l.
      f_equal. rewrite Nat2Z.inj_succ. ring.
Qed.

Lemma startRotation_no_ramp :
  forall now m,
    VelocityIncrement m = 0 ->
    Velocity (startRotation now m) = MaxVelocity m
    /\ VelocityIncrement (startRotation now m) = 0
    /\ NextStepMicros (startRotation now m) = Long.uadd now 10.
Proof.
  intros now m Hvi. destruct m. cbn in Hvi. subst.
  unfold startRotation. cbn.
  repeat (break_if; cbn); repeat split; reflexivity.
Qed.

Lemma Run_NextStepMicros :
  forall b m,
    NextStepMicros m = Long.uwrap (NextStepMicros m) ->
    NextStepMicros (snd (Run b m))
    = Long.uwrap (NextStepMicros (snd (Run b m))).
Proof.
  intros b m Hn. run_cases b m; try (destruct m; exact Hn).
  unfold scheduleNext. break_if.
  - generalize (adjustVelocity (advance m)). intro y. destruct y. cbn.
    unfold Long.uadd. rewrite uwrap_idem. reflexivity.
  - unfold adjustVelocity, advance. destruct m. cbn in *.
    repeat (break_if; cbn); exact Hn.
Qed.

Lemma poll_NextStepMicros :
  forall bs m,
    NextStepMicros m = Long.uwrap (NextStepMicros m) ->
    NextStepMicros (snd (poll bs m))
    = Long.uwrap (NextStepMicros (snd (poll bs m))).
Proof.
  induction bs as [|b bs IH]; intros m Hn; [exact Hn|].
  rewrite poll_cons. cbn [snd]. apply IH. apply Run_NextStepMicros. exact Hn.
Qed.

(** X15.  The step schedule without a ramp.  After [SetRamp 0] a rotation
    to [p] at [v] steps per second runs at velocity [v] throughout, and
    while it runs the next step is due at [now + 10] microseconds plus one
    period [1000000 / v] per step taken (as an [unsigned long]), where
    [now] is the time of the call: the schedule is fixed by the start time
    and the number of steps, not by the times at which [Run] was called.
    The period is zero when [v] is not positive or above one million; such
    a rotation steps at every call of [Run]. *)
Theorem constant_speed_schedule :
  forall (m : StepperMotor) (p v now : Z) (bs : list Board),
    Long.in_range v ->
    let m0 := RotateAbsolute p v now (SetRamp 0 m) in
    let m' := snd (poll bs m0) in
    let n := (pulses (Gpio m') - pulses (Gpio m0))%nat in
    Velocity m' = v
    /\ (State m' = MS_RUNNING ->
        NextStepMicros m'
        = Long.uwrap (now + 10 + Z.of_nat n * step_period v))
    /\ (step_period v = 0 <-> v <= 0 \/ 1000000 < v).
Proof.
  intros m p v now bs Hv. cbv zeta.
  assert (Hstart : Velocity (RotateAbsolute p v now (SetRamp 0 m)) = v
                   /\ VelocityIncrement (RotateAbsolute p v now (SetRamp 0 m))
                      = 0
                   /\ NextStepMicros (RotateAbsolute p v now (SetRamp 0 m))
                      = Long.uadd now 10).
  { unfold RotateAbsolute. cbv zeta.
    match goal with |- context [startRotation now ?x] =>
      destruct (startRotation_no_ramp now x) as (H1 & H2 & H3);
      [destruct m; reflexivity|];
      rewrite H1, H2, H3 end.
    destruct m; repeat split; reflexivity. }
  destruct Hstart as (Hv0 & Hvi0 & Hn0).
  revert Hv0 Hvi0 Hn0. generalize (RotateAbsolute p v now (SetRamp 0 m)).
  intros m0 Hv0 Hvi0 Hn0.
  destruct (poll_constant_speed bs m0 Hvi0) as (n & Hp & Hvn & Hn);
    [rewrite Hv0; exact Hv|].
  rewrite Hp. replace (pulses (Gpio m0) + n - pulses (Gpio m0))%nat with n
    by lia.
  split; [congruence|]. split; [|apply step_period_zero].
  intro Hr. rewrite poll_NextStepMicros, (Hn Hr), Hn0, Hv0.
  - unfold Long.uadd. rewrite uwrap_add_l. reflexivity.
  - rewrite Hn0. unfold Long.uadd. rewrite uwrap_idem. reflexivity.
Qed.

Lemma constant_speed_schedule_witness :
  let m0 := RotateAbsolute 100 400 5000 (SetRamp 0 (Enable MyStepper)) in
  let bs := [board_at 5010; board_at 5020; board_at 20000; board_at 20001;
             board_at 20002] in
  pulses (Gpio (snd (poll bs m0))) = (pulses (Gpio m0) + 4)%nat
  /\ Velocity (snd (poll bs m0)) = 400
  /\ NextStepMicros (snd (poll bs m0)) = 15010.
Proof.
  cbv zeta.
  destruct (constant_speed_schedule (Enable MyStepper) 100 400 5000
              [board_at 5010; board_at 5020; board_at 20000; board_at 20001;
               board_at 20002])
    as (Hv & Hn & _).
  - vm_compute. split; discriminate.
  - split; [vm_compute; reflexivity|]. split; [exact Hv|].
    rewrite (Hn eq_refl). vm_compute. reflexivity.
Defined.

(** ** [GetRemainingTime] *)

Lemma uwrap_small : forall z, 0 <= z < Long.modulus -> Long.uwrap z = z.
Proof. intros z Hz. unfold Long.uwrap. apply Z.mod_small. exact Hz. Qed.

Lemma GetRemainingTime_running :
  forall m,
    State m = MS_RUNNING ->
    0 < MaxVelocity m <= Long.MAX ->
    Long.in_range (AbsolutePosition m) ->
    Long.in_range (TargetPosition m) ->
    1000 * Z.abs (TargetPosition m - AbsolutePosition m) + 500 < Long.modulus ->
    GetRemainingTime m
    = Some (1000 * Z.abs (TargetPosition m - AbsolutePosition m)
            ÷ MaxVelocity m + 500).
Proof.
  intros m Hs Hv Ha Ht Hd. unfold GetRemainingTime. rewrite Hs. cbn [negb MotorState_eqb].
  unfold Long.in_range, Long.MIN, Long.MAX, Long.modulus in *.
  assert (Hsub : Long.sub (AbsolutePosition m) (TargetPosition m)
                 = AbsolutePosition m - TargetPosition m).
  { apply sub_exact. unfold Long.in_range, Long.MIN, Long.MAX. lia. }
  rewrite Hsub, abs_exact by (unfold Long.MAX; lia).
  replace (Z.abs (AbsolutePosition m - TargetPosition m))
    with (Z.abs (TargetPosition m - AbsolutePosition m)) by lia.
  set (d := Z.abs (TargetPosition m - AbsolutePosition m)) in *.
  rewrite (uwrap_small d) by (unfold Long.modulus; lia).
  rewrite (uwrap_small (1000 * d)) by (unfold Long.modulus; lia).
  rewrite (uwrap_small (MaxVelocity m)) by (unfold Long.modulus; lia).
  destruct (MaxVelocity m =? 0) eqn:E; to_Z; [lia|].
  f_equal. unfold Long.uadd. apply uwrap_small. unfold Long.modulus.
  assert (0 <= 1000 * d ÷ MaxVelocity m) by (apply Z.quot_pos; lia).
  assert (1000 * d ÷ MaxVelocity m <= 1000 * d)
    by (apply Z.quot_le_upper_bound; nia).
  lia.
Qed.

(** X16.  [GetRemainingTime] of a running motor whose [MaxVelocity] is
    positive and whose distance [d] to the target satisfies
    [1000 * d + 500 < 2^32] is [1000 * d / MaxVelocity + 500] milliseconds,
    without wrap-around; it is at least 500 even at the target, and 0 is
    returned exactly when the motor is not [MS_RUNNING]. *)
Theorem GetRemainingTime_estimate :
  forall m : StepperMotor,
    0 < MaxVelocity m <= Long.MAX ->
    Long.in_range (AbsolutePosition m) ->
    Long.in_range (TargetPosition m) ->
    1000 * Z.abs (TargetPosition m - AbsolutePosition m) + 500 < Long.modulus ->
    (State m = MS_RUNNING ->
     GetRemainingTime m
     = Some (1000 * Z.abs (TargetPosition m - AbsolutePosition m)
             ÷ MaxVelocity m + 500))
    /\ (GetRemainingTime m = Some 0 <-> State m <> MS_RUNNING).
Proof.
  intros m Hv Ha Ht Hd.
  split; [intro Hs; apply GetRemainingTime_running; assumption|].
  split.
  - intros H0 Hs.
    rewrite (GetRemainingTime_running m Hs Hv Ha Ht Hd) in H0.
    assert (0 <= 1000 * Z.abs (TargetPosition m - AbsolutePosition m)
                 ÷ MaxVelocity m) by (apply Z.quot_pos; lia).
    injection H0 as H0. lia.
  - intro Hs. unfold GetRemainingTime.
    destruct (MotorState_eqb (State m) MS_RUNNING) eqn:E; [|reflexivity].
    apply MotorState_eqb_eq in E. contradiction.
Qed.

Lemma GetRemainingTime_estimate_witness :
  let m := RotateAbsolute 300 200 0 (Enable MyStepper) in
  GetRemainingTime m = Some 2000
  /\ GetRemainingTime (snd (poll (prompt 301 m) m)) = Some 0.
Proof.
  cbv zeta.
  destruct (GetRemainingTime_estimate
              (RotateAbsolute 300 200 0 (Enable MyStepper)))
    as [Hrun _].
  - vm_compute. split; [reflexivity | discriminate].
  - vm_compute. split; discriminate.
  - vm_compute. split; discriminate.
  - vm_compute. reflexivity.
  - split; [rewrite (Hrun eq_refl); reflexivity | vm_compute; reflexivity].
Defined.

(** X17.  A rotation commanded on a motor that is not homed never counts
    down: [RotateAbsolute] sets the state to [MS_RUNNING] whether or not
    the motor is homed, [Run] then does nothing, and [GetRemainingTime]
    returns the same positive estimate after any number of calls of
    [Run]. *)
Theorem GetRemainingTime_stuck_when_not_homed :
  forall (m : StepperMotor) (p v now : Z) (bs : list Board),
    Homed m = false ->
    0 < v <= Long.MAX ->
    Long.in_range (AbsolutePosition m) ->
    Long.in_range p ->
    1000 * Z.abs (p - AbsolutePosition m) + 500 < Long.modulus ->
    let m0 := RotateAbsolute p v now m in
    snd (poll bs m0) = m0
    /\ GetRemainingTime (snd (poll bs m0))
       = Some (1000 * Z.abs (p - AbsolutePosition m) ÷ v + 500).
Proof.
  intros m p v now bs Hh Hv Ha Hp Hd. cbv zeta.
  destruct (RotateAbsolute_fields p v now m)
    as (H1 & H2 & H3 & H4 & _).
  assert (Hmv : MaxVelocity (RotateAbsolute p v now m) = v).
  { unfold RotateAbsolute. cbv zeta.
    match goal with |- context [startRotation now ?x] =>
      destruct (startRotation_shape now x) as (rs & rd & vel & inc & io & E & _);
      rewrite E end.
    destruct m; reflexivity. }
  assert (Hidle : forall bs' x, Homed x = false -> snd (poll bs' x) = x).
  { induction bs' as [|b bs' IH]; intros x Hx; [reflexivity|].
    rewrite poll_cons. cbn [snd]. rewrite Run_not_homed by exact Hx.
    cbn [snd]. apply IH. exact Hx. }
  rewrite Hidle by congruence. split; [reflexivity|].
  rewrite GetRemainingTime_running; rewrite ?Hmv, ?H3, ?H4; auto.
Qed.

Lemma GetRemainingTime_stuck_when_not_homed_witness :
  let m0 := RotateAbsolute 300 200 0 MyStepper in
  GetRemainingTime (snd (poll (prompt 500 m0) m0)) = Some 2000.
Proof.
  cbv zeta.
  destruct (GetRemainingTime_stuck_when_not_homed MyStepper 300 200 0
              (prompt 500 (RotateAbsolute 300 200 0 MyStepper)))
    as [_ H].
  - reflexivity.
  - vm_compute. split; [reflexivity | discriminate].
  - vm_compute. split; discriminate.
  - vm_compute. split; discriminate.
  - vm_compute. reflexivity.
  - rewrite H. reflexivity.
Defined.

(** ** Numbers in command strings *)

Lemma digit_cases :
  forall d, 0 <= d <= 9 ->
    d = 0 \/ d = 1 \/ d = 2 \/ d = 3 \/ d = 4
    \/ d = 5 \/ d = 6 \/ d = 7 \/ d = 8 \/ d = 9.
Proof. intros d Hd. lia. Qed.

Lemma digit_char_facts :
  forall d, 0 <= d <= 9 ->
    code (digit_char d) = 48 + d
    /\ isdigit (digit_char d) = true
    /\ isspace (digit_char d) = false
    /\ Ascii.eqb (digit_char d) "-" = false
    /\ Ascii.eqb (digit_char d) "+" = false.
Proof.
  intros d Hd.
  destruct (digit_cases d Hd) as [E|[E|[E|[E|[E|[E|[E|[E|[E|E]]]]]]]]];
    subst d; vm_compute; repeat split; reflexivity.
Qed.

Lemma rdigits_decimal :
  forall fuel n, 0 <= n -> Forall is_decimal (rdigits fuel n).
Proof.
  induction fuel as [|f IH]; intros n Hn; cbn [rdigits]; [constructor|].
  destruct (n <? 10) eqn:E; to_Z.
  - constructor; [unfold is_decimal; lia | constructor].
  - constructor.
    + unfold is_decimal. pose proof (Z.mod_pos_bound n 10 eq_refl). lia.
    + apply IH. apply Z.div_pos; lia.
Qed.

Lemma rdigits_value :
  forall fuel n,
    0 <= n < 2 ^ Z.of_nat fuel -> value_of (rdigits fuel n) = n.
Proof.
  induction fuel as [|f IH]; intros n Hn.
  - cbn in Hn. cbn [rdigits value_of]. lia.
  - cbn [rdigits]. destruct (n <? 10) eqn:E; to_Z.
    + cbn [value_of]. lia.
    + cbn [value_of]. rewrite IH.
      * pose proof (Z.div_mod n 10 ltac:(lia)). lia.
      * rewrite Nat2Z.inj_succ, Z.pow_succ_r in Hn by lia.
        split; [apply Z.div_pos; lia|].
        apply Z.div_lt_upper_bound; lia.
Qed.

Lemma rdigits_length :
  forall fuel n k,
    0 <= n < 10 ^ Z.of_nat (S k) ->
    (length (rdigits fuel n) <= S k)%nat.
Proof.
  induction fuel as [|f IH]; intros n k Hn; cbn [rdigits length]; [lia|].
  destruct (n <? 10) eqn:E; to_Z; cbn [length]; [lia|].
  destruct k as [|k].
  - change (10 ^ Z.of_nat 1) with 10 in Hn. lia.
  - apply le_n_S. apply IH.
    rewrite (Nat2Z.inj_succ (S k)), Z.pow_succ_r in Hn by lia.
    split; [apply Z.div_pos; lia|].
    apply Z.div_lt_upper_bound; lia.
Qed.

Lemma log2_fuel :
  forall n, 0 <= n -> 0 <= n < 2 ^ Z.of_nat (S (Z.to_nat (Z.log2 n))).
Proof.
  intros n Hn. split; [exact Hn|].
  rewrite Nat2Z.inj_succ, Z2Nat.id by apply Z.log2_nonneg.
  destruct (Z.eq_dec n 0) as [->|Hz]; [reflexivity|].
  apply Z.log2_spec. lia.
Qed.

Lemma written_length :
  forall l rest,
    String.length (fold_left (fun s d => String (digit_char d) s) l rest)
    = (length l + String.length rest)%nat.
Proof.
  induction l as [|d l IH]; intro rest; cbn [fold_left length]; [reflexivity|].
  rewrite IH. cbn [String.length]. lia.
Qed.

Lemma written_value :
  forall l rest acc,
    Forall is_decimal l ->
    digits_value acc (fold_left (fun s d => String (digit_char d) s) l rest)
    = digits_value (acc * 10 ^ Z.of_nat (length l) + value_of l) rest.
Proof.
  induction l as [|d l IH]; intros rest acc Hl.
  - cbn [fold_left length value_of]. f_equal. cbn. ring.
  - inversion Hl as [|d' l' Hd Hl']; subst.
    cbn [fold_left]. rewrite IH by exact Hl'.
    cbn [digits_value].
    destruct (digit_char_facts d Hd) as (Hc & Hdig & _).
    rewrite Hdig, Hc. f_equal.
    cbn [length value_of]. rewrite Nat2Z.inj_succ, Z.pow_succ_r by lia. ring.
Qed.

Lemma written_head :
  forall l rest,
    l <> [] ->
    Forall is_decimal l ->
    exists d s,
      is_decimal d
      /\ fold_left (fun s d => String (digit_char d) s) l rest
         = String (digit_char d) s.
Proof.
  induction l as [|d l IH]; intros rest Hne Hl; [contradiction|].
  inversion Hl as [|d' l' Hd Hl']; subst. cbn [fold_left].
  destruct l as [|d2 l].
  - exists d, rest. split; [exact Hd | reflexivity].
  - apply IH; [discriminate | exact Hl'].
Qed.

Lemma subject_value_unsigned :
  forall d s,
    is_decimal d ->
    subject_value (String (digit_char d) s)
    = digits_value 0 (String (digit_char d) s).
Proof.
  intros d s Hd. unfold subject_value. cbn [skip_space].
  destruct (digit_char_facts d Hd) as (_ & _ & Hsp & Hm & Hp).
  rewrite Hsp, Hm, Hp. reflexivity.
Qed.

Lemma utoa_value : forall n, 0 <= n -> subject_value (utoa n) = n.
Proof.
  intros n Hn. unfold utoa.
  pose proof (rdigits_decimal (S (Z.to_nat (Z.log2 n))) n Hn) as Hdec.
  pose proof (rdigits_value _ n (log2_fuel n Hn)) as Hval.
  assert (Hne : rdigits (S (Z.to_nat (Z.log2 n))) n <> []).
  { cbn [rdigits]. destruct (n <? 10); discriminate. }
  destruct (written_head _ EmptyString Hne Hdec) as (d & s & Hd & Hs).
  rewrite Hs, (subject_value_unsigned d s Hd), <- Hs.
  rewrite written_value by exact Hdec. cbn [digits_value].
  rewrite Hval. ring.
Qed.

Lemma ltoa_value : forall v, subject_value (ltoa v) = v.
Proof.
  intro v. unfold ltoa. destruct (v <? 0) eqn:E; to_Z.
  - pose proof (utoa_value (- v) ltac:(lia)) as Hu.
    unfold subject_value. cbn [skip_space].
    change (isspace "-") with false. cbv iota.
    change (Ascii.eqb "-" "-") with true. cbv iota.
    unfold utoa in *.
    pose proof (rdigits_decimal (S (Z.to_nat (Z.log2 (- v)))) (- v)
                  ltac:(lia)) as Hdec.
    rewrite written_value by exact Hdec. cbn [digits_value].
    rewrite rdigits_value by (apply log2_fuel; lia). ring.
  - apply utoa_value. exact E.
Qed.

Lemma strtol_ltoa : forall v, Long.in_range v -> strtol (ltoa v) = v.
Proof.
  intros v [Hlo Hhi]. unfold strtol. rewrite ltoa_value.
  destruct (v <? Long.MIN) eqn:E1; to_Z; [lia|].
  destruct (v >? Long.MAX) eqn:E2; to_Z; [lia|]. reflexivity.
Qed.

Lemma strtol_in_range : forall s, Long.in_range (strtol s).
Proof.
  intro s. unfold strtol, Long.in_range.
  destruct (subject_value s <? Long.MIN) eqn:E1; to_Z;
    [unfold Long.MIN, Long.MAX; lia|].
  destruct (subject_value s >? Long.MAX) eqn:E2; to_Z;
    [unfold Long.MIN, Long.MAX; lia|]. lia.
Qed.

Lemma ltoa_length :
  forall v,
    Long.in_range v -> (1 <= String.length (ltoa v) <= 11)%nat.
Proof.
  intros v [Hlo Hhi]. unfold Long.MIN, Long.MAX in *.
  assert (Hu : forall n, 0 <= n <= 2147483648 ->
                         (1 <= String.length (utoa n) <= 10)%nat).
  { intros n Hn. unfold utoa. rewrite written_length. cbn [String.length].
    pose proof (rdigits_length (S (Z.to_nat (Z.log2 n))) n 9) as Hl.
    assert (Hpow : 10 ^ Z.of_nat 10 = 10000000000) by reflexivity.
    rewrite Hpow in Hl. specialize (Hl ltac:(lia)).
    assert (Hne : (1 <= length (rdigits (S (Z.to_nat (Z.log2 n))) n))%nat).
    { cbn [rdigits]. destruct (n <? 10); cbn [length]; lia. }
    lia. }
  unfold ltoa. destruct (v <? 0) eqn:E; to_Z.
  - cbn [String.length]. specialize (Hu (- v) ltac:(lia)). lia.
  - specialize (Hu v ltac:(lia)). lia.
Qed.

Lemma velocity_field_value :
  forall v, 0 <= v <= 9999 -> strtol (velocity_field v) = v.
Proof.
  intros v Hv.
  assert (H3 : is_decimal (v / 1000 mod 10))
    by (unfold is_decimal; pose proof (Z.mod_pos_bound (v / 1000) 10 eq_refl); lia).
  assert (H2 : is_decimal (v / 100 mod 10))
    by (unfold is_decimal; pose proof (Z.mod_pos_bound (v / 100) 10 eq_refl); lia).
  assert (H1 : is_decimal (v / 10 mod 10))
    by (unfold is_decimal; pose proof (Z.mod_pos_bound (v / 10) 10 eq_refl); lia).
  assert (H0 : is_decimal (v mod 10))
    by (unfold is_decimal; pose proof (Z.mod_pos_bound v 10 eq_refl); lia).
  unfold strtol, velocity_field.
  rewrite subject_value_unsigned by exact H3.
  cbn [digits_value].
  destruct (digit_char_facts _ H3) as (C3 & D3 & _).
  destruct (digit_char_facts _ H2) as (C2 & D2 & _).
  destruct (digit_char_facts _ H1) as (C1 & D1 & _).
  destruct (digit_char_facts _ H0) as (C0 & D0 & _).
  rewrite D3, D2, D1, D0, C3, C2, C1, C0.
  assert (E : 10 * (10 * (10 * (10 * 0 + (48 + v / 1000 mod 10 - 48))
                          + (48 + v / 100 mod 10 - 48))
                    + (48 + v / 10 mod 10 - 48))
              + (48 + v mod 10 - 48) = v).
  { pose proof (Z.div_mod v 10 ltac:(lia)).
    pose proof (Z.div_mod (v / 10) 10 ltac:(lia)).
    pose proof (Z.div_mod (v / 100) 10 ltac:(lia)).
    pose proof (Z.div_mod (v / 1000) 10 ltac:(lia)).
    assert (v / 10 / 10 = v / 100) by (rewrite Z.div_div by lia; reflexivity).
    assert (v / 100 / 10 = v / 1000) by (rewrite Z.div_div by lia; reflexivity).
    assert (v / 1000 / 10 = 0) by (rewrite Z.div_div by lia; apply Z.div_small; lia).
    lia. }
  rewrite E. unfold Long.MIN, Long.MAX.
  destruct (v <? -2147483648) eqn:E1; to_Z; [lia|].
  destruct (v >? 2147483647) eqn:E2; to_Z; [lia|]. reflexivity.
Qed.

(** ** [ExecuteCommand] *)

Ltac split_command H :=
  repeat match type of H with
         | context [if ?c then _ else _] => destruct c eqn:?
         | context [match ?x with Some _ => _ | None => _ end] =>
             destruct x eqn:?
         end.

Ltac name_call :=
  match goal with
  | |- exists c, EStop _ = _ => exists CallEStop
  | |- exists c, Enable _ = _ => exists CallEnable
  | |- exists c, Disable _ = _ => exists CallDisable
  | |- exists c, FindHome ?s ?b _ = _ => exists (CallFindHome s b)
  | |- exists c, SetHomePosition _ = _ => exists CallSetHomePosition
  | |- exists c, SetLowerLimit ?v _ = _ => exists (CallSetLowerLimit v)
  | |- exists c, SetUpperLimit ?v _ = _ => exists (CallSetUpperLimit v)
  | |- exists c, SetRamp ?v _ = _ => exists (CallSetRamp v)
  | |- exists c, RotateToHome ?n _ = _ => exists (CallRotateToHome n)
  | |- exists c, RotateToLowerLimit ?n _ = _ =>
      exists (CallRotateToLowerLimit n)
  | |- exists c, RotateToUpperLimit ?n _ = _ =>
      exists (CallRotateToUpperLimit n)
  | |- exists c, RotateAbsolute ?p ?v ?n _ = _ =>
      exists (CallRotateAbsolute p v n)
  | |- exists c, RotateRelative ?p ?v ?n _ = _ =>
      exists (CallRotateRelative p v n)
  | |- exists c, BlinkLED ?pin _ = _ => exists (CallBlinkLED pin)
  end; reflexivity.

Ltac same_term := match goal with |- ?x = ?x => reflexivity end.

Lemma ExecuteCommand_call :
  forall a packet m r m',
    ExecuteCommand a packet m = Some (r, m') ->
    m' = m /\ r <> ""%string
    \/ r = ""%string /\ (m' = m \/ exists c, m' = perform c m).
Proof.
  intros a packet m r m' H. unfold ExecuteCommand, GetVersion in H.
  assert (Hl : forall v, ltoa v <> ""%string).
  { intro v. unfold ltoa, utoa. destruct (v <? 0); [discriminate|].
    intro E. apply (f_equal String.length) in E.
    rewrite written_length in E. cbn [rdigits] in E.
    destruct (v <? 10); cbn in E; discriminate. }
  split_command H; try discriminate H;
    injection H as Hr Hm; subst r m';
    first
      [ solve [left; split; [same_term | first [apply Hl | discriminate]]]
      | solve [right; split; [same_term | left; same_term]]
      | solve [right; split; [same_term | right; name_call]] ].
Qed.

(** X18.  A command either answers or acts.  Whenever [ExecuteCommand]
    returns a non-empty string (an error message, the answer to a query,
    the version) the motor is unchanged; and whatever it returns, the motor
    is unchanged or has gone through exactly one public method, so every
    property of sequences of method calls holds for sequences of
    commands. *)
Theorem ExecuteCommand_answers_or_acts :
  forall (a : Answers) (packet : string) (m : StepperMotor)
         (r : string) (m' : StepperMotor),
    ExecuteCommand a packet m = Some (r, m') ->
    (r <> ""%string -> m' = m)
    /\ (m' = m \/ exists c : Call, m' = perform c m).
Proof.
  intros a packet m r m' H.
  destruct (ExecuteCommand_call a packet m r m' H)
    as [[Hm Hr]|[Hr Hc]].
  - split; [intros _; exact Hm | left; exact Hm].
  - split; [intro Hne; contradiction | exact Hc].
Qed.

Lemma ExecuteCommand_answers_or_acts_witness :
  let a := {| clock := 100; seek_reads := 0; backoff_reads := 0 |} in
  exists c : Call,
    RotateAbsolute (-123) 500 100 (Enable MyStepper)
    = perform c (Enable MyStepper).
Proof.
  cbv zeta.
  destruct (ExecuteCommand_answers_or_acts
              {| clock := 100; seek_reads := 0; backoff_reads := 0 |}
              "RA0500-123" (Enable MyStepper) ""
              (RotateAbsolute (-123) 500 100 (Enable MyStepper)))
    as [_ [Hsame|Hcall]].
  - vm_compute. reflexivity.
  - exfalso. apply (f_equal State) in Hsame. vm_compute in Hsame.
    discriminate Hsame.
  - exact Hcall.
Defined.

Ltac run_command :=
  cbv [ExecuteCommand String.length Nat.ltb Nat.leb Nat.eqb strncpy offset
       String.eqb Ascii.eqb Bool.eqb orb negb andb].

Lemma ltoa_shape :
  forall v, exists c s, ltoa v = String c s.
Proof.
  intro v. unfold ltoa, utoa. destruct (v <? 0); [eauto|].
  match goal with |- context [fold_left ?f ?l ?r] =>
    destruct (fold_left f l r) eqn:E end; [|eauto].
  apply (f_equal String.length) in E. rewrite written_length in E.
  cbn [rdigits] in E. destruct (v <? 10); cbn in E; discriminate.
Qed.

Lemma rotate_command_shape :
  forall a m c0 c1 c2 c3 c s,
    ExecuteCommand a
      (String "R" (String "A"
         (String c0 (String c1 (String c2 (String c3 (String c s)))))))
      m
    = Some (""%string,
            RotateAbsolute (strtol (String c s))
              (strtol (String c0 (String c1 (String c2 (String c3 "")))))
              (clock a) m)
    /\ ExecuteCommand a
         (String "R" (String "R"
            (String c0 (String c1 (String c2 (String c3 (String c s)))))))
         m
       = Some (""%string,
               RotateRelative (strtol (String c s))
                 (strtol (String c0 (String c1 (String c2 (String c3 "")))))
                 (clock a) m).
Proof. intros. split; run_command; reflexivity. Qed.

Lemma limit_command_shape :
  forall a m c s,
    ExecuteCommand a (String "S" (String "L" (String c s))) m
    = Some (""%string, SetLowerLimit (strtol (String c s)) m)
    /\ ExecuteCommand a (String "S" (String "U" (String c s))) m
       = Some (""%string, SetUpperLimit (strtol (String c s)) m).
Proof. intros. split; run_command; reflexivity. Qed.

(** X19.  Numbers survive the command syntax.  For a velocity [v] of 0 to
    9999 written as four digits and a [long] [p] written in decimal (as
    [ltoa] writes it), the commands [RA], [RR], [SL] and [SU] call
    [RotateAbsolute], [RotateRelative], [SetLowerLimit] and [SetUpperLimit]
    with exactly [p] and [v], and answer nothing. *)
Theorem numeric_commands_round_trip :
  forall (a : Answers) (m : StepperMotor) (p v : Z),
    0 <= v <= 9999 ->
    Long.in_range p ->
    ExecuteCommand a ("RA" ++ velocity_field v ++ ltoa p) m
    = Some (""%string, RotateAbsolute p v (clock a) m)
    /\ ExecuteCommand a ("RR" ++ velocity_field v ++ ltoa p) m
       = Some (""%string, RotateRelative p v (clock a) m)
    /\ ExecuteCommand a ("SL" ++ ltoa p) m
       = Some (""%string, SetLowerLimit p m)
    /\ ExecuteCommand a ("SU" ++ ltoa p) m
       = Some (""%string, SetUpperLimit p m).
Proof.
  intros a m p v Hv Hp.
  pose proof (strtol_ltoa p Hp) as Hn.
  pose proof (velocity_field_value v Hv) as Hvel.
  destruct (ltoa_shape p) as (c & s & Hs). rewrite Hs in *.
  unfold velocity_field in *. cbn [String.append].
  destruct (rotate_command_shape a m
              (digit_char (v / 1000 mod 10)) (digit_char (v / 100 mod 10))
              (digit_char (v / 10 mod 10)) (digit_char (v mod 10)) c s)
    as [Ha Hr].
  destruct (limit_command_shape a m c s) as [Hl Hu].
  rewrite Ha, Hr, Hl, Hu, Hn, Hvel. repeat split; reflexivity.
Qed.

Lemma numeric_commands_round_trip_witness :
  let a := {| clock := 0; seek_reads := 0; backoff_reads := 0 |} in
  ExecuteCommand a "RA0250-1200" (Enable MyStepper)
  = Some (""%string, RotateAbsolute (-1200) 250 0 (Enable MyStepper)).
Proof.
  cbv zeta.
  destruct (numeric_commands_round_trip
              {| clock := 0; seek_reads := 0; backoff_reads := 0 |}
              (Enable MyStepper) (-1200) 250)
    as [Ha _].
  - lia.
  - vm_compute. split; discriminate.
  - exact Ha.
Defined.

(** X20.  The position queries answer in decimal.  [GA], [GR], [GL] and
    [GU] leave the motor as it is and return a string that [strtol] reads
    back as [AbsolutePosition], [DeltaPosition], [LowerLimit] and
    [UpperLimit]. *)
Theorem queries_read_back :
  forall (a : Answers) (m : StepperMotor),
    Long.in_range (AbsolutePosition m) ->
    Long.in_range (DeltaPosition m) ->
    Long.in_range (LowerLimit m) ->
    Long.in_range (UpperLimit m) ->
    exists ga gr gl gu : string,
      ExecuteCommand a "GA" m = Some (ga, m)
      /\ ExecuteCommand a "GR" m = Some (gr, m)
      /\ ExecuteCommand a "GL" m = Some (gl, m)
      /\ ExecuteCommand a "GU" m = Some (gu, m)
      /\ strtol ga = AbsolutePosition m
      /\ strtol gr = DeltaPosition m
      /\ strtol gl = LowerLimit m
      /\ strtol gu = UpperLimit m.
Proof.
  intros a m Ha Hd Hl Hu.
  exists (ltoa (AbsolutePosition m)), (ltoa (DeltaPosition m)),
         (ltoa (LowerLimit m)), (ltoa (UpperLimit m)).
  repeat split; try (run_command; reflexivity); apply strtol_ltoa; assumption.
Qed.

Lemma queries_read_back_witness :
  let a := {| clock := 0; seek_reads := 0; backoff_reads := 0 |} in
  let m := snd (poll (prompt 4 (RotateAbsolute (-3) 500 0 (Enable MyStepper)))
                  (RotateAbsolute (-3) 500 0 (Enable MyStepper))) in
  ExecuteCommand a "GA" m = Some ("-3"%string, m)
  /\ ExecuteCommand a "GL" m = Some ("-2000000000"%string, m).
Proof.
  cbv zeta.
  destruct (queries_read_back
              {| clock := 0; seek_reads := 0; backoff_reads := 0 |}
              (snd (poll (prompt 4 (RotateAbsolute (-3) 500 0
                                      (Enable MyStepper)))
                      (RotateAbsolute (-3) 500 0 (Enable MyStepper)))))
    as (ga & gr & gl & gu & Ha & _ & Hl & _).
  - vm_compute. split; discriminate.
  - vm_compute. split; discriminate.
  - vm_compute. split; discriminate.
  - vm_compute. split; discriminate.
  - split; vm_compute; reflexivity.
Defined.

(** X21.  The answer fits the buffer.  Whatever the packet, the string
    [ExecuteCommand] returns is shorter than [EC_RETURN_LENGTH], so with
    its terminating NUL it fits [ecReturnString]: the longest are the
    version (24 characters, returned from its own array), ["Missing ramp
    value 0-9"] (22) and a [long] in decimal (at most 11). *)
Theorem ExecuteCommand_answer_fits :
  forall (a : Answers) (packet : string) (m : StepperMotor)
         (r : string) (m' : StepperMotor),
    Long.in_range (AbsolutePosition m) ->
    Long.in_range (DeltaPosition m) ->
    Long.in_range (LowerLimit m) ->
    Long.in_range (UpperLimit m) ->
    ExecuteCommand a packet m = Some (r, m') ->
    (String.length r <= 24 < EC_RETURN_LENGTH)%nat.
Proof.
  intros a packet m r m' Ha Hd Hl Hu H.
  unfold EC_RETURN_LENGTH. split; [|lia].
  unfold ExecuteCommand, GetVersion, GetAbsolutePosition, GetRelativePosition,
    GetLowerLimit, GetUpperLimit in H.
  split_command H; try discriminate H;
    injection H as Hr Hm; subst r m';
    first
      [ solve [cbn; lia]
      | match goal with
        | |- (String.length (ltoa ?v) <= _)%nat =>
            let Hb := fresh in
            assert (Hb : Long.in_range v)
              by first [assumption | apply wrap_range];
            apply ltoa_length in Hb; lia
        end ].
Qed.

Lemma ExecuteCommand_answer_fits_witness :
  let a := {| clock := 0; seek_reads := 0; backoff_reads := 0 |} in
  (String.length "Missing ramp value 0-9" <= 24 < EC_RETURN_LENGTH)%nat.
Proof.
  cbv zeta.
  apply (ExecuteCommand_answer_fits
           {| clock := 0; seek_reads := 0; backoff_reads := 0 |}
           "SR" (Enable MyStepper) "Missing ramp value 0-9"
           (Enable MyStepper)).
  - vm_compute. split; discriminate.
  - vm_compute. split; discriminate.
  - vm_compute. split; discriminate.
  - vm_compute. split; discriminate.
  - vm_compute. reflexivity.
Defined.

(** X22.  A rotate command with velocity field [0000] is accepted, and the
    time query that follows divides by zero: after [RA0000] and a target,
    the motor is [MS_RUNNING] with [MaxVelocity] zero, and [GT] has no
    value. *)
Theorem zero_velocity_breaks_time_query :
  forall (a a' : Answers) (m : StepperMotor) (p : Z),
    Long.in_range p ->
    exists m1 : StepperMotor,
      ExecuteCommand a ("RA0000" ++ ltoa p) m = Some (""%string, m1)
      /\ State m1 = MS_RUNNING
      /\ MaxVelocity m1 = 0
      /\ GetRemainingTime m1 = None
      /\ ExecuteCommand a' "GT" m1 = None.
Proof.
  intros a a' m p Hp.
  assert (Ha : ExecuteCommand a ("RA0000" ++ ltoa p) m
               = Some (""%string, RotateAbsolute p 0 (clock a) m)).
  { pose proof (strtol_ltoa p Hp) as Hback.
    destruct (ltoa_shape p) as (c & s & Hs). rewrite Hs in *.
    cbn [String.append].
    destruct (rotate_command_shape a m "0" "0" "0" "0" c s) as [Hra _].
    rewrite Hra, Hback. reflexivity. }
  exists (RotateAbsolute p 0 (clock a) m).
  split; [exact Ha|].
  destruct (RotateAbsolute_fields p 0 (clock a) m) as (_ & Hs & _).
  assert (Hmv : MaxVelocity (RotateAbsolute p 0 (clock a) m) = 0).
  { unfold RotateAbsolute. cbv zeta.
    match goal with |- context [startRotation ?n ?x] =>
      destruct (startRotation_shape n x) as (rs & rd & vel & inc & io & E & _);
      rewrite E end.
    destruct m; reflexivity. }
  assert (Hgt : GetRemainingTime (RotateAbsolute p 0 (clock a) m) = None).
  { unfold GetRemainingTime. rewrite Hs, Hmv. reflexivity. }
  split; [exact Hs|]. split; [exact Hmv|]. split; [exact Hgt|].
  run_command. rewrite Hgt. reflexivity.
Qed.

Lemma zero_velocity_breaks_time_query_witness :
  let a := {| clock := 0; seek_reads := 0; backoff_reads := 0 |} in
  exists m1 : StepperMotor,
    ExecuteCommand a "RA000042" (Enable MyStepper) = Some (""%string, m1)
    /\ ExecuteCommand a "GT" m1 = None.
Proof.
  cbv zeta.
  destruct (zero_velocity_breaks_time_query
              {| clock := 0; seek_reads := 0; backoff_reads := 0 |}
              {| clock := 0; seek_reads := 0; backoff_reads := 0 |}
              (Enable MyStepper) 42)
    as (m1 & H1 & _ & _ & _ & H2).
  - vm_compute. split; discriminate.
  - exists m1. split; [exact H1 | exact H2].
Defined.

(** ** The sketch: [commandReady] *)

Lemma c_str_app_NUL :
  forall l r, c_str (l ++ zero :: r) = c_str l.
Proof.
  induction l as [|c l IH]; intro r; cbn [app c_str]; [reflexivity|].
  rewrite IH. reflexivity.
Qed.

Lemma c_str_of_string :
  forall s, c_str (list_ascii_of_string s) = before_NUL s.
Proof.
  induction s as [|c s IH]; cbn [list_ascii_of_string c_str before_NUL];
    [reflexivity|]. rewrite IH. reflexivity.
Qed.

Lemma store_spec :
  forall i c array,
    0 <= i < Z.of_nat (length array) ->
    store i c array
    = Some (firstn (Z.to_nat i) array ++ c :: skipn (S (Z.to_nat i)) array).
Proof.
  intros i c array Hi. unfold store.
  destruct (0 <=? i) eqn:E1; to_Z; [|lia].
  destruct (i <? Z.of_nat (length array)) eqn:E2; to_Z; [|lia].
  reflexivity.
Qed.

Lemma stored_length :
  forall n (c : ascii) array,
    (n < length array)%nat ->
    length (firstn n array ++ c :: skipn (S n) array) = length array.
Proof.
  intros n c array Hn.
  rewrite length_app, length_firstn. cbn [length]. rewrite length_skipn. lia.
Qed.

Lemma stored_prefix :
  forall n (c : ascii) array,
    (n < length array)%nat ->
    firstn (S n) (firstn n array ++ c :: skipn (S n) array)
    = firstn n array ++ [c].
Proof.
  intros n c array Hn.
  assert (Hl : length (firstn n array) = n) by (rewrite length_firstn; lia).
  rewrite firstn_app, Hl.
  rewrite firstn_all2 by lia.
  replace (S n - n)%nat with 1%nat by lia. reflexivity.
Qed.

Lemma stored_same_prefix :
  forall n (c : ascii) array,
    (n < length array)%nat ->
    firstn n (firstn n array ++ c :: skipn (S n) array) = firstn n array.
Proof.
  intros n c array Hn.
  assert (Hl : length (firstn n array) = n) by (rewrite length_firstn; lia).
  rewrite firstn_app, Hl, Nat.sub_diag. cbn [firstn].
  rewrite app_nil_r. apply firstn_all2. lia.
Qed.

(** A run of characters that fits the buffer is stored, carriage returns
    apart. *)
Lemma commandReady_absorbs :
  forall s rest buffer len tx stored,
    no_LF s = true ->
    length buffer = Z.to_nat MAX_COMMAND_LENGTH ->
    0 <= len ->
    len + Z.of_nat (String.length (without_CR s)) <= MAX_COMMAND_LENGTH - 1 ->
    firstn (Z.to_nat len) buffer = stored ->
    exists buffer',
      commandReady_loop (s ++ rest) buffer len tx
      = commandReady_loop rest buffer'
          (len + Z.of_nat (String.length (without_CR s))) tx
      /\ length buffer' = Z.to_nat MAX_COMMAND_LENGTH
      /\ firstn (Z.to_nat (len + Z.of_nat (String.length (without_CR s))))
           buffer'
         = stored ++ list_ascii_of_string (without_CR s).
Proof.
  unfold MAX_COMMAND_LENGTH.
  induction s as [|c s IH]; intros rest buffer len tx stored Hlf Hb Hl Hfit Hst.
  - exists buffer. cbn [String.append without_CR String.length
                        list_ascii_of_string].
    rewrite Z.add_0_r, app_nil_r. repeat split; assumption.
  - cbn [no_LF] in Hlf. apply andb_true_iff in Hlf. destruct Hlf as [Hc Hlf].
    apply negb_true_iff in Hc.
    cbn [String.append commandReady_loop without_CR] in Hfit |- *.
    destruct (Ascii.eqb c "013") eqn:Ecr; cbn [negb].
    + apply IH; assumption.
    + rewrite Hc. cbn [String.length list_ascii_of_string] in Hfit |- *.
      unfold MAX_COMMAND_LENGTH.
      destruct (len <? 20 - 1) eqn:E; to_Z; [|lia].
      rewrite store_spec by lia.
      destruct (IH rest
                  (firstn (Z.to_nat len) buffer
                   ++ c :: skipn (S (Z.to_nat len)) buffer)
                  (len + 1) tx (stored ++ [c]))
        as (buffer' & Hrun & Hlen & Hpre); try assumption; try lia.
      * rewrite stored_length by lia. exact Hb.
      * replace (Z.to_nat (len + 1)) with (S (Z.to_nat len)) by lia.
        rewrite stored_prefix by lia. rewrite Hst. reflexivity.
      * exists buffer'.
        replace (len + Z.of_nat (S (String.length (without_CR s))))
          with (len + 1 + Z.of_nat (String.length (without_CR s))) by lia.
        rewrite Hrun, Hpre, <- app_assoc. repeat split; auto.
Qed.

(** The line feed ends the command. *)
Lemma commandReady_line_feed :
  forall rest buffer len tx,
    length buffer = Z.to_nat MAX_COMMAND_LENGTH ->
    0 <= len <= MAX_COMMAND_LENGTH - 1 ->
    exists buffer',
      commandReady_loop (String "010" rest) buffer len tx
      = Some (true, (rest, buffer', len, tx))
      /\ length buffer' = Z.to_nat MAX_COMMAND_LENGTH
      /\ c_str buffer' = c_str (firstn (Z.to_nat len) buffer).
Proof.
  unfold MAX_COMMAND_LENGTH. intros rest buffer len tx Hb Hl.
  cbn [commandReady_loop].
  change (negb (Ascii.eqb "010" "013")) with true. cbv iota.
  change (Ascii.eqb "010" "010") with true. cbv iota.
  rewrite store_spec by lia.
  eexists. split; [reflexivity|]. split.
  - rewrite stored_length by lia. exact Hb.
  - apply c_str_app_NUL.
Qed.

(** The twentieth character of a command is dropped with a message, and
    the command starts anew. *)
Lemma commandReady_overflow :
  forall c rest buffer tx,
    Ascii.eqb c "013" = false ->
    Ascii.eqb c "010" = false ->
    commandReady_loop (String c rest) buffer (MAX_COMMAND_LENGTH - 1) tx
    = commandReady_loop rest buffer 0 (too_long :: tx).
Proof.
  intros c rest buffer tx Hcr Hlf. cbn [commandReady_loop].
  rewrite Hcr, Hlf. reflexivity.
Qed.

Lemma plain_no_LF : forall s, plain s = true -> no_LF s = true.
Proof.
  induction s as [|c s IH]; intro H; [reflexivity|].
  cbn [plain no_LF] in *.
  apply andb_true_iff in H. destruct H as [H Hs].
  apply andb_true_iff in H. destruct H as [_ Hlf].
  rewrite Hlf. cbn [andb]. apply IH. exact Hs.
Qed.

Lemma plain_without_CR : forall s, plain s = true -> without_CR s = s.
Proof.
  induction s as [|c s IH]; intro H; [reflexivity|].
  cbn [plain without_CR] in *.
  apply andb_true_iff in H. destruct H as [H Hs].
  apply andb_true_iff in H. destruct H as [Hcr _].
  apply negb_true_iff in Hcr. rewrite Hcr, (IH Hs). reflexivity.
Qed.

Lemma plain_app :
  forall s t, plain (s ++ t) = plain s && plain t.
Proof.
  induction s as [|c s IH]; intro t; [reflexivity|].
  cbn [String.append plain]. rewrite IH, andb_assoc. reflexivity.
Qed.

Lemma string_app_assoc :
  forall s t u : string, ((s ++ t) ++ u = s ++ (t ++ u))%string.
Proof.
  induction s as [|c s IH]; intros t u; [reflexivity|].
  cbn [String.append]. rewrite IH. reflexivity.
Qed.

Lemma string_length_app :
  forall s t : string,
    String.length (s ++ t) = (String.length s + String.length t)%nat.
Proof.
  induction s as [|c s IH]; intro t; [reflexivity|].
  cbn [String.append String.length]. rewrite IH. reflexivity.
Qed.

Lemma string_split :
  forall n s,
    (n <= String.length s)%nat ->
    s = (strncpy n s ++ offset n s)%string
    /\ String.length (strncpy n s) = n
    /\ String.length (offset n s) = (String.length s - n)%nat.
Proof.
  induction n as [|n IH]; intros s Hn.
  - destruct s; cbn; repeat split; lia.
  - destruct s as [|c s]; cbn [String.length] in Hn; [lia|].
    destruct (IH s ltac:(lia)) as (E & L1 & L2).
    cbn [strncpy offset String.append String.length].
    rewrite <- E, L1, L2. repeat split.
Qed.

(** Twenty characters from an empty buffer: nineteen stored, the last one
    dropped, and the buffer is empty again. *)
Lemma commandReady_chunk :
  forall junk rest buffer tx,
    plain junk = true ->
    String.length junk = Z.to_nat MAX_COMMAND_LENGTH ->
    length buffer = Z.to_nat MAX_COMMAND_LENGTH ->
    exists buffer',
      commandReady_loop (junk ++ rest) buffer 0 tx
      = commandReady_loop rest buffer' 0 (too_long :: tx)
      /\ length buffer' = Z.to_nat MAX_COMMAND_LENGTH.
Proof.
  intros junk rest buffer tx Hp Hlen Hb.
  change (Z.to_nat MAX_COMMAND_LENGTH) with 20%nat in *.
  destruct (string_split 19 junk ltac:(lia)) as (E & L1 & L2).
  rewrite Hlen in L2. change (20 - 19)%nat with 1%nat in L2.
  destruct (offset 19 junk) as [|c t] eqn:Eo; [discriminate L2|].
  destruct t; [|discriminate L2].
  rewrite E in Hp. rewrite plain_app in Hp.
  apply andb_true_iff in Hp. destruct Hp as [Hp1 Hp2].
  cbn [plain] in Hp2. rewrite andb_true_r in Hp2.
  apply andb_true_iff in Hp2. destruct Hp2 as [Hcr Hlf].
  apply negb_true_iff in Hcr. apply negb_true_iff in Hlf.
  rewrite E, string_app_assoc.
  destruct (commandReady_absorbs (strncpy 19 junk)
              (String c "" ++ rest) buffer 0 tx [])
    as (buffer' & Hrun & Hlen' & _).
  - apply plain_no_LF. exact Hp1.
  - exact Hb.
  - lia.
  - rewrite (plain_without_CR _ Hp1), L1. unfold MAX_COMMAND_LENGTH. lia.
  - reflexivity.
  - exists buffer'. rewrite Hrun, (plain_without_CR _ Hp1), L1.
    cbn [String.append].
    change (0 + Z.of_nat 19) with (MAX_COMMAND_LENGTH - 1).
    rewrite commandReady_overflow by assumption.
    split; [reflexivity | exact Hlen'].
Qed.

Lemma commandReady_chunks :
  forall k junk rest buffer tx,
    plain junk = true ->
    String.length junk = (k * 20)%nat ->
    length buffer = Z.to_nat MAX_COMMAND_LENGTH ->
    exists buffer',
      commandReady_loop (junk ++ rest) buffer 0 tx
      = commandReady_loop rest buffer' 0 (repeat too_long k ++ tx)
      /\ length buffer' = Z.to_nat MAX_COMMAND_LENGTH.
Proof.
  induction k as [|k IH]; intros junk rest buffer tx Hp Hlen Hb.
  - destruct junk; [|discriminate Hlen]. exists buffer.
    split; [reflexivity | exact Hb].
  - destruct (string_split 20 junk ltac:(lia)) as (E & L1 & L2).
    rewrite E in Hp. rewrite plain_app in Hp.
    apply andb_true_iff in Hp. destruct Hp as [Hp1 Hp2].
    rewrite E, string_app_assoc.
    destruct (commandReady_chunk (strncpy 20 junk) (offset 20 junk ++ rest)
                buffer tx Hp1 L1 Hb) as (buffer1 & Hrun1 & Hb1).
    destruct (IH (offset 20 junk) rest buffer1 (too_long :: tx) Hp2
                ltac:(lia) Hb1) as (buffer2 & Hrun2 & Hb2).
    exists buffer2. rewrite Hrun1, Hrun2. split; [|exact Hb2].
    f_equal. change (S k) with (1 + k)%nat.
    rewrite Nat.add_comm, repeat_app, <- app_assoc. reflexivity.
Qed.

(** X23.  How [commandReady] assembles a command.  With an empty buffer
    and the characters [junk ++ tail ++ LF ++ post] to read, where [junk] is
    [k] times twenty characters and [tail] has at most nineteen apart from
    carriage returns: [commandReady] returns true, the command is [tail]
    without its carriage returns (up to a NUL), [post] is left unread, and
    ["ERROR: Command is too long."] is printed [k] times.  So a line of up
    to nineteen characters ([k = 0]) is the command, and of a longer line
    every twenty characters are dropped and the rest is taken as a
    command. *)
Theorem commandReady_takes_line :
  forall (sk : Sketch) (k : nat) (junk tail post : string),
    buffer_ok sk ->
    commandLength sk = 0 ->
    plain junk = true ->
    String.length junk = (k * 20)%nat ->
    no_LF tail = true ->
    (String.length (without_CR tail) <= 19)%nat ->
    Rx sk = (junk ++ tail ++ String "010" post)%string ->
    exists sk' : Sketch,
      commandReady sk = Some (true, sk')
      /\ c_str (commandString sk') = before_NUL (without_CR tail)
      /\ Rx sk' = post
      /\ Tx sk' = repeat too_long k ++ Tx sk
      /\ Stepper sk' = Stepper sk
      /\ buffer_ok sk'.
Proof.
  intros sk k junk tail post [Hb Hl] Hzero Hj Hjl Ht Htl Hrx.
  unfold commandReady. rewrite Hrx, Hzero.
  destruct (commandReady_chunks k junk (tail ++ String "010" post)
              (commandString sk) (Tx sk) Hj Hjl Hb)
    as (buffer1 & Hrun1 & Hb1).
  destruct (commandReady_absorbs tail (String "010" post) buffer1 0
              (repeat too_long k ++ Tx sk) [] Ht Hb1 ltac:(lia))
    as (buffer2 & Hrun2 & Hb2 & Hpre); [unfold MAX_COMMAND_LENGTH; lia
                                       | reflexivity |].
  destruct (commandReady_line_feed post buffer2
              (0 + Z.of_nat (String.length (without_CR tail)))
              (repeat too_long k ++ Tx sk) Hb2)
    as (buffer3 & Hrun3 & Hb3 & Hstr); [unfold MAX_COMMAND_LENGTH; lia|].
  rewrite Hrun1, Hrun2, Hrun3.
  eexists. split; [reflexivity|]. cbn [commandString Rx Tx Stepper].
  split; [rewrite Hstr, Hpre; apply c_str_of_string|].
  repeat split; try assumption; cbn [commandLength];
    unfold MAX_COMMAND_LENGTH; lia.
Qed.

Lemma commandReady_takes_line_witness :
  let sk := {| commandString := commandString setup;
               commandLength := 0;
               Stepper := Stepper setup;
               Rx := String.append "0123456789abcdefghijES"
                       (String "013" (String "010" "GA"));
               Tx := [] |} in
  exists sk' : Sketch,
    commandReady sk = Some (true, sk')
    /\ c_str (commandString sk') = "ES"%string
    /\ Rx sk' = "GA"%string
    /\ Tx sk' = [too_long].
Proof.
  cbv zeta.
  destruct (commandReady_takes_line
              {| commandString := commandString setup;
                 commandLength := 0;
                 Stepper := Stepper setup;
                 Rx := String.append "0123456789abcdefghijES"
                         (String "013" (String "010" "GA"));
                 Tx := [] |}
              1 "0123456789abcdefghij" (String.append "ES" (String "013" ""))
              "GA")
    as (sk' & H1 & H2 & H3 & H4 & _).
  - vm_compute. split; [reflexivity | split; discriminate].
  - reflexivity.
  - reflexivity.
  - reflexivity.
  - reflexivity.
  - vm_compute. lia.
  - reflexivity.
  - exists sk'. split; [exact H1|]. split; [exact H2|].
    split; [exact H3 | exact H4].
Defined.

Lemma commandReady_loop_in_bounds :
  forall rx buffer len tx,
    length buffer = Z.to_nat MAX_COMMAND_LENGTH ->
    0 <= len <= MAX_COMMAND_LENGTH - 1 ->
    exists ready rx' buffer' len' tx',
      commandReady_loop rx buffer len tx
      = Some (ready, (rx', buffer', len', tx'))
      /\ length buffer' = Z.to_nat MAX_COMMAND_LENGTH
      /\ 0 <= len' <= MAX_COMMAND_LENGTH - 1
      /\ existsb switch_message tx' = existsb switch_message tx.
Proof.
  unfold MAX_COMMAND_LENGTH.
  induction rx as [|c rx IH]; intros buffer len tx Hb Hl.
  - cbn [commandReady_loop]. repeat eexists; auto; lia.
  - cbn [commandReady_loop].
    destruct (Ascii.eqb c "013"); cbn [negb]; [apply IH; assumption|].
    destruct (Ascii.eqb c "010").
    + rewrite store_spec by lia.
      repeat eexists; try lia. rewrite stored_length by lia. exact Hb.
    + unfold MAX_COMMAND_LENGTH.
      destruct (len <? 20 - 1) eqn:E; to_Z.
      * rewrite store_spec by lia. apply IH; [|lia].
        rewrite stored_length by lia. exact Hb.
      * destruct (IH buffer 0 (too_long :: tx) Hb ltac:(lia))
          as (ready & rx' & buffer' & len' & tx' & Hrun & H1 & H2 & H3).
        exists ready, rx', buffer', len', tx'.
        fold too_long. rewrite Hrun, H3. repeat split; auto; lia.
Qed.

(** X24.  [commandReady] stays inside [commandString].  Whatever has been
    received, when [commandLength] is between 0 and 19 every store of
    [commandReady] is within the twenty characters of the array,
    [commandLength] is between 0 and 19 afterwards, and the motor is not
    touched. *)
Theorem commandReady_in_bounds :
  forall sk : Sketch,
    buffer_ok sk ->
    exists (ready : bool) (sk' : Sketch),
      commandReady sk = Some (ready, sk')
      /\ buffer_ok sk'
      /\ Stepper sk' = Stepper sk.
Proof.
  intros sk [Hb Hl]. unfold commandReady.
  destruct (commandReady_loop_in_bounds (Rx sk) (commandString sk)
              (commandLength sk) (Tx sk) Hb Hl)
    as (ready & rx' & buffer' & len' & tx' & Hrun & H1 & H2 & _).
  rewrite Hrun. eexists _, _. split; [reflexivity|].
  split; [split; assumption | reflexivity].
Qed.

Lemma commandReady_in_bounds_witness :
  let sk := {| commandString := commandString setup;
               commandLength := 19;
               Stepper := Stepper setup;
               Rx := String.append "0123456789abcdefghijklmnopqrstuvwxyz"
                       (String "013" (String "010" "GA"));
               Tx := [] |} in
  exists (ready : bool) (sk' : Sketch),
    commandReady sk = Some (ready, sk')
    /\ buffer_ok sk'
    /\ Stepper sk' = Stepper sk
    /\ ready = true
    /\ commandLength sk' = 15
    /\ c_str (commandString sk') = "lmnopqrstuvwxyz"%string
    /\ Tx sk' = [too_long; too_long].
Proof.
  cbv zeta.
  destruct (commandReady_in_bounds
              {| commandString := commandString setup;
                 commandLength := 19;
                 Stepper := Stepper setup;
                 Rx := String.append "0123456789abcdefghijklmnopqrstuvwxyz"
                         (String "013" (String "010" "GA"));
                 Tx := [] |})
    as (ready & sk' & Hrun & Hb & Hm).
  - split; [reflexivity | vm_compute; split; discriminate].
  - exists ready, sk'. split; [exact Hrun|]. split; [exact Hb|].
    split; [exact Hm|].
    vm_compute in Hrun. injection Hrun as Hready Hsk. subst ready sk'.
    repeat split.
Defined.

(** ** The sketch: [loop] *)

Lemma sound_perform : forall c m, sound m -> sound (perform c m).
Proof.
  intros c m (Hc & Hp & Hl). split; [|split].
  - apply perform_consistent. exact Hc.
  - rewrite perform_pins. exact Hp.
  - apply perform_limits. exact Hl.
Qed.

Lemma sound_setup : sound (Stepper setup).
Proof.
  change (Stepper setup)
    with (perform CallEnable (Constructor 2 3 4 (-1) (-1))).
  apply sound_perform. split; [apply Constructor_consistent|].
  split; [reflexivity | vm_compute; split; discriminate].
Qed.

Lemma Run_no_switch :
  forall b m,
    LLSwitchPin m < 0 ->
    ULSwitchPin m < 0 ->
    fst (Run b m) <> LIMIT_SWITCH_LOWER
    /\ fst (Run b m) <> LIMIT_SWITCH_UPPER.
Proof.
  intros b m Hl Hu. run_cases b m; try (split; discriminate);
    match goal with H : asserted _ _ |- _ => destruct H as [Hpin _]; lia end.
Qed.

Lemma report_no_switch :
  forall r m tx,
    r <> LIMIT_SWITCH_LOWER ->
    r <> LIMIT_SWITCH_UPPER ->
    existsb switch_message (report r m tx) = existsb switch_message tx.
Proof.
  intros r m tx Hl Hu. destruct r; try contradiction; reflexivity.
Qed.

Lemma loop_keeps :
  forall b a incoming sk sk',
    loop b a incoming sk = Some sk' ->
    buffer_ok sk ->
    sound (Stepper sk) ->
    existsb switch_message (Tx sk) = false ->
    buffer_ok sk'
    /\ sound (Stepper sk')
    /\ existsb switch_message (Tx sk') = false.
Proof.
  intros b a incoming sk sk' H [Hb Hl] Hs Htx. unfold loop in H.
  pose proof (sound_perform (CallRun b) (Stepper sk) Hs) as Hs1.
  cbn [perform] in Hs1.
  assert (Hsw : fst (Run b (Stepper sk)) <> LIMIT_SWITCH_LOWER
                /\ fst (Run b (Stepper sk)) <> LIMIT_SWITCH_UPPER).
  { destruct Hs as (_ & Hp & _). unfold pins_of in Hp.
    injection Hp as _ _ _ Hll Hul. apply Run_no_switch; lia. }
  destruct (Run b (Stepper sk)) as [r m]. cbn [fst snd] in *.
  destruct Hsw as [Hsl Hsu].
  unfold commandReady in H. cbn [Rx commandString commandLength Tx Stepper] in H.
  destruct (commandReady_loop_in_bounds (Rx sk ++ incoming) (commandString sk)
              (commandLength sk) (report r m (Tx sk)) Hb Hl)
    as (ready & rx' & buffer' & len' & tx' & Hrun & H1 & H2 & H3).
  rewrite Hrun in H. rewrite report_no_switch, Htx in H3 by assumption.
  destruct ready.
  - cbn [commandString Stepper Rx Tx] in H.
    destruct (ExecuteCommand a (c_str buffer') m) as [[response m']|] eqn:E;
      [|discriminate H].
    injection H as H. subst sk'. cbn [Stepper Tx].
    split; [split; [exact H1 | cbn; unfold MAX_COMMAND_LENGTH; lia]|].
    split.
    + destruct (ExecuteCommand_call a _ m response m' E)
        as [[Hm _]|[_ [Hm|[c Hm]]]]; subst m'; auto using sound_perform.
    + destruct (0 <? String.length response)%nat; [|exact H3].
      cbn [existsb switch_message orb]. exact H3.
  - injection H as H. subst sk'. cbn [Stepper Tx].
    split; [split; assumption|]. split; assumption.
Qed.

Lemma loops_keep :
  forall inputs sk sk',
    loops inputs sk = Some sk' ->
    buffer_ok sk ->
    sound (Stepper sk) ->
    existsb switch_message (Tx sk) = false ->
    buffer_ok sk'
    /\ sound (Stepper sk')
    /\ existsb switch_message (Tx sk') = false.
Proof.
  induction inputs as [|[[b a] incoming] inputs IH]; intros sk sk' H Hb Hs Htx.
  - injection H as H. subst sk'. auto.
  - cbn [loops] in H.
    destruct (loop b a incoming sk) as [sk1|] eqn:E; [|discriminate H].
    destruct (loop_keeps b a incoming sk sk1 E Hb Hs Htx) as (Hb1 & Hs1 & Htx1).
    apply (IH sk1 sk' H Hb1 Hs1 Htx1).
Qed.

(** X25.  What the sketch keeps, whatever is received.  After [setup] and
    any number of passes of [loop], with any characters arriving on the
    serial port: [commandLength] is between 0 and 19 and [commandString]
    has its twenty characters; the motor has the pins 2, 3, 4 and no limit
    switch; [State = MS_ENABLED] implies [Homed], and [Homed] implies
    [MS_ENABLED] or [MS_RUNNING]; zero lies between the limits; and neither
    limit switch message of [loop] has been printed. *)
Theorem sketch_invariants :
  forall (inputs : list (Board * Answers * string)) (sk : Sketch),
    loops inputs setup = Some sk ->
    buffer_ok sk
    /\ pins_of (Stepper sk) = (2, 3, 4, -1, -1)
    /\ (State (Stepper sk) = MS_ENABLED -> Homed (Stepper sk) = true)
    /\ (Homed (Stepper sk) = true ->
        State (Stepper sk) = MS_ENABLED \/ State (Stepper sk) = MS_RUNNING)
    /\ LowerLimit (Stepper sk) <= 0 <= UpperLimit (Stepper sk)
    /\ existsb switch_message (Tx sk) = false.
Proof.
  intros inputs sk H.
  destruct (loops_keep inputs setup sk H) as (Hb & Hs & Htx).
  - split; [reflexivity | vm_compute; split; discriminate].
  - apply sound_setup.
  - reflexivity.
  - destruct Hs as ((_ & _ & He & Hh) & Hp & Hl).
    split; [exact Hb|]. split; [exact Hp|]. split; [exact He|].
    split; [exact Hh|]. split; [exact Hl | exact Htx].
Qed.

Lemma sketch_invariants_witness :
  let a := {| clock := 50; seek_reads := 0; backoff_reads := 0 |} in
  let inputs :=
    [(board_at 0, a, "RR05"%string);
     (board_at 10, a, String.append "002" (String "010" "ES"));
     (board_at 100, a, String "010" "")] in
  exists sk : Sketch,
    loops inputs setup = Some sk
    /\ State (Stepper sk) = MS_ESTOPPED
    /\ buffer_ok sk
    /\ existsb switch_message (Tx sk) = false.
Proof.
  cbv zeta. eexists. split; [vm_compute; reflexivity|].
  split; [reflexivity|].
  match goal with |- buffer_ok ?s /\ _ =>
    destruct (sketch_invariants
                [(board_at 0,
                  {| clock := 50; seek_reads := 0; backoff_reads := 0 |},
                  "RR05"%string);
                 (board_at 10,
                  {| clock := 50; seek_reads := 0; backoff_reads := 0 |},
                  String.append "002" (String "010" "ES"));
                 (board_at 100,
                  {| clock := 50; seek_reads := 0; backoff_reads := 0 |},
                  String "010" "")] s)
      as (Hb & _ & _ & _ & _ & Htx)
  end.
  - vm_compute. reflexivity.
  - split; [exact Hb | exact Htx].
Defined.

Lemma commandReady_short_line :
  forall sk line post,
    buffer_ok sk ->
    commandLength sk = 0 ->
    no_LF line = true ->
    (String.length (without_CR line) <= 19)%nat ->
    Rx sk = (line ++ String "010" post)%string ->
    exists sk' : Sketch,
      commandReady sk = Some (true, sk')
      /\ c_str (commandString sk') = before_NUL (without_CR line)
      /\ Rx sk' = post
      /\ Tx sk' = Tx sk
      /\ Stepper sk' = Stepper sk
      /\ buffer_ok sk'.
Proof.
  intros sk line post [Hb Hl] Hzero Hlf Hlen Hrx.
  unfold commandReady. rewrite Hrx, Hzero.
  destruct (commandReady_absorbs line (String "010" post) (commandString sk)
              0 (Tx sk) [] Hlf Hb ltac:(lia))
    as (buffer1 & Hrun1 & Hb1 & Hpre); [unfold MAX_COMMAND_LENGTH; lia
                                       | reflexivity |].
  destruct (commandReady_line_feed post buffer1
              (0 + Z.of_nat (String.length (without_CR line))) (Tx sk) Hb1)
    as (buffer2 & Hrun2 & Hb2 & Hstr); [unfold MAX_COMMAND_LENGTH; lia|].
  rewrite Hrun1, Hrun2.
  eexists. split; [reflexivity|]. cbn [commandString Rx Tx Stepper].
  split; [rewrite Hstr, Hpre; apply c_str_of_string|].
  repeat split; try assumption; cbn [commandLength];
    unfold MAX_COMMAND_LENGTH; lia.
Qed.

Lemma loop_with_line :
  forall (b : Board) (a : Answers) (sk : Sketch) (line post : string)
         (response : string) (m' : StepperMotor),
    buffer_ok sk ->
    commandLength sk = 0 ->
    Rx sk = EmptyString ->
    no_LF line = true ->
    (String.length (without_CR line) <= 19)%nat ->
    ExecuteCommand a (before_NUL (without_CR line)) (snd (Run b (Stepper sk)))
    = Some (response, m') ->
    exists sk' : Sketch,
      loop b a (line ++ String "010" post) sk = Some sk'
      /\ Stepper sk' = m'
      /\ Rx sk' = post
      /\ commandLength sk' = 0
      /\ buffer_ok sk'
      /\ Tx sk'
         = (if String.eqb response "" then [] else [Serial_println response])
           ++ report (fst (Run b (Stepper sk))) (snd (Run b (Stepper sk)))
                (Tx sk).
Proof.
  intros b a sk line post response m' Hb Hzero Hrx Hlf Hlen Hex.
  unfold loop. destruct (Run b (Stepper sk)) as [r m]. cbn [fst snd] in *.
  match goal with |- context [commandReady ?s] =>
    destruct (commandReady_short_line s line post)
      as (sk1 & Hready & Hcmd & Hrx1 & Htx1 & Hm1 & Hb1)
  end; try assumption; try reflexivity.
  - cbn [Rx]. rewrite Hrx. reflexivity.
  - rewrite Hready, Hcmd, Hm1. cbn [Stepper]. rewrite Hex.
    eexists. split; [reflexivity|]. cbn [Stepper Rx commandLength Tx].
    split; [reflexivity|]. split; [exact Hrx1|]. split; [reflexivity|].
    split.
    + destruct Hb1 as [Hl1 _]. split; [exact Hl1|].
      cbn [commandLength]. unfold MAX_COMMAND_LENGTH. lia.
    + rewrite Htx1. cbn [Tx].
      destruct response; reflexivity.
Qed.

(** X26.  One pass of [loop] with a whole line waiting.  With an empty
    buffer, nothing unread, and the characters [line ++ LF ++ post]
    arriving, [line] of at most nineteen characters apart from carriage
    returns: [loop] calls [Run] first and then executes [line] (without its
    carriage returns) on the motor [Run] leaves; it prints the report of
    [Run] and then the answer when that is not empty; [commandLength] is 0
    again; and [post] stays unread until the next pass, so one pass
    executes one command. *)
Theorem loop_executes_line :
  forall (b : Board) (a : Answers) (sk : Sketch) (line post : string)
         (response : string) (m' : StepperMotor),
    buffer_ok sk ->
    commandLength sk = 0 ->
    Rx sk = EmptyString ->
    no_LF line = true ->
    (String.length (without_CR line) <= 19)%nat ->
    ExecuteCommand a (before_NUL (without_CR line)) (snd (Run b (Stepper sk)))
    = Some (response, m') ->
    exists sk' : Sketch,
      loop b a (line ++ String "010" post) sk = Some sk'
      /\ Stepper sk' = m'
      /\ Rx sk' = post
      /\ commandLength sk' = 0
      /\ buffer_ok sk'
      /\ Tx sk'
         = (if String.eqb response "" then [] else [Serial_println response])
           ++ report (fst (Run b (Stepper sk))) (snd (Run b (Stepper sk)))
                (Tx sk).
Proof.
  intros b a sk line post response m' Hb Hzero Hrx Hlf Hlen Hex.
  destruct (loop_with_line b a sk line post response m'
              Hb Hzero Hrx Hlf Hlen Hex)
    as (sk' & H1 & H2 & H3 & H4 & H5 & H6).
  exists sk'. split; [exact H1|]. split; [exact H2|]. split; [exact H3|].
  split; [exact H4|]. split; [exact H5 | exact H6].
Qed.

Lemma loop_executes_line_witness :
  let a := {| clock := 50; seek_reads := 0; backoff_reads := 0 |} in
  exists sk' : Sketch,
    loop (board_at 0) a
      (String.append "GU" (String "013" (String "010" "GL"))) setup
    = Some sk'
    /\ Rx sk' = "GL"%string
    /\ Tx sk' = Serial_println "2000000000" :: Tx setup.
Proof.
  cbv zeta.
  destruct (loop_executes_line (board_at 0)
              {| clock := 50; seek_reads := 0; backoff_reads := 0 |}
              setup (String.append "GU" (String "013" "")) "GL"
              "2000000000" (Stepper setup))
    as (sk' & H1 & _ & H3 & _ & _ & H6).
  - split; [reflexivity | vm_compute; split; discriminate].
  - reflexivity.
  - reflexivity.
  - reflexivity.
  - vm_compute. lia.
  - vm_compute. reflexivity.
  - exists sk'. split; [exact H1|]. split; [exact H3|]. exact H6.
Defined.

(** X27.  Every three-character [SR] packet sets the ramp.  The third
    character is read by [atoi]: a digit gives that ramp factor, any other
    character gives 0, which turns ramping off; no such packet is answered
    with an error. *)
Theorem SR_takes_any_character :
  forall (a : Answers) (m : StepperMotor) (c : ascii),
    let ramp := if isdigit c then code c - 48 else 0 in
    0 <= ramp <= 9
    /\ ExecuteCommand a (String "S" (String "R" (String c ""))) m
       = Some (""%string, SetRamp ramp m)
    /\ (isdigit c = false ->
        VelocityIncrement (SetRamp ramp m) = 0).
Proof.
  intros a m c. cbv zeta.
  assert (Hat : atoi (String c "")
                = Some (if isdigit c then code c - 48 else 0)).
  { destruct c as [[] [] [] [] [] [] [] []]; vm_compute; reflexivity. }
  assert (Hr : 0 <= (if isdigit c then code c - 48 else 0) <= 9).
  { unfold isdigit. destruct (48 <=? code c) eqn:E1; to_Z; cbn [andb]; [|lia].
    destruct (code c <=? 57) eqn:E2; to_Z; lia. }
  split; [exact Hr|]. split.
  - run_command. rewrite Hat.
    destruct (_ >=? 0) eqn:E1; to_Z; [|lia].
    destruct (_ <=? 9) eqn:E2; to_Z; [|lia]. reflexivity.
  - intro Hd. rewrite Hd. destruct m; reflexivity.
Qed.

(** ** From the serial port to the motor *)

Lemma digit_char_visible :
  forall d, is_decimal d ->
    Ascii.eqb (digit_char d) zero = false
    /\ Ascii.eqb (digit_char d) "013" = false
    /\ Ascii.eqb (digit_char d) "010" = false.
Proof.
  intros d Hd.
  destruct (digit_cases d Hd) as [E|[E|[E|[E|[E|[E|[E|[E|[E|E]]]]]]]]];
    subst d; vm_compute; repeat split; reflexivity.
Qed.

Lemma written_visible :
  forall l rest,
    Forall is_decimal l ->
    visible rest = true ->
    visible (fold_left (fun s d => String (digit_char d) s) l rest) = true.
Proof.
  induction l as [|d l IH]; intros rest Hl Hr; [exact Hr|].
  inversion Hl as [|d' l' Hd Hl']; subst. cbn [fold_left].
  apply IH; [exact Hl'|]. cbn [visible].
  destruct (digit_char_visible d Hd) as (H1 & H2 & H3).
  rewrite H1, H2, H3, Hr. reflexivity.
Qed.

Lemma ltoa_visible : forall v, visible (ltoa v) = true.
Proof.
  intro v. unfold ltoa, utoa. destruct (v <? 0) eqn:E; to_Z.
  - cbn [visible]. rewrite written_visible;
      [reflexivity | apply rdigits_decimal; lia | reflexivity].
  - apply written_visible; [apply rdigits_decimal; lia | reflexivity].
Qed.

Lemma velocity_field_visible :
  forall v, 0 <= v -> visible (velocity_field v) = true.
Proof.
  intros v Hv. unfold velocity_field. cbn [visible].
  assert (Hdec : forall x, 0 <= x -> is_decimal (x mod 10)).
  { intros x Hx. unfold is_decimal.
    pose proof (Z.mod_pos_bound x 10 eq_refl). lia. }
  destruct (digit_char_visible _ (Hdec (v / 1000) ltac:(apply Z.div_pos; lia)))
    as (A1 & A2 & A3).
  destruct (digit_char_visible _ (Hdec (v / 100) ltac:(apply Z.div_pos; lia)))
    as (B1 & B2 & B3).
  destruct (digit_char_visible _ (Hdec (v / 10) ltac:(apply Z.div_pos; lia)))
    as (C1 & C2 & C3).
  destruct (digit_char_visible _ (Hdec v Hv)) as (D1 & D2 & D3).
  rewrite A1, A2, A3, B1, B2, B3, C1, C2, C3, D1, D2, D3. reflexivity.
Qed.

Lemma visible_app :
  forall s t, visible (s ++ t) = visible s && visible t.
Proof.
  induction s as [|c s IH]; intro t; [reflexivity|].
  cbn [String.append visible]. rewrite IH, !andb_assoc. reflexivity.
Qed.

Lemma visible_line :
  forall s,
    visible s = true ->
    no_LF s = true /\ without_CR s = s /\ before_NUL s = s.
Proof.
  induction s as [|c s IH]; intro H; [repeat split|].
  cbn [visible] in H.
  apply andb_true_iff in H. destruct H as [H Hs].
  apply andb_true_iff in H. destruct H as [H Hlf].
  apply andb_true_iff in H. destruct H as [Hnul Hcr].
  apply negb_true_iff in Hnul. apply negb_true_iff in Hcr.
  destruct (IH Hs) as (I1 & I2 & I3).
  cbn [no_LF without_CR before_NUL].
  rewrite Hlf, Hcr, Hnul, I1, I2, I3. repeat split.
Qed.

Lemma poll_length :
  forall bs m, length (fst (poll bs m)) = length bs.
Proof.
  induction bs as [|b bs IH]; intro m; [reflexivity|].
  rewrite poll_cons. cbn [fst length]. rewrite IH. reflexivity.
Qed.

Lemma reports_complete :
  forall bs k m tx,
    fst (poll bs m) = repeat OKAY k ++ [RUN_COMPLETE] ->
    reports bs m tx
    = Serial_println (ltoa (AbsolutePosition (snd (poll bs m))))
      :: Serial_print "Run complete, position = " :: tx.
Proof.
  induction bs as [|b bs IH]; intros k m tx H.
  - cbn [poll fst] in H. destruct k; discriminate H.
  - rewrite poll_cons in H |- *. cbn [fst snd] in H |- *. cbn [reports].
    pose proof (poll_length bs (snd (Run b m))) as Hlen.
    destruct (Run b m) as [r m1]. cbn [fst snd] in *.
    destruct k as [|k]; cbn [repeat app] in H; injection H as Hr Hrest.
    + rewrite Hrest in Hlen. destruct bs; [|discriminate Hlen].
      subst r. reflexivity.
    + subst r. cbn [report]. apply (IH k). exact Hrest.
Qed.

Lemma loops_idle :
  forall a bs sk,
    Rx sk = EmptyString ->
    exists sk',
      loops (idle_passes a bs) sk = Some sk'
      /\ Stepper sk' = snd (poll bs (Stepper sk))
      /\ Tx sk' = reports bs (Stepper sk) (Tx sk)
      /\ Rx sk' = EmptyString.
Proof.
  intros a. induction bs as [|b bs IH]; intros sk Hrx.
  - exists sk. repeat split; auto.
  - cbn [idle_passes map loops]. fold (idle_passes a bs).
    rewrite poll_cons. cbn [snd reports]. unfold loop, commandReady.
    destruct (Run b (Stepper sk)) as [r m1]. cbn [fst snd].
    cbn [Rx commandString commandLength Tx Stepper]. rewrite Hrx.
    cbn [String.append commandReady_loop].
    match goal with |- context [loops _ ?s] =>
      destruct (IH s eq_refl) as (sk' & H1 & H2 & H3 & H4) end.
    exists sk'. cbn [Stepper Tx] in H2, H3. auto.
Qed.

Lemma Run_idle :
  forall b m, State m <> MS_RUNNING -> Run b m = (OKAY, m).
Proof.
  intros b m Hs. unfold Run. destruct (Homed m); cbn [andb]; [|reflexivity].
  destruct (MotorState_eqb (State m) MS_RUNNING) eqn:E; [|reflexivity].
  apply MotorState_eqb_eq in E. contradiction.
Qed.

(** X28.  From the serial port to the motor and back.  After [setup], the
    line [RR], a velocity [v] of four digits and a nonzero number [n] of
    steps within the limits, ended by a line feed, starts
    [RotateRelative (n, v)] in the pass of [loop] that reads it; and when
    the following passes find every step time reached, pass number
    [|n| + 1] sees [Run] return [RUN_COMPLETE]: the motor is then
    [MS_ENABLED] at position [n], and the sketch has printed
    ["Run complete, position = "] and [n], and nothing else since
    [setup]. *)
Theorem serial_relative_rotation :
  forall (n v : Z) (b0 : Board) (a a' : Answers),
    n <> 0 ->
    -2000000000 <= n <= 2000000000 ->
    0 <= v <= 9999 ->
    exists sk1 sk2 : Sketch,
      loop b0 a ("RR" ++ velocity_field v ++ ltoa n ++ String "010" "") setup
      = Some sk1
      /\ Stepper sk1 = RotateRelative n v (clock a) (Stepper setup)
      /\ loops (idle_passes a' (prompt (S (Z.abs_nat n)) (Stepper sk1))) sk1
         = Some sk2
      /\ AbsolutePosition (Stepper sk2) = n
      /\ State (Stepper sk2) = MS_ENABLED
      /\ Tx sk2
         = Serial_println (ltoa n)
           :: Serial_print "Run complete, position = " :: Tx setup.
Proof.
  intros n v b0 a a' Hn Hlim Hv.
  assert (Hrange : Long.in_range n)
    by (unfold Long.in_range, Long.MIN, Long.MAX; lia).
  set (line := ("RR" ++ velocity_field v ++ ltoa n)%string).
  assert (Hvis : visible line = true).
  { unfold line. rewrite !visible_app, ltoa_visible,
      velocity_field_visible by lia. reflexivity. }
  destruct (visible_line line Hvis) as (Hlf & Hcr & Hnul).
  assert (Hlen : (String.length (without_CR line) <= 19)%nat).
  { rewrite Hcr. unfold line. rewrite !string_length_app.
    pose proof (ltoa_length n Hrange) as Hl.
    change (String.length "RR") with 2%nat.
    change (String.length (velocity_field v)) with 4%nat. lia. }
  assert (Hidle : Run b0 (Stepper setup) = (OKAY, Stepper setup))
    by (apply Run_idle; vm_compute; discriminate).
  assert (Hex : ExecuteCommand a line (Stepper setup)
                = Some (""%string,
                        RotateRelative n v (clock a) (Stepper setup))).
  { unfold line. destruct (ltoa_shape n) as (c & s & Hs).
    pose proof (strtol_ltoa n Hrange) as Hback. rewrite Hs in *.
    pose proof (velocity_field_value v Hv) as Hvel.
    unfold velocity_field in *. cbn [String.append].
    destruct (rotate_command_shape a (Stepper setup)
                (digit_char (v / 1000 mod 10)) (digit_char (v / 100 mod 10))
                (digit_char (v / 10 mod 10)) (digit_char (v mod 10)) c s)
      as [_ Hr].
    rewrite Hr, Hback, Hvel. reflexivity. }
  destruct (loop_with_line b0 a setup line "" ""
              (RotateRelative n v (clock a) (Stepper setup)))
    as (sk1 & L1 & L2 & L3 & _ & _ & L6).
  { split; [reflexivity | vm_compute; split; discriminate]. }
  { reflexivity. }
  { reflexivity. }
  { exact Hlf. }
  { exact Hlen. }
  { rewrite Hcr, Hnul, Hidle. exact Hex. }
  rewrite Hidle in L6. cbn [fst snd report String.eqb app] in L6.
  destruct (loops_idle a' (prompt (S (Z.abs_nat n)) (Stepper sk1)) sk1 L3)
    as (sk2 & P1 & P2 & P3 & _).
  exists sk1, sk2.
  replace ("RR" ++ velocity_field v ++ ltoa n ++ String "010" "")%string
    with (line ++ String "010" "")%string
    by (unfold line; rewrite !string_app_assoc; reflexivity).
  split; [exact L1|]. split; [exact L2|]. split; [exact P1|].
  rewrite P2, P3, L6. clear P1 P2 P3 L1 L6.
  revert L2. generalize (Stepper sk1). intros m1 Hm1.
  destruct (RotateRelative_fields n v (clock a) (Stepper setup) Hn)
    as (F1 & F2 & F3 & F4 & F5 & F6 & F7 & F8).
  rewrite <- Hm1 in F1, F2, F3, F4, F5, F6, F7, F8.
  change (Homed (Stepper setup)) with true in F1.
  change (AbsolutePosition (Stepper setup)) with 0 in F3, F4, F8.
  change (LowerLimit (Stepper setup)) with (-2000000000) in F6.
  change (UpperLimit (Stepper setup)) with 2000000000 in F7.
  rewrite (add_exact 0 n Hrange) in F3, F8. cbn [Z.add] in F3, F8.
  destruct (started_reaches_target m1 0 n F1 F2 F4 F3 F5 F8)
    with (bs := prompt (S (Z.abs_nat n)) m1)
    as (R1 & R2 & _ & R4).
  - unfold Long.in_range, Long.MIN, Long.MAX. lia.
  - exact Hrange.
  - rewrite F6, F7. lia.
  - rewrite F6, F7. lia.
  - rewrite Z.sub_0_r.
    clear. generalize (S (Z.abs_nat n)). intro k. revert m1.
    induction k as [|k IH]; intro m1; [reflexivity|].
    cbn [prompt length]. rewrite IH. reflexivity.
  - apply prompt_all_clear.
  - split; [exact R2|]. split; [exact R4|].
    rewrite (reports_complete _ _ _ _ R1), R2. reflexivity.
Qed.

Lemma serial_relative_rotation_witness :
  let a := {| clock := 50; seek_reads := 0; backoff_reads := 0 |} in
  exists sk1 sk2 : Sketch,
    loop (board_at 0) a
      ("RR" ++ velocity_field 500 ++ ltoa (-3) ++ String "010" "") setup
    = Some sk1
    /\ Stepper sk1 = RotateRelative (-3) 500 (clock a) (Stepper setup)
    /\ loops (idle_passes a (prompt (S (Z.abs_nat (-3))) (Stepper sk1))) sk1
       = Some sk2
    /\ AbsolutePosition (Stepper sk2) = -3
    /\ State (Stepper sk2) = MS_ENABLED
    /\ Tx sk2
       = Serial_println (ltoa (-3))
         :: Serial_print "Run complete, position = " :: Tx setup.
Proof.
  cbv zeta.
  apply (serial_relative_rotation (-3) 500 (board_at 0)
           {| clock := 50; seek_reads := 0; backoff_reads := 0 |}
           {| clock := 50; seek_reads := 0; backoff_reads := 0 |}).
  - discriminate.
  - lia.
  - lia.
Defined.

(** ** [BlinkLED] and [FindHome] in the sketch *)

Lemma blink_log :
  forall k pin m,
    blink k pin m = set_Gpio (Gpio (blink k pin m)) m
    /\ rises pin (Gpio (blink k pin m)) = (k + rises pin (Gpio m))%nat
    /\ pulses (Gpio (blink k pin m)) = pulses (Gpio m).
Proof.
  induction k as [|k IH]; intros pin m.
  - cbn [blink]. destruct m; repeat split.
  - cbn [blink].
    match goal with |- context [blink k pin ?x] =>
      destruct (IH pin x) as (H1 & H2 & H3);
      assert (Hx : Gpio x
                   = delay 80 :: digitalWrite pin LOW :: delay 20
                     :: digitalWrite pin HIGH :: Gpio m)
        by (destruct m; reflexivity);
      assert (Hm : forall io, set_Gpio io x = set_Gpio io m)
        by (intro io; destruct m; reflexivity);
      revert H1 H2 H3 Hx Hm; generalize (blink k pin x); generalize x
    end.
    intros x y H1 H2 H3 Hx Hm.
    rewrite Hx in H2, H3. cbn [rises pulses] in H2, H3.
    rewrite Z.eqb_refl in H2.
    split; [rewrite H1 at 1; apply Hm|]. split; [lia | exact H3].
Qed.

(** X29.  [BlinkLED] writes to whatever pin it is given.  It changes
    nothing of the motor but the pin log, drives [LEDpin] HIGH ten times and
    leaves it LOW, and emits no step pulse of its own.  Given the step pin,
    these are ten pulses to the driver with [AbsolutePosition] unchanged;
    given the enable pin, the driver is left enabled whatever [State]
    says. *)
Theorem BlinkLED_drives_any_pin :
  forall (LEDpin : Z) (m : StepperMotor),
    let m' := BlinkLED LEDpin m in
    m' = set_Gpio (Gpio m') m
    /\ rises LEDpin (Gpio m') = (10 + rises LEDpin (Gpio m))%nat
    /\ pulses (Gpio m') = pulses (Gpio m)
    /\ exists io,
         Gpio m' = delay 80 :: digitalWrite LEDpin LOW :: io.
Proof.
  intros LEDpin m. cbv zeta. unfold BlinkLED.
  destruct (blink_log 10 LEDpin (emit (pinMode LEDpin OUTPUT) m))
    as (H1 & H2 & H3).
  assert (Hlast : forall k x, exists io,
             Gpio (blink (S k) LEDpin x)
             = delay 80 :: digitalWrite LEDpin LOW :: io).
  { induction k as [|k IH]; intro x.
    - cbn [blink]. destruct x. eexists. reflexivity.
    - change (blink (S (S k)) LEDpin x)
        with (blink (S k) LEDpin
                (emit (delay 80)
                   (emit (digitalWrite LEDpin LOW)
                      (emit (delay 20)
                         (emit (digitalWrite LEDpin HIGH) x))))).
      apply IH. }
  assert (Hg : Gpio (emit (pinMode LEDpin OUTPUT) m)
               = pinMode LEDpin OUTPUT :: Gpio m)
    by (destruct m; reflexivity).
  assert (Hm : forall io,
             set_Gpio io (emit (pinMode LEDpin OUTPUT) m) = set_Gpio io m)
    by (intro io; destruct m; reflexivity).
  rewrite Hg in H2, H3. cbn [rises pulses] in H2, H3.
  split; [rewrite H1 at 1; apply Hm|].
  split; [exact H2|]. split; [exact H3 | apply Hlast].
Qed.

(** X30.  In the sketch [FH] does nothing.  The motor of [main.cpp] is
    built without limit switches and keeps its pins, so after [setup] and
    any passes of [loop] the command [FH] is accepted without an answer
    and leaves the motor as it is: homing by switch cannot be reached from
    the serial port. *)
Theorem sketch_cannot_find_home :
  forall (inputs : list (Board * Answers * string)) (sk : Sketch)
         (a : Answers),
    loops inputs setup = Some sk ->
    ExecuteCommand a "FH" (Stepper sk) = Some (""%string, Stepper sk).
Proof.
  intros inputs sk a H.
  destruct (loops_keep inputs setup sk H) as (_ & (_ & Hp & _) & _).
  - split; [reflexivity | vm_compute; split; discriminate].
  - apply sound_setup.
  - reflexivity.
  - unfold pins_of in Hp. injection Hp as _ _ _ Hll _.
    run_command. rewrite FindHome_without_switch by lia. reflexivity.
Qed.

Lemma sketch_cannot_find_home_witness :
  let a := {| clock := 50; seek_reads := 4; backoff_reads := 2 |} in
  let inputs := [(board_at 0, a, String.append "??" (String "010" ""))] in
  exists sk : Sketch,
    loops inputs setup = Some sk
    /\ Tx sk = Serial_println "Unknown command" :: Tx setup
    /\ ExecuteCommand a "FH" (Stepper sk) = Some (""%string, Stepper sk).
Proof.
  cbv zeta. eexists. split; [vm_compute; reflexivity|].
  split; [reflexivity|].
  apply (sketch_cannot_find_home
           [(board_at 0,
             {| clock := 50; seek_reads := 4; backoff_reads := 2 |},
             String.append "??" (String "010" ""))]).
  vm_compute. reflexivity.
Defined.
